(** * config-manager: the Redis-backed configuration store (package rcm)
      and the in-memory manager (package mcm)

    A shallow embedding of [RedisConfigManager] (LoadConfig, the typed
    getters, their WithDefault variants and the start/stop life cycle of
    the refresh goroutine) and of [InMemoryConfigManager], together with
    models of the Go standard library functions the package delegates to
    (strconv, time, fmt, encoding/json).

    Conventions.
    - A Go [string] is a byte sequence: Rocq's [string] (a list of [ascii]).
    - Go's [int] and [int64] are 64-bit: integers are [Z], range checks are
      written out where the library performs them.
    - A Go result pair [(v, err)] is a Rocq pair [(v, o)] with
      [o : option error], [None] being Go's [nil].
    - [map[string]string] is [gmap string string]. *)

From Stdlib Require Import ZArith List Ascii String Bool Lia.
From Stdlib Require Import Floats.SpecFloat.
From Stdlib Require DecimalPos DecimalFacts.
From stdpp Require Import base option gmap strings list fin_maps.

Set Warnings "-register-all".

Local Open Scope Z_scope.

(** ** Bytes and strings *)

Definition byte_val (c : ascii) : Z := Z.of_N (N_of_ascii c).

Definition is_digit (c : ascii) : bool :=
  (48 <=? byte_val c) && (byte_val c <=? 57).

Definition digit_val (c : ascii) : Z := byte_val c - 48.

Definition byte_of (b : Z) : ascii := ascii_of_N (Z.to_N b).

Definition string_of_bytes (l : list Z) : string :=
  fold_right (fun b acc => String (byte_of b) acc) EmptyString l.

(** Go's [len(s)] as an integer. *)
Definition len (s : string) : Z := Z.of_nat (String.length s).

(** ** Errors

    The package and the library report failures with Go [error] values of
    several dynamic types; the constructor records which one. *)

Inductive NumErrKind := ErrSyntax | ErrRange.

Inductive DurationErrKind :=
| InvalidDuration
| MissingUnit
| UnknownUnit (u : string).

Inductive JSONErrKind :=
| JSONSyntaxError
| JSONUnmarshalTypeError (value : string).

Inductive error :=
(** [fmt.Errorf("key %s not found", key)] *)
| ErrKeyNotFound (key : string)
(** [*strconv.NumError{Func, Num, Err}] *)
| NumError (func num : string) (err : NumErrKind)
(** [errors.New("time: ...")] from [time.ParseDuration] *)
| DurationError (kind : DurationErrKind) (orig : string)
(** the error of the Redis client, opaque to the package *)
| RedisError (msg : string)
(** errors of [encoding/json] *)
| JSONError (kind : JSONErrKind)
(** [fmt.Errorf("failed to get config: %w\n", err)] *)
| ErrGetConfig (cause : error)
(** [fmt.Errorf("failed to unmarshal config: %w\n", err)] *)
| ErrUnmarshalConfig (cause : error).

(** The error taxonomy of the design: which class a Go error belongs to. *)
Definition is_NotFoundError (e : option error) : bool :=
  match e with Some (ErrKeyNotFound _) => true | _ => false end.

Definition is_ParseError (e : option error) : bool :=
  match e with
  | Some (NumError _ _ _) | Some (DurationError _ _) => true
  | _ => false
  end.

Definition is_RetrievalError (e : option error) : bool :=
  match e with Some (ErrGetConfig _) => true | _ => false end.

Definition is_DecodeError (e : option error) : bool :=
  match e with Some (ErrUnmarshalConfig _) => true | _ => false end.

(** * The Go standard library, as far as the package uses it *)

Module strconv.

Definition syntaxError (fn str : string) : error := NumError fn str ErrSyntax.
Definition rangeError (fn str : string) : error := NumError fn str ErrRange.

(** [strconv.ParseBool]: a switch over twelve spellings. *)
Definition ParseBool (str : string) : bool * option error :=
  if (String.eqb str "1" || String.eqb str "t" || String.eqb str "T"
      || String.eqb str "true" || String.eqb str "TRUE"
      || String.eqb str "True")%bool
  then (true, None)
  else if (String.eqb str "0" || String.eqb str "f" || String.eqb str "F"
      || String.eqb str "false" || String.eqb str "FALSE"
      || String.eqb str "False")%bool
  then (false, None)
  else (false, Some (syntaxError "ParseBool" str)).

Definition maxUint64 : Z := 2 ^ 64 - 1.

(** [lower(c)]: [c | ('x' - 'X')], the library's ASCII lower-casing. *)
Definition lower (c : ascii) : Z := Z.lor (byte_val c) 32.

(** The digit loop of [strconv.ParseUint(s, 10, 0)] on a 64-bit platform:
    [n] is the accumulator, [s0] the text reported in errors. Base 10 is
    not base 0, so an underscore is a syntax error like any other byte
    that is not a digit of the base. *)
Fixpoint ParseUint_loop (s0 : string) (s : string) (n : Z) : Z * option error :=
  match s with
  | EmptyString => (n, None)
  | String c s' =>
      if is_digit c then
        let d := digit_val c in
        if n >=? maxUint64 / 10 + 1 then (maxUint64, Some (rangeError "ParseUint" s0))
        else
          let n := n * 10 in
          let n1 := n + d in
          if (2 ^ 64 <=? n1) || (n1 >? maxUint64)
          then (maxUint64, Some (rangeError "ParseUint" s0))
          else ParseUint_loop s0 s' n1
      else if (97 <=? lower c) && (lower c <=? 122) then
        (* a letter: its digit value is at least 10, the base *)
        (0, Some (syntaxError "ParseUint" s0))
      else (0, Some (syntaxError "ParseUint" s0))
  end.

Definition ParseUint10 (s : string) : Z * option error :=
  match s with
  | EmptyString => (0, Some (syntaxError "ParseUint" s))
  | _ => ParseUint_loop s s 0
  end.

(** [strconv.ParseInt(s, 10, 0)] with [IntSize = 64]. *)
Definition ParseInt10 (s : string) : Z * option error :=
  match s with
  | EmptyString => (0, Some (syntaxError "ParseInt" s))
  | String c rest =>
      let s0 := s in
      let neg := Ascii.eqb c "-" in
      let s := if Ascii.eqb c "+" || Ascii.eqb c "-" then rest else s in
      let '(un, err) := ParseUint10 s in
      match err with
      | Some (NumError _ _ ErrRange) | None =>
          let cutoff := 2 ^ 63 in
          if negb neg && (un >=? cutoff) then (cutoff - 1, Some (rangeError "ParseInt" s0))
          else if neg && (un >? cutoff) then (- cutoff, Some (rangeError "ParseInt" s0))
          else (if neg then - un else un, None)
      | Some _ => (0, Some (syntaxError "ParseInt" s0))
      end
  end.

(** The digit loop of the fast path of [strconv.Atoi]. *)
Fixpoint Atoi_fast_loop (s0 : string) (s : string) (n : Z) : option Z :=
  match s with
  | EmptyString => Some n
  | String ch s' =>
      if is_digit ch then Atoi_fast_loop s0 s' (n * 10 + digit_val ch)
      else None
  end.

(** [strconv.Atoi] with [intSize = 64]: texts of 1 to 18 bytes take the
    fast path, which cannot overflow; all others go through [ParseInt],
    whose [NumError] is relabelled with the function name Atoi. *)
Definition Atoi (s : string) : Z * option error :=
  let sLen := len s in
  if (0 <? sLen) && (sLen <? 19) then
    match s with
    | EmptyString => (0, Some (syntaxError "Atoi" s))
    | String c rest =>
        let s0 := s in
        let signed := Ascii.eqb c "-" || Ascii.eqb c "+" in
        let s := if signed then rest else s in
        if signed && (len s <? 1) then (0, Some (syntaxError "Atoi" s0))
        else
          match Atoi_fast_loop s0 s 0 with
          | None => (0, Some (syntaxError "Atoi" s0))
          | Some n => (if Ascii.eqb c "-" then - n else n, None)
          end
    end
  else
    let '(i64, err) := ParseInt10 s in
    match err with
    | Some (NumError _ num k) => (i64, Some (NumError "Atoi" num k))
    | _ => (i64, err)
    end.

End strconv.

(** ** float64

    IEEE 754 binary64 values, as the specification floats of the standard
    library: a finite value is [(-1)^s * m * 2^e] with a canonical 53-bit
    mantissa. All operations round to nearest, ties to even. *)

Module f64.

Definition float64 : Type := spec_float.

Definition prec : Z := 53.
Definition emax : Z := 1024.

Definition mul : float64 -> float64 -> float64 := SFmul prec emax.
Definition div : float64 -> float64 -> float64 := SFdiv prec emax.

(** [float64(n)] for an integer [n]. *)
Definition of_Z (n : Z) : float64 := binary_normalize prec emax n 0 false.

(** The float64 nearest to [(-1)^neg * num / den], for [den > 0]. *)
Definition of_ratio (neg : bool) (num den : Z) : float64 :=
  match num with
  | Z0 => S754_zero neg
  | _ =>
      let '(mz, ez, lz) := SFdiv_core_binary prec emax (Z.abs num) 0 den 0 in
      binary_round_aux prec emax neg mz ez lz
  end.

(** The float64 nearest to [(-1)^neg * mant * 10^exp10], for [mant >= 0]. *)
Definition of_decimal (neg : bool) (mant exp10 : Z) : float64 :=
  if 0 <=? exp10 then of_ratio neg (mant * 10 ^ exp10) 1
  else of_ratio neg mant (10 ^ (- exp10)).

(** The conversion [uint64(x)] / [int64(x)] of an in-range value:
    truncation toward zero. *)
Definition trunc (x : float64) : Z :=
  match x with
  | S754_finite s m e =>
      let a := if 0 <=? e then Z.pos m * 2 ^ e else Z.pos m / 2 ^ (- e) in
      if s then - a else a
  | _ => 0
  end.

Definition is_inf (x : float64) : bool :=
  match x with S754_infinity _ => true | _ => false end.

End f64.

(** ** strconv.ParseFloat *)

Module atof.

Import strconv.

(** [commonPrefixLenIgnoreCase(s, prefix)], [prefix] being lower-case. *)
Fixpoint commonPrefixLenIgnoreCase (s prefix : string) : Z :=
  match s, prefix with
  | String c s', String p prefix' =>
      let c := byte_val c in
      let c := if (65 <=? c) && (c <=? 90) then c + 32 else c in
      if c =? byte_val p then 1 + commonPrefixLenIgnoreCase s' prefix' else 0
  | _, _ => 0
  end.

(** [special]: the texts of the infinities and of NaN. The result is the
    value and the number of bytes consumed; [None] is [ok = false]. *)
Definition special (s : string) : option (f64.float64 * Z) :=
  match s with
  | EmptyString => None
  | String c rest =>
      let inf (neg : bool) (nsign : Z) (s : string) :=
        let n := commonPrefixLenIgnoreCase s "infinity" in
        let n := if (3 <? n) && (n <? 8) then 3 else n in
        if (n =? 3) || (n =? 8) then Some (S754_infinity neg, nsign + n) else None in
      if Ascii.eqb c "+" || Ascii.eqb c "-" then inf (Ascii.eqb c "-") 1 rest
      else if Ascii.eqb c "i" || Ascii.eqb c "I" then inf false 0 s
      else if Ascii.eqb c "n" || Ascii.eqb c "N" then
        if commonPrefixLenIgnoreCase s "nan" =? 3 then Some (S754_nan, 3) else None
      else None
  end.

(** [underscoreOK]: underscores only between digits (or after a base
    prefix). [saw] is the last character class seen, as in the library:
    ['^'], ['0'], ['_'] or ['!']. *)
Inductive Saw := SawStart | SawDigit | SawUnderscore | SawOther.

Definition Saw_eqb (a b : Saw) : bool :=
  match a, b with
  | SawStart, SawStart | SawDigit, SawDigit
  | SawUnderscore, SawUnderscore | SawOther, SawOther => true
  | _, _ => false
  end.

Fixpoint underscoreOK_loop (hex : bool) (s : string) (saw : Saw) : bool :=
  match s with
  | EmptyString => negb (Saw_eqb saw SawUnderscore)
  | String c s' =>
      if is_digit c || (hex && (97 <=? lower c) && (lower c <=? 102))
      then underscoreOK_loop hex s' SawDigit
      else if Ascii.eqb c "_" then
        if negb (Saw_eqb saw SawDigit) then false
        else underscoreOK_loop hex s' SawUnderscore
      else if Saw_eqb saw SawUnderscore then false
      else underscoreOK_loop hex s' SawOther
  end.

Definition underscoreOK (s : string) : bool :=
  let s :=
    match s with
    | String c s' => if Ascii.eqb c "-" || Ascii.eqb c "+" then s' else s
    | _ => s
    end in
  match s with
  | String c0 (String c1 s') =>
      if Ascii.eqb c0 "0"
         && ((lower c1 =? 98) || (lower c1 =? 111) || (lower c1 =? 120))
      then underscoreOK_loop (lower c1 =? 120) s' SawDigit
      else underscoreOK_loop false s SawStart
  | _ => underscoreOK_loop false s SawStart
  end.

(** The state of the mantissa loop of [readFloat]. The library keeps the
    first 19 (16 for hexadecimal) significant digits in a uint64 and a
    flag for the rest, and goes back to the text when they do not decide
    the rounding; the model keeps every digit in [mantissa], so that
    [nd] is also the number of digits in it. *)
Record MantState := {
  sawdot : bool; sawdigits : bool; underscores : bool;
  nd : Z; dp : Z; mantissa : Z
}.

Fixpoint readMantissa (hex : bool) (s : string) (st : MantState)
    : MantState * string :=
  match s with
  | EmptyString => (st, s)
  | String c s' =>
      if Ascii.eqb c "_" then
        readMantissa hex s'
          {| sawdot := sawdot st; sawdigits := sawdigits st; underscores := true;
             nd := nd st; dp := dp st; mantissa := mantissa st |}
      else if Ascii.eqb c "." then
        if sawdot st then (st, s)
        else readMantissa hex s'
          {| sawdot := true; sawdigits := sawdigits st; underscores := underscores st;
             nd := nd st; dp := nd st; mantissa := mantissa st |}
      else if is_digit c then
        if Ascii.eqb c "0" && (nd st =? 0) then
          readMantissa hex s'
            {| sawdot := sawdot st; sawdigits := true; underscores := underscores st;
               nd := nd st; dp := dp st - 1; mantissa := mantissa st |}
        else
          readMantissa hex s'
            {| sawdot := sawdot st; sawdigits := true; underscores := underscores st;
               nd := nd st + 1; dp := dp st;
               mantissa := mantissa st * (if hex then 16 else 10) + digit_val c |}
      else if hex && (97 <=? lower c) && (lower c <=? 102) then
        readMantissa hex s'
          {| sawdot := sawdot st; sawdigits := true; underscores := underscores st;
             nd := nd st + 1; dp := dp st;
             mantissa := mantissa st * 16 + (lower c - 97 + 10) |}
      else (st, s)
  end.

(** The digits of the exponent; past 10000 further digits are read and
    ignored. The result also tells whether an underscore was seen. *)
Fixpoint readExponent (s : string) (e : Z) (underscores : bool)
    : Z * bool * string :=
  match s with
  | EmptyString => (e, underscores, s)
  | String c s' =>
      if Ascii.eqb c "_" then readExponent s' e true
      else if is_digit c then
        readExponent s' (if e <? 10000 then e * 10 + digit_val c else e) underscores
      else (e, underscores, s)
  end.

(** The prefix of [s] that ends where [rest] starts. *)
Definition consumed (s rest : string) : string :=
  String.substring 0 (String.length s - String.length rest) s.

Record Number := {
  num_mantissa : Z; num_exp : Z; num_neg : bool; num_hex : bool; num_rest : string
}.

(** The state before the first byte of the mantissa. *)
Definition st0 : MantState :=
  {| sawdot := false; sawdigits := false; underscores := false;
     nd := 0; dp := 0; mantissa := 0 |}.

(** [readFloat]: sign, mantissa and exponent of the number at the start
    of [s]; the value read is [mantissa * 10^exp], or [mantissa * 2^exp]
    for a hexadecimal number. [None] is [ok = false]. *)
Definition readFloat (s : string) : option Number :=
  match s with
  | EmptyString => None
  | String c0 s0 =>
      let neg := Ascii.eqb c0 "-" in
      let s1 := if Ascii.eqb c0 "+" || Ascii.eqb c0 "-" then s0 else s in
      let '(hex, s2) :=
        match s1 with
        | String z (String x (String y r)) =>
            if Ascii.eqb z "0" && (lower x =? 120) then (true, String y r) else (false, s1)
        | _ => (false, s1)
        end in
      let '(st, s3) := readMantissa hex s2 st0 in
      if negb (sawdigits st) then None
      else
        let dp := if sawdot st then dp st else nd st in
        let dp := if hex then dp * 4 else dp in
        let ndMant := if hex then nd st * 4 else nd st in
        let finish (dp : Z) (us : bool) (rest : string) :=
          let exp := if mantissa st =? 0 then 0 else dp - ndMant in
          if us && negb (underscoreOK (consumed s rest)) then None
          else Some {| num_mantissa := mantissa st; num_exp := exp;
                       num_neg := neg; num_hex := hex; num_rest := rest |} in
        match s3 with
        | String c s4 =>
            if lower c =? (if hex then 112 else 101) then
              match s4 with
              | EmptyString => None
              | String c4 s5 =>
                  let esign := if Ascii.eqb c4 "-" then -1 else 1 in
                  let s6 := if Ascii.eqb c4 "+" || Ascii.eqb c4 "-" then s5 else s4 in
                  match s6 with
                  | EmptyString => None
                  | String c6 _ =>
                      if negb (is_digit c6) then None
                      else
                        let '(e, us, rest) := readExponent s6 0 (underscores st) in
                        finish (dp + e * esign) us rest
                  end
              end
            else if hex then None
            else finish dp (underscores st) s3
        | EmptyString => if hex then None else finish dp (underscores st) s3
        end
  end.

(** The value of a number read: the nearest float64. *)
Definition value (n : Number) : f64.float64 :=
  if num_hex n then
    if 0 <=? num_exp n
    then f64.of_ratio (num_neg n) (num_mantissa n * 2 ^ num_exp n) 1
    else f64.of_ratio (num_neg n) (num_mantissa n) (2 ^ (- num_exp n))
  else f64.of_decimal (num_neg n) (num_mantissa n) (num_exp n).

(** [strconv.ParseFloat(s, 64)]. The whole text must be a number; a
    number too large for a float64 yields the infinity of its sign
    together with a range error. The value is the one the library
    documents, the nearest float64 with ties to even (its conversion
    keeps up to 800 significant digits). *)
Definition ParseFloat (s : string) : f64.float64 * option error :=
  match special s with
  | Some (val, n) =>
      if negb (n =? len s) then (S754_zero false, Some (syntaxError "ParseFloat" s))
      else (val, None)
  | None =>
      match readFloat s with
      | None => (S754_zero false, Some (syntaxError "ParseFloat" s))
      | Some n =>
          match num_rest n with
          | EmptyString =>
              let f := value n in
              if f64.is_inf f then (f, Some (rangeError "ParseFloat" s)) else (f, None)
          | _ => (S754_zero false, Some (syntaxError "ParseFloat" s))
          end
      end
  end.

End atof.

(** ** strconv.FormatFloat(f, 'g', -1, 64)

    The shortest decimal text that reads back as the same float64, laid out
    by the rules of the ['g'] format. *)

Module ftoa.

(** A multi-precision decimal, as the library's [decimal]: the value is
    [0.d1d2...dn * 10^dp]. *)
Record decimal := { d : list Z; dp : Z }.

Definition nd (a : decimal) : Z := Z.of_nat (length (d a)).

(** The digit [a.d[i]]; callers guard the index as the library does. *)
Definition dig (a : decimal) (i : Z) : Z := nth (Z.to_nat i) (d a) 0.

Fixpoint uint_digits (u : Decimal.uint) : list Z :=
  match u with
  | Decimal.Nil => []
  | Decimal.D0 u => 0 :: uint_digits u
  | Decimal.D1 u => 1 :: uint_digits u
  | Decimal.D2 u => 2 :: uint_digits u
  | Decimal.D3 u => 3 :: uint_digits u
  | Decimal.D4 u => 4 :: uint_digits u
  | Decimal.D5 u => 5 :: uint_digits u
  | Decimal.D6 u => 6 :: uint_digits u
  | Decimal.D7 u => 7 :: uint_digits u
  | Decimal.D8 u => 8 :: uint_digits u
  | Decimal.D9 u => 9 :: uint_digits u
  end.

(** The decimal digits of a positive integer, most significant first. *)
Definition digits_of (n : positive) : list Z := uint_digits (Pos.to_uint n).

Fixpoint drop_zeros (l : list Z) : list Z :=
  match l with
  | 0 :: l' => drop_zeros l'
  | _ => l
  end.

(** [trim]: trailing zeros carry no information. *)
Definition trim (a : decimal) : decimal :=
  let ds := rev (drop_zeros (rev (d a))) in
  {| d := ds; dp := match ds with [] => 0 | _ => dp a end |}.

(** [Assign(mant)] followed by [Shift(e)]: the exact decimal expansion
    of [mant * 2^e]. *)
Definition exact (mant : positive) (e : Z) : decimal :=
  if 0 <=? e then
    let ds := digits_of (mant * Z.to_pos (2 ^ e)) in
    trim {| d := ds; dp := Z.of_nat (length ds) |}
  else
    let ds := digits_of (mant * Z.to_pos (5 ^ (- e))) in
    trim {| d := ds; dp := Z.of_nat (length ds) + e |}.

Definition shouldRoundUp (a : decimal) (n : Z) : bool :=
  if (n <? 0) || (n >=? nd a) then false
  else if (dig a n =? 5) && (n + 1 =? nd a) then
    (* exactly halfway: round to even *)
    (n >? 0) && negb (dig a (n - 1) mod 2 =? 0)
  else dig a n >=? 5.

Definition RoundDown (a : decimal) (n : Z) : decimal :=
  if (n <? 0) || (n >=? nd a) then a
  else trim {| d := firstn (Z.to_nat n) (d a); dp := dp a |}.

Fixpoint drop_nines (l : list Z) : list Z :=
  match l with
  | 9 :: l' => drop_nines l'
  | _ => l
  end.

Definition RoundUp (a : decimal) (n : Z) : decimal :=
  if (n <? 0) || (n >=? nd a) then a
  else
    match drop_nines (rev (firstn (Z.to_nat n) (d a))) with
    | [] => {| d := [1]; dp := dp a + 1 |}
    | c :: r => {| d := rev (c + 1 :: r); dp := dp a |}
    end.

Definition Round (a : decimal) (n : Z) : decimal :=
  if (n <? 0) || (n >=? nd a) then a
  else if shouldRoundUp a n then RoundUp a n else RoundDown a n.

(** The digit walk of [roundShortest]: [ui] indexes [upper]; the walk
    ends when the digits of [a] are used up, which [steps] counts. *)
Fixpoint roundShortest_loop (steps : nat) (a lower upper : decimal)
    (inclusive : bool) (ui : Z) (upperdelta : Z) : decimal :=
  match steps with
  | O => a
  | S steps =>
      let mi := ui - dp upper + dp a in
      let li := ui - dp upper + dp lower in
      let l := if (li >=? 0) && (li <? nd lower) then dig lower li else 0 in
      let m := if mi >=? 0 then dig a mi else 0 in
      let u := if ui <? nd upper then dig upper ui else 0 in
      let okdown := negb (l =? m) || (inclusive && (li + 1 =? nd lower)) in
      let upperdelta :=
        if (upperdelta =? 0) && (m + 1 <? u) then 2
        else if (upperdelta =? 0) && negb (m =? u) then 1
        else if (upperdelta =? 1) && (negb (m =? 9) || negb (u =? 0)) then 2
        else upperdelta in
      let okup :=
        (upperdelta >? 0)
        && (inclusive || (upperdelta >? 1) || (ui + 1 <? nd upper)) in
      if okdown && okup then Round a (mi + 1)
      else if okdown then RoundDown a (mi + 1)
      else if okup then RoundUp a (mi + 1)
      else roundShortest_loop steps a lower upper inclusive (ui + 1) upperdelta
  end.

(** [roundShortest]: the shortest digits of [mant * 2^e2] that round back
    to it. [e2 + 52] is the library's [exp]; subnormals have [e2 = -1074]. *)
Definition roundShortest (mant : positive) (e2 : Z) : decimal :=
  let a := exact mant e2 in
  let exp := e2 + 52 in
  let minexp := -1022 in
  if (exp >? minexp) && (332 * (dp a - nd a) >=? 100 * (exp - 52)) then a
  else
    let upper := exact (mant * 2 + 1) (e2 - 1) in
    let '(mantlo, explo) :=
      if (Z.pos mant >? 2 ^ 52) || (exp =? minexp)
      then (Z.pos mant - 1, exp)
      else (Z.pos mant * 2 - 1, exp - 1) in
    let lower := exact (Z.to_pos (mantlo * 2 + 1)) (explo - 52 - 1) in
    let inclusive := Z.pos mant mod 2 =? 0 in
    roundShortest_loop (Z.to_nat (nd a + dp upper - dp a))
      a lower upper inclusive 0 0.

Definition digit_char (x : Z) : ascii := ascii_of_nat (Z.to_nat (48 + x)).

Definition digit_string (l : list Z) : string :=
  fold_right (fun x acc => String (digit_char x) acc) EmptyString l.

Definition zeros (n : Z) : string := digit_string (repeat 0 (Z.to_nat n)).

(** [%e]: [d.ddddde+dd]. *)
Definition fmtE (neg : bool) (a : decimal) (prec : Z) : string :=
  let first := if negb (nd a =? 0) then dig a 0 else 0 in
  let m := Z.min (nd a) (prec + 1) in
  let more :=
    if prec >? 0 then
      let i := if 1 <? m then m else 1 in
      append "." (append (digit_string (firstn (Z.to_nat (i - 1)) (skipn 1 (d a))))
                         (zeros (prec - i + 1)))
    else EmptyString in
  let exp := if nd a =? 0 then 0 else dp a - 1 in
  let esign := if exp <? 0 then "-" else "+" in
  let exp := Z.abs exp in
  let edigits :=
    if exp <? 10 then [0; exp]
    else if exp <? 100 then [exp / 10; exp mod 10]
    else [exp / 100; (exp / 10) mod 10; exp mod 10] in
  append (if neg then "-" else "")
    (String (digit_char first)
       (append more (append "e" (append esign (digit_string edigits))))).

(** [%f]: [ddddd.ddd]. *)
Definition fmtF (neg : bool) (a : decimal) (prec : Z) : string :=
  let int_part :=
    if dp a >? 0 then
      let m := Z.min (nd a) (dp a) in
      append (digit_string (firstn (Z.to_nat m) (d a))) (zeros (dp a - m))
    else "0" in
  let frac :=
    if prec >? 0 then
      append "."
        (digit_string
           (map (fun i => let j := dp a + Z.of_nat i in
                          if (0 <=? j) && (j <? nd a) then dig a j else 0)
                (seq 0 (Z.to_nat prec))))
    else EmptyString in
  append (if neg then "-" else "") (append int_part frac).

(** [formatDigits] for ['g'] in shortest mode: [%e] when the exponent is
    below -4 or at least 6, [%f] otherwise. *)
Definition formatDigits_g (neg : bool) (digs : decimal) : string :=
  let prec := nd digs in
  let eprec := 6 in
  let exp := dp digs - 1 in
  if (exp <? -4) || (exp >=? eprec) then fmtE neg digs (prec - 1)
  else fmtF neg digs (Z.max (nd digs - dp digs) 0).

(** [strconv.FormatFloat(f, 'g', -1, 64)]. *)
Definition FormatFloat_g (f : f64.float64) : string :=
  match f with
  | S754_nan => "NaN"
  | S754_infinity true => "-Inf"
  | S754_infinity false => "+Inf"
  | S754_zero neg => formatDigits_g neg {| d := []; dp := 0 |}
  | S754_finite neg mant e => formatDigits_g neg (roundShortest mant e)
  end.

End ftoa.

(** ** time.ParseDuration *)

Module time.

(** A [time.Duration] is an int64 count of nanoseconds. *)
Definition Duration : Type := Z.

Definition Nanosecond : Duration := 1.
Definition Microsecond : Duration := 1000 * Nanosecond.
Definition Millisecond : Duration := 1000 * Microsecond.
Definition Second : Duration := 1000 * Millisecond.
Definition Minute : Duration := 60 * Second.
Definition Hour : Duration := 60 * Minute.

(** U+00B5 (micro sign) and U+03BC (Greek mu), UTF-8 encoded. *)
Definition micro_sign_s : string :=
  String (ascii_of_nat 194) (String (ascii_of_nat 181) "s").
Definition greek_mu_s : string :=
  String (ascii_of_nat 206) (String (ascii_of_nat 188) "s").

Definition unitMap (u : string) : option Z :=
  if String.eqb u "ns" then Some Nanosecond
  else if String.eqb u "us" then Some Microsecond
  else if String.eqb u micro_sign_s then Some Microsecond
  else if String.eqb u greek_mu_s then Some Microsecond
  else if String.eqb u "ms" then Some Millisecond
  else if String.eqb u "s" then Some Second
  else if String.eqb u "m" then Some Minute
  else if String.eqb u "h" then Some Hour
  else None.

(** [leadingInt]: the leading [[0-9]*] of [s] as a uint64 accumulated in
    [x]; [None] is [errLeadingInt] (overflow). *)
Fixpoint leadingInt (s : string) (x : Z) : option (Z * string) :=
  match s with
  | EmptyString => Some (x, s)
  | String c s' =>
      if negb (is_digit c) then Some (x, s)
      else if x >? 2 ^ 63 / 10 then None
      else
        let x := x * 10 + digit_val c in
        if x >? 2 ^ 63 then None else leadingInt s' x
  end.

(** [leadingFraction]: the leading [[0-9]*] of [s] as [x / scale]; digits
    past the precision of a uint64 are consumed and dropped. *)
Fixpoint leadingFraction (s : string) (x : Z) (scale : f64.float64)
    (overflow : bool) : Z * f64.float64 * string :=
  match s with
  | EmptyString => (x, scale, s)
  | String c s' =>
      if negb (is_digit c) then (x, scale, s)
      else if overflow then leadingFraction s' x scale overflow
      else if x >? (2 ^ 63 - 1) / 10 then leadingFraction s' x scale true
      else
        let y := x * 10 + digit_val c in
        if y >? 2 ^ 63 then leadingFraction s' x scale true
        else leadingFraction s' y (f64.mul scale (f64.of_Z 10)) overflow
  end.

(** The unit: the longest prefix without ['.'] and digits. *)
Fixpoint unit_span (s : string) : string * string :=
  match s with
  | EmptyString => (EmptyString, EmptyString)
  | String c s' =>
      if Ascii.eqb c "." || is_digit c then (EmptyString, s)
      else let '(u, r) := unit_span s' in (String c u, r)
  end.

Definition invalid (orig : string) : error := DurationError InvalidDuration orig.

(** The body of the loop [for s != ""] of [time.ParseDuration]: one
    iteration reads one [number unit] group and adds it to [d]. The
    recursion is on [fuel]; every iteration consumes at least one byte,
    so [String.length s] iterations always suffice
    (see [ParseDuration_loop_fuel]). *)
Fixpoint ParseDuration_loop (fuel : nat) (orig s : string) (d : Z)
    : option (Z * option error) :=
  match s with
  | EmptyString => Some (d, None)
  | String c _ =>
      match fuel with
      | O => None
      | S fuel =>
          if negb (Ascii.eqb c "." || is_digit c) then Some (0, Some (invalid orig))
          else
            let pl := len s in
            match leadingInt s 0 with
            | None => Some (0, Some (invalid orig))
            | Some (v, s) =>
                let pre := negb (pl =? len s) in
                let '(f, scale, s, post) :=
                  match s with
                  | String c s' =>
                      if Ascii.eqb c "." then
                        let pl := len s' in
                        let '(f, scale, s) := leadingFraction s' 0 (f64.of_Z 1) false in
                        (f, scale, s, negb (pl =? len s))
                      else (0, f64.of_Z 1, s, false)
                  | EmptyString => (0, f64.of_Z 1, s, false)
                  end in
                if negb pre && negb post then Some (0, Some (invalid orig))
                else
                  let '(u, s) := unit_span s in
                  if len u =? 0 then Some (0, Some (DurationError MissingUnit orig))
                  else
                    match unitMap u with
                    | None => Some (0, Some (DurationError (UnknownUnit u) orig))
                    | Some unit =>
                        if v >? 2 ^ 63 / unit then Some (0, Some (invalid orig))
                        else
                          let v := v * unit in
                          let v' :=
                            if f >? 0 then
                              (v + f64.trunc (f64.mul (f64.of_Z f)
                                                (f64.div (f64.of_Z unit) scale)))
                                mod 2 ^ 64
                            else v in
                          if (f >? 0) && (v' >? 2 ^ 63) then Some (0, Some (invalid orig))
                          else
                            let d := (d + v') mod 2 ^ 64 in
                            if d >? 2 ^ 63 then Some (0, Some (invalid orig))
                            else ParseDuration_loop fuel orig s d
                    end
            end
      end
  end.

(** [time.ParseDuration]. *)
Definition ParseDuration (s : string) : Duration * option error :=
  let orig := s in
  let '(neg, s) :=
    match s with
    | String c s' =>
        if Ascii.eqb c "-" || Ascii.eqb c "+" then (Ascii.eqb c "-", s') else (false, s)
    | EmptyString => (false, s)
    end in
  if String.eqb s "0" then (0, None)
  else if String.eqb s "" then (0, Some (invalid orig))
  else
    match ParseDuration_loop (String.length s) orig s 0 with
    | None => (0, Some (invalid orig))
    | Some (_, Some e) => (0, Some e)
    | Some (d, None) =>
        if neg then (- d, None)
        else if d >? 2 ^ 63 - 1 then (0, Some (invalid orig))
        else (d, None)
    end.

End time.

(** ** encoding/json: Unmarshal into a [map[string]any] *)

(** The dynamic values [json.Unmarshal] stores in an [any]: [nil], [bool],
    [float64], [string], [[]any] and [map[string]any]. *)
Inductive any :=
| ANil
| ABool (b : bool)
| AFloat64 (f : f64.float64)
| AString (s : string)
| ASlice (l : list any)
| AMap (m : gmap string any).

Module json.

Inductive token :=
| TLBrace | TRBrace | TLBracket | TRBracket | TColon | TComma
| TString (raw : string)     (* the bytes between the quotes *)
| TNumber (text : string)
| TTrue | TFalse | TNull.

Definition is_space (c : ascii) : bool :=
  let b := byte_val c in (b =? 32) || (b =? 9) || (b =? 13) || (b =? 10).

Definition is_hex (c : ascii) : bool :=
  is_digit c || ((97 <=? strconv.lower c) && (strconv.lower c <=? 102)).

Definition hex_val (c : ascii) : Z :=
  if is_digit c then digit_val c else strconv.lower c - 97 + 10.

(** *** Numbers

    An optional minus sign; an integer part, either a single zero or a
    non-zero digit followed by digits; an optional fraction, a point and
    one or more digits; an optional exponent, e or E, an optional sign and
    one or more digits. The states are those of the library's scanner. *)

Inductive NumState :=
| NBegin | NNeg | N0 | N1 | NDot | NDot0 | NE | NESign | NE0.

Definition num_step (st : NumState) (c : ascii) : option NumState :=
  let b := byte_val c in
  let exp_or_dot (dot : bool) :=
    if dot && (b =? 46) then Some NDot
    else if (b =? 101) || (b =? 69) then Some NE
    else None in
  match st with
  | NBegin => if b =? 45 then Some NNeg
              else if b =? 48 then Some N0
              else if is_digit c then Some N1 else None
  | NNeg => if b =? 48 then Some N0 else if is_digit c then Some N1 else None
  | N0 => exp_or_dot true
  | N1 => if is_digit c then Some N1 else exp_or_dot true
  | NDot => if is_digit c then Some NDot0 else None
  | NDot0 => if is_digit c then Some NDot0 else exp_or_dot false
  | NE => if (b =? 43) || (b =? 45) then Some NESign
          else if is_digit c then Some NE0 else None
  | NESign => if is_digit c then Some NE0 else None
  | NE0 => if is_digit c then Some NE0 else None
  end.

Fixpoint num_run (st : NumState) (s : string) : option NumState :=
  match s with
  | EmptyString => Some st
  | String c s' =>
      match num_step st c with
      | Some st' => num_run st' s'
      | None => None
      end
  end.

Definition valid_number (text : string) : bool :=
  match num_run NBegin text with
  | Some N0 | Some N1 | Some NDot0 | Some NE0 => true
  | _ => false
  end.

(** A byte that can only continue a number, never follow a value. *)
Definition is_number_byte (c : ascii) : bool :=
  let b := byte_val c in
  is_digit c || (b =? 45) || (b =? 43) || (b =? 46) || (b =? 101) || (b =? 69).

(** *** The scanner, byte by byte *)

Inductive EscState := NoEsc | Esc | EscU (remaining : nat).

Inductive LexState :=
| LIdle
| LStr (acc : list ascii) (esc : EscState)       (* inside a string *)
| LNum (acc : list ascii)                        (* inside a number *)
| LLit (rest : string) (tok : token).            (* inside true/false/null *)

Definition text_of (acc : list ascii) : string :=
  string_of_list_ascii (rev acc).

(** A byte at the start of a token. *)
Definition lex_idle (c : ascii) : option (LexState * list token) :=
  let b := byte_val c in
  if is_space c then Some (LIdle, [])
  else if b =? 123 then Some (LIdle, [TLBrace])
  else if b =? 125 then Some (LIdle, [TRBrace])
  else if b =? 91 then Some (LIdle, [TLBracket])
  else if b =? 93 then Some (LIdle, [TRBracket])
  else if b =? 58 then Some (LIdle, [TColon])
  else if b =? 44 then Some (LIdle, [TComma])
  else if b =? 34 then Some (LStr [] NoEsc, [])
  else if (b =? 45) || is_digit c then Some (LNum [c], [])
  else if b =? 116 then Some (LLit "rue" TTrue, [])
  else if b =? 102 then Some (LLit "alse" TFalse, [])
  else if b =? 110 then Some (LLit "ull" TNull, [])
  else None.

Definition lex_step (st : LexState) (c : ascii) : option (LexState * list token) :=
  let b := byte_val c in
  match st with
  | LIdle => lex_idle c
  | LNum acc =>
      if is_number_byte c then Some (LNum (c :: acc), [])
      else if valid_number (text_of acc) then
        match lex_idle c with
        | Some (st', toks) => Some (st', TNumber (text_of acc) :: toks)
        | None => None
        end
      else None
  | LLit rest tok =>
      match rest with
      | String e rest' =>
          if Ascii.eqb c e then
            match rest' with
            | EmptyString => Some (LIdle, [tok])
            | _ => Some (LLit rest' tok, [])
            end
          else None
      | EmptyString => None
      end
  | LStr acc NoEsc =>
      if b =? 34 then Some (LIdle, [TString (text_of acc)])
      else if b =? 92 then Some (LStr (c :: acc) Esc, [])
      else if b <? 32 then None
      else Some (LStr (c :: acc) NoEsc, [])
  | LStr acc Esc =>
      if (b =? 98) || (b =? 102) || (b =? 110) || (b =? 114) || (b =? 116)
         || (b =? 92) || (b =? 47) || (b =? 34)
      then Some (LStr (c :: acc) NoEsc, [])
      else if b =? 117 then Some (LStr (c :: acc) (EscU 4), [])
      else None
  | LStr acc (EscU n) =>
      if is_hex c then
        match n with
        | S (S n') => Some (LStr (c :: acc) (EscU (S n')), [])
        | _ => Some (LStr (c :: acc) NoEsc, [])
        end
      else None
  end.

(** The tokens of a text; [None] is a syntax error. *)
Fixpoint lex (s : string) (st : LexState) : option (list token) :=
  match s with
  | EmptyString =>
      match st with
      | LIdle => Some []
      | LNum acc => if valid_number (text_of acc) then Some [TNumber (text_of acc)] else None
      | _ => None
      end
  | String c s' =>
      match lex_step st c with
      | Some (st', toks) =>
          match lex s' st' with
          | Some rest => Some (toks ++ rest)
          | None => None
          end
      | None => None
      end
  end.

(** *** Strings: [unquote] *)

Definition RuneError : Z := 65533.

(** [utf8.EncodeRune]. *)
Definition EncodeRune (r : Z) : string :=
  if r <? 128 then string_of_bytes [r]
  else if r <? 2048 then string_of_bytes [192 + r / 64; 128 + r mod 64]
  else if (r >? 1114111) || ((55296 <=? r) && (r <=? 57343)) then
    string_of_bytes [239; 191; 189]
  else if r <? 65536 then
    string_of_bytes [224 + r / 4096; 128 + (r / 64) mod 64; 128 + r mod 64]
  else
    string_of_bytes [240 + r / 262144; 128 + (r / 4096) mod 64;
                     128 + (r / 64) mod 64; 128 + r mod 64].

Definition cont (b : Z) : bool := (128 <=? b) && (b <=? 191).

(** The well-formed UTF-8 sequences of two, three and four bytes. *)
Definition valid2 (b0 b1 : Z) : bool := (194 <=? b0) && (b0 <=? 223) && cont b1.

Definition valid3 (b0 b1 b2 : Z) : bool :=
  (((b0 =? 224) && (160 <=? b1) && (b1 <=? 191))
   || ((225 <=? b0) && (b0 <=? 236) && cont b1)
   || ((b0 =? 237) && (128 <=? b1) && (b1 <=? 159))
   || ((238 <=? b0) && (b0 <=? 239) && cont b1))
  && cont b2.

Definition valid4 (b0 b1 b2 b3 : Z) : bool :=
  (((b0 =? 240) && (144 <=? b1) && (b1 <=? 191))
   || ((241 <=? b0) && (b0 <=? 243) && cont b1)
   || ((b0 =? 244) && (128 <=? b1) && (b1 <=? 143)))
  && cont b2 && cont b3.

Definition u4 (a b c d : ascii) : Z :=
  ((hex_val a * 16 + hex_val b) * 16 + hex_val c) * 16 + hex_val d.

(** [getu4]: the rune of a [\uXXXX] at the start of [s], or [-1]. *)
Definition getu4 (s : string) : Z :=
  match s with
  | String bs (String u (String a (String b (String c (String d _))))) =>
      if (byte_val bs =? 92) && (byte_val u =? 117)
         && is_hex a && is_hex b && is_hex c && is_hex d
      then u4 a b c d else -1
  | _ => -1
  end.

Definition IsSurrogate (r : Z) : bool := (55296 <=? r) && (r <? 57344).

(** [utf16.DecodeRune]. *)
Definition DecodeRune16 (r1 r2 : Z) : Z :=
  if (55296 <=? r1) && (r1 <? 56320) && (56320 <=? r2) && (r2 <? 57344)
  then (r1 - 55296) * 1024 + (r2 - 56320) + 65536
  else RuneError.

(** [unquote]: the Go string of the text between the quotes of a JSON
    string. Escapes are decoded, a surrogate pair becomes one rune, and
    bytes that are not well-formed UTF-8 become U+FFFD. [None] is
    [ok = false]; the scanner has excluded it. *)
Fixpoint unquote (s : string) : option string :=
  match s with
  | EmptyString => Some EmptyString
  | String c s1 =>
      let b := byte_val c in
      if b =? 92 then
        match s1 with
        | EmptyString => None
        | String e s2 =>
            let simple (x : Z) := option_map (String (byte_of x)) (unquote s2) in
            let eb := byte_val e in
            if (eb =? 34) || (eb =? 92) || (eb =? 47) || (eb =? 39) then simple eb
            else if eb =? 98 then simple 8
            else if eb =? 102 then simple 12
            else if eb =? 110 then simple 10
            else if eb =? 114 then simple 13
            else if eb =? 116 then simple 9
            else if eb =? 117 then
              match s2 with
              | String h1 (String h2 (String h3 (String h4 s6))) =>
                  let rr := getu4 s in
                  if rr <? 0 then None
                  else if IsSurrogate rr then
                    let dec := DecodeRune16 rr (getu4 s6) in
                    if negb (dec =? RuneError) then
                      match s6 with
                      | String _ (String _ (String _ (String _ (String _ (String _ s12))))) =>
                          option_map (append (EncodeRune dec)) (unquote s12)
                      | _ => None
                      end
                    else option_map (append (EncodeRune RuneError)) (unquote s6)
                  else option_map (append (EncodeRune rr)) (unquote s6)
              | _ => None
              end
            else None
        end
      else if (b =? 34) || (b <? 32) then None
      else if b <? 128 then option_map (String c) (unquote s1)
      else
        let replace := option_map (append (EncodeRune RuneError)) (unquote s1) in
        match s1 with
        | String c1 s2 =>
            if valid2 b (byte_val c1)
            then option_map (fun t => String c (String c1 t)) (unquote s2)
            else
              match s2 with
              | String c2 s3 =>
                  if valid3 b (byte_val c1) (byte_val c2)
                  then option_map (fun t => String c (String c1 (String c2 t))) (unquote s3)
                  else
                    match s3 with
                    | String c3 s4 =>
                        if valid4 b (byte_val c1) (byte_val c2) (byte_val c3)
                        then option_map
                               (fun t => String c (String c1 (String c2 (String c3 t))))
                               (unquote s4)
                        else replace
                    | EmptyString => replace
                    end
              | EmptyString => replace
              end
        | EmptyString => replace
        end
  end.

(** *** The decoder *)

(** An open container: the elements read so far, or the members read so
    far and the key whose value is being read. *)
Inductive Frame :=
| FArray (elems : list any)                        (* most recent first *)
| FObject (m : gmap string any) (key : option string).

(** What the scanner accepts next. *)
Inductive Expect :=
| BeginValue | BeginValueOrEmpty | BeginStringOrEmpty | BeginString
| EndValue | ExpectColon | EndTop.

Record Decoder := {
  stack : list Frame;
  expect : Expect;
  top : any;                       (* the top-level value, once complete *)
  savedError : option error        (* the first conversion error *)
}.

Definition maxNestingDepth : Z := 10000.

(** A value is complete: it is stored in the container it belongs to,
    [m[key] = v] for an object, or becomes the top-level value. *)
Definition finish_value (dec : Decoder) (st : list Frame) (v : any)
    (err : option error) : option Decoder :=
  let saved := match savedError dec with Some e => Some e | None => err end in
  match st with
  | [] => Some {| stack := []; expect := EndTop; top := v; savedError := saved |}
  | FArray es :: st' =>
      Some {| stack := FArray (v :: es) :: st'; expect := EndValue;
              top := top dec; savedError := saved |}
  | FObject m (Some k) :: st' =>
      Some {| stack := FObject (<[k := v]> m) None :: st'; expect := EndValue;
              top := top dec; savedError := saved |}
  | FObject _ None :: _ => None
  end.

Definition push (dec : Decoder) (f : Frame) (e : Expect) : option Decoder :=
  let st := f :: stack dec in
  if Z.of_nat (length st) <=? maxNestingDepth
  then Some {| stack := st; expect := e; top := top dec; savedError := savedError dec |}
  else None.

Definition begins_value (e : Expect) : bool :=
  match e with BeginValue | BeginValueOrEmpty => true | _ => false end.

(** [convertNumber]: a number becomes a float64; a text out of range is
    an [UnmarshalTypeError]. *)
Definition convertNumber (text : string) : any * option error :=
  let '(f, err) := atof.ParseFloat text in
  match err with
  | Some _ => (ANil, Some (JSONError (JSONUnmarshalTypeError (append "number " text))))
  | None => (AFloat64 f, None)
  end.

Definition decode_step (dec : Decoder) (t : token) : option Decoder :=
  match t with
  | TLBracket =>
      if begins_value (expect dec) then push dec (FArray []) BeginValueOrEmpty else None
  | TLBrace =>
      if begins_value (expect dec) then push dec (FObject ∅ None) BeginStringOrEmpty else None
  | TRBracket =>
      match expect dec, stack dec with
      | (BeginValueOrEmpty | EndValue), FArray es :: st =>
          finish_value dec st (ASlice (rev es)) None
      | _, _ => None
      end
  | TRBrace =>
      match expect dec, stack dec with
      | (BeginStringOrEmpty | EndValue), FObject m None :: st =>
          finish_value dec st (AMap m) None
      | _, _ => None
      end
  | TComma =>
      match expect dec, stack dec with
      | EndValue, FArray _ :: _ =>
          Some {| stack := stack dec; expect := BeginValue;
                  top := top dec; savedError := savedError dec |}
      | EndValue, FObject _ None :: _ =>
          Some {| stack := stack dec; expect := BeginString;
                  top := top dec; savedError := savedError dec |}
      | _, _ => None
      end
  | TColon =>
      match expect dec with
      | ExpectColon =>
          Some {| stack := stack dec; expect := BeginValue;
                  top := top dec; savedError := savedError dec |}
      | _ => None
      end
  | TString raw =>
      match unquote raw with
      | None => None
      | Some str =>
          match expect dec, stack dec with
          | (BeginStringOrEmpty | BeginString), FObject m None :: st =>
              Some {| stack := FObject m (Some str) :: st; expect := ExpectColon;
                      top := top dec; savedError := savedError dec |}
          | (BeginValue | BeginValueOrEmpty), st => finish_value dec st (AString str) None
          | _, _ => None
          end
      end
  | TNumber text =>
      if begins_value (expect dec) then
        let '(v, err) := convertNumber text in finish_value dec (stack dec) v err
      else None
  | TTrue =>
      if begins_value (expect dec) then finish_value dec (stack dec) (ABool true) None
      else None
  | TFalse =>
      if begins_value (expect dec) then finish_value dec (stack dec) (ABool false) None
      else None
  | TNull =>
      if begins_value (expect dec) then finish_value dec (stack dec) ANil None
      else None
  end.

Fixpoint decode (toks : list token) (dec : Decoder) : option Decoder :=
  match toks with
  | [] => Some dec
  | t :: toks' =>
      match decode_step dec t with
      | Some dec' => decode toks' dec'
      | None => None
      end
  end.

(** The decoder before the first token. *)
Definition start : Decoder :=
  {| stack := []; expect := BeginValue; top := ANil; savedError := None |}.

(** The value a token sequence denotes and the first conversion error met
    while decoding it; [None] is a syntax error. *)
Definition decode_all (toks : list token) : option (any * option error) :=
  match decode toks start with
  | Some dec =>
      match expect dec with
      | EndTop => Some (top dec, savedError dec)
      | _ => None
      end
  | None => None
  end.

(** The value of a JSON text. *)
Definition parse (data : string) : option (any * option error) :=
  match lex data LIdle with
  | None => None
  | Some toks => decode_all toks
  end.

Definition typeError (value : string) : option error :=
  Some (JSONError (JSONUnmarshalTypeError value)).

(** [json.Unmarshal(data, &m)] for an empty [m : map[string]any]. The
    text is checked first, so a syntax error stores nothing. An object
    fills the map, a later member replacing an earlier one of the same
    name, and a member number out of the float64 range is an error;
    [null] leaves the map without entries; any other top-level value is an
    [UnmarshalTypeError] of its kind (a top-level number is, whether it
    fits a float64 or not: its value is [nil] when it does not). When an
    error is returned the map is not used by the caller and is given as
    empty. *)
Definition Unmarshal (data : string) : gmap string any * option error :=
  match lex data LIdle with
  | None => (∅, Some (JSONError JSONSyntaxError))
  | Some toks =>
      match decode_all toks with
      | None => (∅, Some (JSONError JSONSyntaxError))
      | Some (AMap m, None) => (m, None)
      | Some (AMap m, Some err) => (∅, Some err)
      | Some (ASlice _, _) => (∅, typeError "array")
      | Some (AString _, _) => (∅, typeError "string")
      | Some (ABool _, _) => (∅, typeError "bool")
      | Some (AFloat64 _, _) => (∅, typeError "number")
      | Some (ANil, _) =>
          match toks with
          | TNull :: _ => (∅, None)
          | _ => (∅, typeError "number")
          end
      end
  end.

End json.

(** ** fmt.Sprintf("%v", value) *)

Module fmt.

Fixpoint insert_by_key (kv : string * string) (l : list (string * string))
    : list (string * string) :=
  match l with
  | [] => [kv]
  | x :: l' =>
      if String.leb (fst kv) (fst x) then kv :: l else x :: insert_by_key kv l'
  end.

(** The entries of a map in the order [fmt] prints them: by key, bytewise. *)
Definition sort_by_key (l : list (string * string)) : list (string * string) :=
  fold_right insert_by_key [] l.

Fixpoint join (sep : string) (l : list string) : string :=
  match l with
  | [] => EmptyString
  | [x] => x
  | x :: l' => append x (append sep (join sep l'))
  end.

(** The [%v] text of a value decoded from JSON: [<nil>], [true] or
    [false], the ['g'] text of a float64, a string as it is, a slice as
    [[a b c]] and a map as [map[k:v k:v]] in key order. *)
Fixpoint Sprintf_v (a : any) : string :=
  match a with
  | ANil => "<nil>"
  | ABool b => if b then "true" else "false"
  | AFloat64 f => ftoa.FormatFloat_g f
  | AString s => s
  | ASlice l => append "[" (append (join " " (map Sprintf_v l)) "]")
  | AMap m =>
      append "map["
        (append
           (join " "
              (map (fun kv => append (fst kv) (append ":" (snd kv)))
                 (sort_by_key (map_to_list (Sprintf_v <$> m)))))
           "]")
  end.

End fmt.

(** * Package rcm *)

Module rcm.

(** A [time.Time], as nanoseconds since the zero time. *)
Definition Time : Type := Z.

(** The data of a [RedisConfigManager]. The fields [once], [r], [ctx],
    [cancel], [wg] and [mu] carry no configuration; the client and the
    clock are arguments of [LoadConfig], and the life cycle of the refresh
    goroutine is modelled in [Module lifecycle]. *)
Record RedisConfigManager := {
  serviceName : string;
  config : gmap string string;
  updatedAt : Time
}.

(** The answer of [rcm.r.Get(ctx, key).Result()] for each key, at the
    moment of the call. *)
Definition Client : Type := string -> string * option error.

(** [NewRedisConfigManager], once the client answered the ping:
    [config: make(map[string]string)], the zero [updatedAt]. *)
Definition NewRedisConfigManager (serviceName : string) : RedisConfigManager :=
  {| serviceName := serviceName; config := ∅; updatedAt := 0 |}.

(** [LoadConfig]. The fetch and the decoding come first and return early
    on an error; then, under the write lock, every entry of the decoded
    map is stored in [rcm.config] and [updatedAt] is set to [time.Now()],
    which is [now]. The result is the manager after the call and the
    error returned. *)
Definition LoadConfig (r : Client) (now : Time) (rcm : RedisConfigManager)
    : RedisConfigManager * option error :=
  let '(rawConfig, err) := r (serviceName rcm) in
  match err with
  | Some err => (rcm, Some (ErrGetConfig err))
  | None =>
      let '(rawConfigMap, err) := json.Unmarshal rawConfig in
      match err with
      | Some err => (rcm, Some (ErrUnmarshalConfig err))
      | None =>
          ({| serviceName := serviceName rcm;
              config :=
                map_fold (fun key value cfg => <[key := fmt.Sprintf_v value]> cfg)
                  (config rcm) rawConfigMap;
              updatedAt := now |},
           None)
      end
  end.

Definition GetInt (rcm : RedisConfigManager) (key : string) : Z * option error :=
  match config rcm !! key with
  | None => (0, Some (ErrKeyNotFound key))
  | Some value => strconv.Atoi value
  end.

Definition GetFloat (rcm : RedisConfigManager) (key : string)
    : f64.float64 * option error :=
  match config rcm !! key with
  | None => (S754_zero false, Some (ErrKeyNotFound key))
  | Some value => atof.ParseFloat value
  end.

Definition GetString (rcm : RedisConfigManager) (key : string)
    : string * option error :=
  match config rcm !! key with
  | None => (EmptyString, Some (ErrKeyNotFound key))
  | Some value => (value, None)
  end.

Definition GetBool (rcm : RedisConfigManager) (key : string) : bool * option error :=
  match config rcm !! key with
  | None => (false, Some (ErrKeyNotFound key))
  | Some value => strconv.ParseBool value
  end.

Definition GetDuration (rcm : RedisConfigManager) (key : string)
    : time.Duration * option error :=
  match config rcm !! key with
  | None => (0, Some (ErrKeyNotFound key))
  | Some value => time.ParseDuration value
  end.

Definition GetIntWithDefault (rcm : RedisConfigManager) (key : string)
    (defaultValue : Z) : Z :=
  let '(value, err) := GetInt rcm key in
  match err with
  | Some _ => defaultValue
  | None => value
  end.

Definition GetFloatWithDefault (rcm : RedisConfigManager) (key : string)
    (defaultValue : f64.float64) : f64.float64 :=
  let '(value, err) := GetFloat rcm key in
  match err with
  | Some _ => defaultValue
  | None => value
  end.

Definition GetStringWithDefault (rcm : RedisConfigManager) (key : string)
    (defaultValue : string) : string :=
  let '(value, err) := GetString rcm key in
  match err with
  | Some _ => defaultValue
  | None => value
  end.

Definition GetBoolWithDefault (rcm : RedisConfigManager) (key : string)
    (defaultValue : bool) : bool :=
  let '(value, err) := GetBool rcm key in
  match err with
  | Some _ => defaultValue
  | None => value
  end.

Definition GetDurationWithDefault (rcm : RedisConfigManager) (key : string)
    (defaultValue : time.Duration) : time.Duration :=
  let '(value, err) := GetDuration rcm key in
  match err with
  | Some _ => defaultValue
  | None => value
  end.

End rcm.

(** * The refresh goroutine: StartLoading, fetchUpdates, StopLoading

    The goroutine of [StartLoading] and the caller of [StopLoading] run
    concurrently. Their interleavings are the runs of a transition system
    whose events are the steps of the three functions; an event that is
    not enabled in a state has no successor. *)

Module lifecycle.

Import rcm.

(** Where a goroutine started by [StartLoading] is in [fetchUpdates]. *)
Inductive Task :=
| AtSelect        (* blocked in the [select] *)
| InLoadConfig    (* [ticker.C] was chosen: [rcm.LoadConfig(rcm.ctx)] is running *)
| Exited.         (* [ctx.Done()] was chosen: returned, [wg.Done()] has run *)

(** The statements of [StopLoading]. *)
Inductive Stmt :=
| Cancel          (* [rcm.cancel()] *)
| Close           (* [rcm.r.Close()] *)
| Wait.           (* [rcm.wg.Wait()] *)

(** [StopLoading]: its statements in the order of the source. *)
Definition StopLoading : list Stmt := [Cancel; Close; Wait].

Record State := {
  store : RedisConfigManager;
  cancelled : bool;          (* [rcm.ctx] is done *)
  closes : nat;              (* calls of [rcm.r.Close()] so far *)
  wg : nat;                  (* the counter of [rcm.wg] *)
  tasks : list Task;         (* the goroutines started so far *)
  stopped : nat              (* statements of [StopLoading] executed so far *)
}.

Definition init (serviceName : string) : State :=
  {| store := NewRedisConfigManager serviceName; cancelled := false;
     closes := 0; wg := 0; tasks := []; stopped := 0 |}.

(** [StopLoading] has returned. *)
Definition returned (s : State) : bool :=
  (stopped s =? length StopLoading)%nat.

Inductive Event :=
(** [StartLoading]: [wg.Add(1)] and the [go] statement *)
| EvStartLoading
(** goroutine [i]: the [select] takes [<-ticker.C] *)
| EvTick (i : nat)
(** goroutine [i]: [LoadConfig] completes, the client having answered
    [r] and the clock showing [now] *)
| EvLoadConfig (i : nat) (r : Client) (now : Time)
(** goroutine [i]: the [select] takes [<-rcm.ctx.Done()] *)
| EvDone (i : nat)
(** the caller of [StopLoading] executes its next statement *)
| EvStopLoading.

Definition Task_eqb (a b : Task) : bool :=
  match a, b with
  | AtSelect, AtSelect | InLoadConfig, InLoadConfig | Exited, Exited => true
  | _, _ => false
  end.

Definition set_task (s : State) (i : nat) (t : Task) (st : RedisConfigManager)
    (wg' : nat) : State :=
  {| store := st; cancelled := cancelled s; closes := closes s; wg := wg';
     tasks := <[i := t]> (tasks s); stopped := stopped s |}.

(** One statement of [StopLoading]; [Wait] returns when the counter of the
    wait group is zero and blocks otherwise. *)
Definition exec (st : Stmt) (s : State) : option State :=
  match st with
  | Cancel =>
      Some {| store := store s; cancelled := true; closes := closes s;
              wg := wg s; tasks := tasks s; stopped := S (stopped s) |}
  | Close =>
      Some {| store := store s; cancelled := cancelled s; closes := S (closes s);
              wg := wg s; tasks := tasks s; stopped := S (stopped s) |}
  | Wait =>
      match wg s with
      | O => Some {| store := store s; cancelled := cancelled s; closes := closes s;
                     wg := wg s; tasks := tasks s; stopped := S (stopped s) |}
      | S _ => None
      end
  end.

(** One event. [StartLoading] is called before [StopLoading] only: the
    store goes from running to stopped and is not restarted. A [select]
    with both channels ready may take either, so a tick is possible after
    the cancellation as well. The answer of the client to a fetch is
    arbitrary; after the cancellation or the close it is an error. *)
Definition fire (ev : Event) (s : State) : option State :=
  match ev with
  | EvStartLoading =>
      match stopped s with
      | O =>
          Some {| store := store s; cancelled := cancelled s; closes := closes s;
                  wg := S (wg s); tasks := tasks s ++ [AtSelect];
                  stopped := stopped s |}
      | S _ => None
      end
  | EvTick i =>
      match tasks s !! i with
      | Some AtSelect => Some (set_task s i InLoadConfig (store s) (wg s))
      | _ => None
      end
  | EvLoadConfig i r now =>
      match tasks s !! i with
      | Some InLoadConfig =>
          Some (set_task s i AtSelect (fst (LoadConfig r now (store s))) (wg s))
      | _ => None
      end
  | EvDone i =>
      match tasks s !! i with
      | Some AtSelect =>
          if cancelled s then Some (set_task s i Exited (store s) (pred (wg s)))
          else None
      | _ => None
      end
  | EvStopLoading =>
      match nth_error StopLoading (stopped s) with
      | Some st => exec st s
      | None => None
      end
  end.

Fixpoint run (evs : list Event) (s : State) : option State :=
  match evs with
  | [] => Some s
  | ev :: evs' =>
      match fire ev s with
      | Some s' => run evs' s'
      | None => None
      end
  end.

(** The state a run ends in; the start state when an event of the run is
    not enabled. *)
Definition final (evs : list Event) (s : State) : State :=
  match run evs s with
  | Some s' => s'
  | None => s
  end.

(** A refresh is in flight. *)
Definition in_flight (s : State) : bool :=
  existsb (Task_eqb InLoadConfig) (tasks s).

(** Every goroutine has exited. *)
Definition all_exited (s : State) : bool :=
  forallb (Task_eqb Exited) (tasks s).

(** The number of goroutines that have not exited. *)
Fixpoint live (ts : list Task) : nat :=
  match ts with
  | [] => O
  | Exited :: ts' => live ts'
  | _ :: ts' => S (live ts')
  end.

(** What every reachable state satisfies: the wait group counts the
    goroutines that have not exited, and the statements of [StopLoading]
    executed so far have had their effects. *)
Definition Inv (s : State) : Prop :=
  wg s = live (tasks s)
  /\ match stopped s with
     | 0%nat => cancelled s = false /\ closes s = O
     | 1%nat => cancelled s = true /\ closes s = O
     | 2%nat => cancelled s = true /\ closes s = 1%nat
     | 3%nat => cancelled s = true /\ closes s = 1%nat /\ wg s = O
     | _ => False
     end.

End lifecycle.

(** * The text formats of the five value types

    What the design calls a valid text representation of a type, written
    down independently of the parsers: decimal notation read by position,
    the spellings of the booleans, durations as counts of units. For
    floats and durations the module also gives the shape alone,
    [FloatSyntax] and [DurationSyntax]: every text of the type has it, and
    a text without it is invalid whatever it was meant to denote. *)

Module text.

Fixpoint all_digits (s : string) : bool :=
  match s with
  | EmptyString => true
  | String c s' => is_digit c && all_digits s'
  end.

(** One or more decimal digits. *)
Definition digits (s : string) : Prop := s <> EmptyString /\ all_digits s = true.

(** The number a digit string denotes, by position. *)
Fixpoint value (s : string) : Z :=
  match s with
  | EmptyString => 0
  | String c s' => digit_val c * 10 ^ Z.of_nat (String.length s') + value s'
  end.

(** An int: an optional sign and digits, within 64 bits. *)
Inductive IntText : string -> Z -> Prop :=
| IntText_unsigned ds :
    digits ds -> value ds < 2 ^ 63 -> IntText ds (value ds)
| IntText_plus ds :
    digits ds -> value ds < 2 ^ 63 -> IntText (String "+" ds) (value ds)
| IntText_minus ds :
    digits ds -> value ds <= 2 ^ 63 -> IntText (String "-" ds) (- value ds).

(** A plain decimal string: an optional sign and digits. *)
Definition plain_decimal (s : string) : bool :=
  match s with
  | EmptyString => false
  | String c s' =>
      if Ascii.eqb c "+" || Ascii.eqb c "-"
      then negb (String.eqb s' EmptyString) && all_digits s'
      else all_digits s
  end.

(** A bool: the spellings of Go's boolean text format. *)
Inductive BoolText : string -> bool -> Prop :=
| BoolText_1 : BoolText "1" true
| BoolText_t : BoolText "t" true
| BoolText_T : BoolText "T" true
| BoolText_TRUE : BoolText "TRUE" true
| BoolText_true : BoolText "true" true
| BoolText_True : BoolText "True" true
| BoolText_0 : BoolText "0" false
| BoolText_f : BoolText "f" false
| BoolText_F : BoolText "F" false
| BoolText_FALSE : BoolText "FALSE" false
| BoolText_false : BoolText "false" false
| BoolText_False : BoolText "False" false.

(** The units of a duration and their length in nanoseconds. *)
Inductive UnitText : string -> Z -> Prop :=
| Unit_ns : UnitText "ns" 1
| Unit_us : UnitText "us" 1000
| Unit_micro : UnitText time.micro_sign_s 1000
| Unit_mu : UnitText time.greek_mu_s 1000
| Unit_ms : UnitText "ms" 1000000
| Unit_s : UnitText "s" 1000000000
| Unit_m : UnitText "m" 60000000000
| Unit_h : UnitText "h" 3600000000000.

(** The sign of a number. *)
Inductive Sign := NoSign | Plus | Minus.

Definition sign_text (sg : Sign) : string :=
  match sg with NoSign => "" | Plus => "+" | Minus => "-" end.

Definition is_minus (sg : Sign) : bool :=
  match sg with Minus => true | _ => false end.

(** One group of a duration: a count and a unit, as in 5s, 100ms, 1.5h.
    The count is a run of digits, or digits around a decimal point, with
    a digit on at least one side of the point. A fraction has at most as
    many digits as the unit has decimal zeros, so that each of its digits
    counts whole nanoseconds. *)
Inductive GroupText : string -> Z -> Prop :=
| Group_whole ds u n :
    digits ds -> UnitText u n -> GroupText (append ds u) (value ds * n)
| Group_fraction ds fs u n :
    all_digits ds = true -> all_digits fs = true ->
    ds <> EmptyString \/ fs <> EmptyString ->
    UnitText u n -> n mod 10 ^ len fs = 0 ->
    GroupText (append ds (String "." (append fs u)))
      (value ds * n + value fs * (n / 10 ^ len fs)).

(** One or more groups, as in 1h30m; the value is the sum of the
    groups. *)
Inductive GroupsText : string -> Z -> Prop :=
| Groups_one g v : GroupText g v -> GroupsText g v
| Groups_cons g v rest w :
    GroupText g v -> GroupsText rest w -> GroupsText (append g rest) (v + w).

(** A duration: an optional sign and either the single digit 0 or groups
    within 64 bits of nanoseconds. *)
Inductive DurationText : string -> Z -> Prop :=
| DurationText_zero sg : DurationText (append (sign_text sg) "0") 0
| DurationText_unsigned g v :
    GroupsText g v -> v < 2 ^ 63 -> DurationText g v
| DurationText_plus g v :
    GroupsText g v -> v < 2 ^ 63 -> DurationText (String "+" g) v
| DurationText_minus g v :
    GroupsText g v -> v <= 2 ^ 63 -> DurationText (String "-" g) (- v).

(** A decimal literal: sign, integer digits, optional fraction digits,
    optional exponent; at most 800 digits before the exponent, and an
    exponent below 100000, the sizes up to which [strconv] reads every
    digit. *)
Record DecimalLit := {
  lit_sign : Sign;
  lit_int : string;
  lit_frac : option string;
  lit_exp : option (ascii * Sign * string)     (* e or E, sign, digits *)
}.

Definition frac_digits (l : DecimalLit) : string :=
  match lit_frac l with Some f => f | None => EmptyString end.

Definition render (l : DecimalLit) : string :=
  append (sign_text (lit_sign l))
    (append (lit_int l)
       (append (match lit_frac l with
                | Some f => String "." f
                | None => EmptyString
                end)
               (match lit_exp l with
                | Some (e, sg, ds) => String e (append (sign_text sg) ds)
                | None => EmptyString
                end))).

Definition well_formed (l : DecimalLit) : Prop :=
  digits (lit_int l)
  /\ match lit_frac l with Some f => digits f | None => True end
  /\ match lit_exp l with
     | Some (e, sg, ds) =>
         (e = "e"%char \/ e = "E"%char) /\ digits ds /\ value ds < 100000
     | None => True
     end
  /\ (String.length (lit_int l) + String.length (frac_digits l) <= 800)%nat.

(** The number denoted: [significand * 10 ^ exponent10]. *)
Definition significand (l : DecimalLit) : Z :=
  value (append (lit_int l) (frac_digits l)).

Definition exponent10 (l : DecimalLit) : Z :=
  match lit_exp l with
  | Some (_, sg, ds) => if is_minus sg then - value ds else value ds
  | None => 0
  end - Z.of_nat (String.length (frac_digits l)).

(** Letters in lower case, for the words that are read in any case. *)
Definition fold_case (c : ascii) : ascii :=
  if (65 <=? byte_val c) && (byte_val c <=? 90) then byte_of (byte_val c + 32) else c.

Fixpoint lowercase (s : string) : string :=
  match s with
  | EmptyString => EmptyString
  | String c s' => String (fold_case c) (lowercase s')
  end.

(** A float: a decimal literal whose nearest float64 is finite, or one
    of the words of the values that are no numbers: inf or infinity with
    an optional sign, and nan, in any case. *)
Inductive FloatText : string -> f64.float64 -> Prop :=
| FloatText_decimal l :
    well_formed l ->
    f64.is_inf (f64.of_decimal (is_minus (lit_sign l)) (significand l) (exponent10 l))
      = false ->
    FloatText (render l)
      (f64.of_decimal (is_minus (lit_sign l)) (significand l) (exponent10 l))
| FloatText_inf sg w :
    lowercase w = "inf"%string \/ lowercase w = "infinity"%string ->
    FloatText (append (sign_text sg) w) (S754_infinity (is_minus sg))
| FloatText_nan w :
    lowercase w = "nan"%string -> FloatText w S754_nan.

(** What follows a count: the next byte, if any, is not a digit. *)
Definition ends_number (s : string) : Prop :=
  match s with
  | EmptyString => True
  | String c _ => is_digit c = false
  end.

(** What follows a unit: the next byte, if any, starts a count. *)
Definition starts_count (s : string) : Prop :=
  match s with
  | EmptyString => True
  | String c _ => Ascii.eqb c "." || is_digit c = true
  end.

(** A byte of a decimal literal: a digit, the point, e or E, a sign. *)
Definition dec_char (c : ascii) : bool :=
  is_digit c || Ascii.eqb c "." || (strconv.lower c =? 101)
  || Ascii.eqb c "+" || Ascii.eqb c "-".

Fixpoint all_dec (s : string) : bool :=
  match s with
  | EmptyString => true
  | String c s' => dec_char c && all_dec s'
  end.

(** The shape of a duration text, whatever length it denotes: an optional
    sign, then the digit 0 alone or groups of a count and a unit. A count
    is digits, or digits around a decimal point with a digit on at least
    one side. *)
Definition CountSyntax (s : string) : Prop :=
  digits s
  \/ exists ds fs, s = append ds (String "." fs)
       /\ all_digits ds = true /\ all_digits fs = true
       /\ (ds <> EmptyString \/ fs <> EmptyString).

Definition UnitSyntax (u : string) : Prop := exists n, UnitText u n.

Inductive GroupsSyntax : string -> Prop :=
| GroupsSyntax_one c u :
    CountSyntax c -> UnitSyntax u -> GroupsSyntax (append c u)
| GroupsSyntax_cons c u rest :
    CountSyntax c -> UnitSyntax u -> GroupsSyntax rest ->
    GroupsSyntax (append c (append u rest)).

Definition DurationSyntax (s : string) : Prop :=
  exists sg body,
    s = append (sign_text sg) body /\ (body = "0"%string \/ GroupsSyntax body).

(** The shape of a float text, whatever number it denotes. A number is
    an optional sign, a mantissa and an exponent; the mantissa is digits
    with at most one point, the exponent the letter e and a signed run of
    digits. A hexadecimal number starts with 0x, has hexadecimal digits in
    the mantissa, and the letter p with a decimal exponent, which it must
    have. Underscores may separate digits. The infinities are spelled inf
    or infinity with an optional sign, not-a-number nan, in any case. *)
Fixpoint all_of (p : ascii -> bool) (s : string) : bool :=
  match s with
  | EmptyString => true
  | String c s' => p c && all_of p s'
  end.

Fixpoint some_of (p : ascii -> bool) (s : string) : bool :=
  match s with
  | EmptyString => false
  | String c s' => p c || some_of p s'
  end.

Fixpoint dots (s : string) : nat :=
  match s with
  | EmptyString => O
  | String c s' => (if Ascii.eqb c "." then 1 else 0) + dots s'
  end.

Definition hex_letter (c : ascii) : bool :=
  ((65 <=? byte_val c) && (byte_val c <=? 70))
  || ((97 <=? byte_val c) && (byte_val c <=? 102)).

Definition mant_digit (hex : bool) (c : ascii) : bool :=
  is_digit c || (hex && hex_letter c).

Definition mant_char (hex : bool) (c : ascii) : bool :=
  mant_digit hex c || Ascii.eqb c "_" || Ascii.eqb c ".".

Definition exp_char (c : ascii) : bool := is_digit c || Ascii.eqb c "_".

Definition not_underscore (c : ascii) : bool := negb (Ascii.eqb c "_").

Definition MantissaSyntax (hex : bool) (m : string) : Prop :=
  all_of (mant_char hex) m = true
  /\ some_of (mant_digit hex) m = true
  /\ (dots m <= 1)%nat.

Definition ExponentSyntax (hex : bool) (ex : string) : Prop :=
  exists e sg c r,
    ex = String e (append (sign_text sg) (String c r))
    /\ (if hex then e = "p"%char \/ e = "P"%char else e = "e"%char \/ e = "E"%char)
    /\ is_digit c = true /\ all_of exp_char r = true.

(** Every underscore stands between two digits; [prev] tells whether the
    byte before [s] counts as a digit. *)
Fixpoint separated (isd : ascii -> bool) (prev : bool) (s : string) : bool :=
  match s with
  | EmptyString => true
  | String c s' =>
      if Ascii.eqb c "_" then
        prev && match s' with String d _ => isd d | EmptyString => false end
        && separated isd false s'
      else separated isd (isd c) s'
  end.

Inductive FloatSyntax : string -> Prop :=
| FloatSyntax_inf sg w :
    lowercase w = "inf"%string \/ lowercase w = "infinity"%string ->
    FloatSyntax (append (sign_text sg) w)
| FloatSyntax_nan w :
    lowercase w = "nan"%string -> FloatSyntax w
| FloatSyntax_decimal sg m ex :
    MantissaSyntax false m ->
    ex = EmptyString \/ ExponentSyntax false ex ->
    separated (mant_digit false) false (append m ex) = true ->
    FloatSyntax (append (sign_text sg) (append m ex))
| FloatSyntax_hex sg x m ex :
    x = "x"%char \/ x = "X"%char ->
    MantissaSyntax true m ->
    ExponentSyntax true ex ->
    separated (mant_digit true) true (append m ex) = true ->
    FloatSyntax (append (sign_text sg) (String "0" (String x (append m ex)))).

End text.

(** * Example payloads and stores *)

Module example.

Import rcm.

Definition dq : ascii := ascii_of_nat 34.

(** A JSON string without escapes: the text between double quotes. *)
Definition quoted (s : string) : string :=
  String dq (append s (String dq EmptyString)).

Fixpoint members (l : list (string * string)) : string :=
  match l with
  | [] => EmptyString
  | [(k, v)] => append (quoted k) (append ":" v)
  | (k, v) :: l' => append (quoted k) (append ":" (append v (append "," (members l'))))
  end.

(** The JSON text of an object, from its members in order. *)
Definition object (l : list (string * string)) : string :=
  append "{" (append (members l) "}").

(** The payload of the package's tests. *)
Definition payload : string :=
  object [("int_key", "42"); ("float_key", "3.14");
          ("string_key", quoted "test_value"); ("bool_key", "true");
          ("duration_key", quoted "5s")].

(** A remote that holds [data] under [name] and nothing else. *)
Definition serving (name data : string) : Client :=
  fun key =>
    if String.eqb key name then (data, None)
    else (EmptyString, Some (RedisError "redis: nil")).

(** A remote that cannot be reached. *)
Definition outage : Client :=
  fun _ => (EmptyString, Some (RedisError "dial tcp: connection refused")).

(** A store that loaded a key, and a later payload without it. *)
Definition stale_store : RedisConfigManager :=
  fst (LoadConfig (serving "svc" (object [("stale", "1")])) 1
         (NewRedisConfigManager "svc")).

Definition fresh_payload : string := object [("fresh", "2")].

(** A fresh store after one load of the tests' payload. *)
Definition loaded : RedisConfigManager :=
  fst (LoadConfig (serving "svc" payload) 10 (NewRedisConfigManager "svc")).

(** A store in which a key holds the text 1 and another the text yes. *)
Definition flag_store : RedisConfigManager :=
  {| serviceName := "svc";
     config := <["flag" := "1"]> {["mode" := "yes"]};
     updatedAt := 0 |}.

(** A payload with a seven-zero integer. *)
Definition big_payload : string := object [("limit", "10000000")].

(** A run in which one refresh completes before [StopLoading] is called
    and the goroutine exits before the wait returns. *)
Definition stop_trace : list lifecycle.Event :=
  [lifecycle.EvStartLoading; lifecycle.EvTick 0;
   lifecycle.EvLoadConfig 0 (serving "svc" payload) 10;
   lifecycle.EvStopLoading; lifecycle.EvStopLoading; lifecycle.EvDone 0;
   lifecycle.EvStopLoading].

(** A run in which the ticker starts a refresh, and [StopLoading] is
    called and executes its first two statements before the refresh
    completes. *)
Definition race_trace : list lifecycle.Event :=
  [lifecycle.EvStartLoading; lifecycle.EvTick 0;
   lifecycle.EvStopLoading; lifecycle.EvStopLoading].

End example.

(** * A schedule that completes StopLoading *)

Module shutdown.

Import rcm lifecycle.

(** The steps that take goroutine [i] from where it is to its exit once
    the context is cancelled: a refresh in flight completes, its fetch
    failing, and the [select] then takes [<-rcm.ctx.Done()]. *)
Definition exit_of (i : nat) (t : Task) : list Event :=
  match t with
  | AtSelect => [EvDone i]
  | InLoadConfig => [EvLoadConfig i example.outage 0; EvDone i]
  | Exited => []
  end.

Fixpoint exits (i : nat) (ts : list Task) : list Event :=
  match ts with
  | [] => []
  | t :: ts' => exit_of i t ++ exits (S i) ts'
  end.

(** A schedule that completes [StopLoading] from the state [s]: the
    statements before the wait that have not run yet, the exit of every
    goroutine, the wait. *)
Definition drain (s : State) : list Event :=
  match stopped s with
  | 0%nat => [EvStopLoading; EvStopLoading] ++ exits 0 (tasks s) ++ [EvStopLoading]
  | 1%nat => [EvStopLoading] ++ exits 0 (tasks s) ++ [EvStopLoading]
  | 2%nat => exits 0 (tasks s) ++ [EvStopLoading]
  | _ => []
  end.

End shutdown.

(** * Package mcm: the in-memory configuration manager *)

Module mcm.

(** A Go value of type [any], as the type assertions of the getters tell
    values apart: its dynamic type is [int], [float64], [string], [bool]
    or [time.Duration], or another type, named by [type] (an [int64], a
    slice, the nil interface). *)
Inductive Value :=
| VInt (v : Z)
| VFloat64 (v : f64.float64)
| VString (v : string)
| VBool (v : bool)
| VDuration (v : time.Duration)
| VOther (type : string).

(** What a getter asserts its value to be, with the words of its message. *)
Inductive Kind := AnInt | AFloat | AString_ | ABool_ | ADuration.

Definition kind_text (k : Kind) : string :=
  match k with
  | AnInt => "an int"
  | AFloat => "a float"
  | AString_ => "a string"
  | ABool_ => "a bool"
  | ADuration => "a duration"
  end.

(** The errors of the getters, both made by [fmt.Errorf]. *)
Inductive error :=
| ErrNotFound (key : string)               (* "key %s not found" *)
| ErrNotA (key : string) (k : Kind).       (* "key %s is not an int", ... *)

(** The method [Error()]. *)
Definition Error (e : error) : string :=
  match e with
  | ErrNotFound key => append "key " (append key " not found")
  | ErrNotA key k => append "key " (append key (append " is not " (kind_text k)))
  end.

Record InMemoryConfigManager := { data : gmap string Value }.

Definition NewMockConfigManager (data : gmap string Value) : InMemoryConfigManager :=
  {| data := data |}.

(** [StartLoading], [StopLoading] and [LoadConfig] do nothing. *)
Definition StartLoading (interval : time.Duration) (mcm : InMemoryConfigManager)
    : InMemoryConfigManager := mcm.

Definition StopLoading (mcm : InMemoryConfigManager) : InMemoryConfigManager := mcm.

Definition LoadConfig (mcm : InMemoryConfigManager)
    : InMemoryConfigManager * option error := (mcm, None).

Definition GetInt (mcm : InMemoryConfigManager) (key : string) : Z * option error :=
  match data mcm !! key with
  | None => (0, Some (ErrNotFound key))
  | Some value =>
      match value with
      | VInt intValue => (intValue, None)
      | _ => (0, Some (ErrNotA key AnInt))
      end
  end.

Definition GetFloat (mcm : InMemoryConfigManager) (key : string)
    : f64.float64 * option error :=
  match data mcm !! key with
  | None => (S754_zero false, Some (ErrNotFound key))
  | Some value =>
      match value with
      | VFloat64 floatValue => (floatValue, None)
      | _ => (S754_zero false, Some (ErrNotA key AFloat))
      end
  end.

Definition GetString (mcm : InMemoryConfigManager) (key : string)
    : string * option error :=
  match data mcm !! key with
  | None => (EmptyString, Some (ErrNotFound key))
  | Some value =>
      match value with
      | VString stringValue => (stringValue, None)
      | _ => (EmptyString, Some (ErrNotA key AString_))
      end
  end.

Definition GetBool (mcm : InMemoryConfigManager) (key : string) : bool * option error :=
  match data mcm !! key with
  | None => (false, Some (ErrNotFound key))
  | Some value =>
      match value with
      | VBool boolValue => (boolValue, None)
      | _ => (false, Some (ErrNotA key ABool_))
      end
  end.

Definition GetDuration (mcm : InMemoryConfigManager) (key : string)
    : time.Duration * option error :=
  match data mcm !! key with
  | None => (0, Some (ErrNotFound key))
  | Some value =>
      match value with
      | VDuration durationValue => (durationValue, None)
      | _ => (0, Some (ErrNotA key ADuration))
      end
  end.

Definition GetIntWithDefault (mcm : InMemoryConfigManager) (key : string)
    (defaultValue : Z) : Z :=
  let '(value, err) := GetInt mcm key in
  match err with
  | Some _ => defaultValue
  | None => value
  end.

Definition GetFloatWithDefault (mcm : InMemoryConfigManager) (key : string)
    (defaultValue : f64.float64) : f64.float64 :=
  let '(value, err) := GetFloat mcm key in
  match err with
  | Some _ => defaultValue
  | None => value
  end.

Definition GetStringWithDefault (mcm : InMemoryConfigManager) (key : string)
    (defaultValue : string) : string :=
  let '(value, err) := GetString mcm key in
  match err with
  | Some _ => defaultValue
  | None => value
  end.

Definition GetBoolWithDefault (mcm : InMemoryConfigManager) (key : string)
    (defaultValue : bool) : bool :=
  let '(value, err) := GetBool mcm key in
  match err with
  | Some _ => defaultValue
  | None => value
  end.

Definition GetDurationWithDefault (mcm : InMemoryConfigManager) (key : string)
    (defaultValue : time.Duration) : time.Duration :=
  let '(value, err) := GetDuration mcm key in
  match err with
  | Some _ => defaultValue
  | None => value
  end.

(** The kind whose getter reads a value, if any. *)
Definition kind_of (v : Value) : option Kind :=
  match v with
  | VInt _ => Some AnInt
  | VFloat64 _ => Some AFloat
  | VString _ => Some AString_
  | VBool _ => Some ABool_
  | VDuration _ => Some ADuration
  | VOther _ => None
  end.

Definition is_nil (err : option error) : bool :=
  match err with None => true | Some _ => false end.

(** How many of the five getters return no error for a key. *)
Definition readable (mcm : InMemoryConfigManager) (key : string) : nat :=
  (Nat.b2n (is_nil (snd (GetInt mcm key)))
   + Nat.b2n (is_nil (snd (GetFloat mcm key)))
   + Nat.b2n (is_nil (snd (GetString mcm key)))
   + Nat.b2n (is_nil (snd (GetBool mcm key)))
   + Nat.b2n (is_nil (snd (GetDuration mcm key))))%nat.

End mcm.

(** * Decimal numerals *)

Module numeral.

(** The number a list of decimal digits denotes, most significant first,
    continuing from [acc]. *)
Fixpoint horner (l : list Z) (acc : Z) : Z :=
  match l with
  | [] => acc
  | x :: l' => horner l' (acc * 10 + x)
  end.

Definition of_digit (x : Z) (u : Decimal.uint) : Decimal.uint :=
  match x with
  | 1 => Decimal.D1 u | 2 => Decimal.D2 u | 3 => Decimal.D3 u
  | 4 => Decimal.D4 u | 5 => Decimal.D5 u | 6 => Decimal.D6 u
  | 7 => Decimal.D7 u | 8 => Decimal.D8 u | 9 => Decimal.D9 u
  | _ => Decimal.D0 u
  end.

Definition of_digits (l : list Z) : Decimal.uint := fold_right of_digit Decimal.Nil l.

Definition is_dec (x : Z) : Prop := 0 <= x <= 9.

(** The decimal text of an integer, without a plus sign or leading
    zeros. *)
Definition of_pos (p : positive) : string := ftoa.digit_string (ftoa.digits_of p).

Definition of_Z (n : Z) : string :=
  match n with
  | Z0 => "0"
  | Zpos p => of_pos p
  | Zneg p => String "-" (of_pos p)
  end.

End numeral.

(** * Payloads of plain settings

    The JSON texts of flat objects whose members are strings without
    escapes, booleans, nulls and integers, as [json.Marshal] writes them
    in the package's tests. *)

Module payloads.

(** A byte that a JSON string holds as it is: printable ASCII other than
    the quote and the backslash. *)
Definition plain_byte (c : ascii) : bool :=
  let b := byte_val c in
  (32 <=? b) && (b <? 128) && negb (b =? 34) && negb (b =? 92).

Fixpoint plain (s : string) : bool :=
  match s with
  | EmptyString => true
  | String c s' => plain_byte c && plain s'
  end.

Inductive Setting :=
| SString (s : string)
| SBool (b : bool)
| SNull
| SInt (n : Z).

(** The JSON text of a value. *)
Definition value_text (v : Setting) : string :=
  match v with
  | SString s => example.quoted s
  | SBool b => if b then "true" else "false"
  | SNull => "null"
  | SInt n => numeral.of_Z n
  end.

(** Its token, and the Go value [json.Unmarshal] makes of it. *)
Definition value_token (v : Setting) : json.token :=
  match v with
  | SString s => json.TString s
  | SBool b => if b then json.TTrue else json.TFalse
  | SNull => json.TNull
  | SInt n => json.TNumber (numeral.of_Z n)
  end.

Definition decoded (v : Setting) : any :=
  match v with
  | SString s => AString s
  | SBool b => ABool b
  | SNull => ANil
  | SInt n => AFloat64 (f64.of_Z n)
  end.

Definition valid (kv : string * Setting) : Prop :=
  plain (fst kv) = true
  /\ match snd kv with
     | SString s => plain s = true
     | SInt n => Z.abs n < 2 ^ 53
     | _ => True
     end.

(** The JSON text of an object, from its members in order. *)
Definition text (l : list (string * Setting)) : string :=
  example.object (map (fun kv => (fst kv, value_text (snd kv))) l).

Fixpoint member_tokens (l : list (string * Setting)) : list json.token :=
  match l with
  | [] => []
  | [(k, v)] => [json.TString k; json.TColon; value_token v]
  | (k, v) :: l' =>
      json.TString k :: json.TColon :: value_token v :: json.TComma :: member_tokens l'
  end.

(** The map of an object: a later member replaces an earlier one of the
    same name. *)
Definition store_members (l : list (string * Setting)) (m : gmap string any)
    : gmap string any :=
  fold_left (fun m kv => <[fst kv := decoded (snd kv)]> m) l m.

(** The byte after a value: a comma or the closing brace. *)
Definition delimiter (c : ascii) (t : json.token) : Prop :=
  (c = ","%char /\ t = json.TComma) \/ (c = "}"%char /\ t = json.TRBrace).

End payloads.

(** * White space around a payload *)

Module blanks.

(** A text of JSON white space: spaces, tabs, carriage returns and line
    feeds. *)
Fixpoint blank (s : string) : bool :=
  match s with
  | EmptyString => true
  | String c s' => json.is_space c && blank s'
  end.

Fixpoint no_space (s : string) : bool :=
  match s with
  | EmptyString => true
  | String c s' => negb (json.is_space c) && no_space s'
  end.

(** The states the scanner can be in: inside a literal, what is left of
    it has no white space. *)
Definition settled (st : json.LexState) : bool :=
  match st with
  | json.LLit rest _ => no_space rest
  | _ => true
  end.

End blanks.

(** * The library models on inputs with known results *)

Example Atoi_42 : strconv.Atoi "42" = (42, None).
Proof. reflexivity. Qed.

Example Atoi_out_of_range :
  strconv.Atoi "9223372036854775808"
  = (9223372036854775807, Some (NumError "Atoi" "9223372036854775808" ErrRange)).
Proof. vm_compute. reflexivity. Qed.

Example ParseDuration_5s : time.ParseDuration "5s" = (5 * time.Second, None).
Proof. vm_compute. reflexivity. Qed.

Example ParseDuration_groups :
  time.ParseDuration "-1h15m0.25s" = (- (4500250 * time.Millisecond), None).
Proof. vm_compute. reflexivity. Qed.

Example ParseDuration_fraction :
  time.ParseDuration "0.830103483285477580700h" = (2988372539827, None).
Proof. vm_compute. reflexivity. Qed.

Example ParseDuration_no_unit :
  snd (time.ParseDuration "5") = Some (DurationError MissingUnit "5").
Proof. vm_compute. reflexivity. Qed.

Example ParseFloat_314 :
  atof.ParseFloat "3.14" = (S754_finite false 7070651414971679 (-51), None).
Proof. vm_compute. reflexivity. Qed.

Example ParseFloat_underscores :
  atof.ParseFloat "1_0.0e-1" = (S754_finite false 4503599627370496 (-52), None).
Proof. vm_compute. reflexivity. Qed.

Example ParseFloat_hex :
  atof.ParseFloat "0x1p-2" = (S754_finite false 4503599627370496 (-54), None).
Proof. vm_compute. reflexivity. Qed.

Example ParseFloat_overflow :
  atof.ParseFloat "1e400"
  = (S754_infinity false, Some (NumError "ParseFloat" "1e400" ErrRange)).
Proof. vm_compute. reflexivity. Qed.

Example ParseFloat_ties_to_even :
  atof.ParseFloat "9007199254740993" = (S754_finite false 4503599627370496 1, None).
Proof. vm_compute. reflexivity. Qed.

Example ParseFloat_smallest :
  atof.ParseFloat "5e-324" = (S754_finite false 1 (-1074), None).
Proof. vm_compute. reflexivity. Qed.

Example ParseFloat_underflow : atof.ParseFloat "2e-324" = (S754_zero false, None).
Proof. vm_compute. reflexivity. Qed.

Example ParseFloat_largest :
  atof.ParseFloat "1.7976931348623157e308"
  = (S754_finite false 9007199254740991 971, None).
Proof. vm_compute. reflexivity. Qed.

Example ParseFloat_inf : atof.ParseFloat "-iNf" = (S754_infinity true, None).
Proof. vm_compute. reflexivity. Qed.

Example ParseFloat_trailing :
  snd (atof.ParseFloat "1.5x") = Some (NumError "ParseFloat" "1.5x" ErrSyntax).
Proof. vm_compute. reflexivity. Qed.

Example FormatFloat_g_exponent_from_1e6 :
  map (fun n => ftoa.FormatFloat_g (f64.of_Z n)) [42; 100000; 1000000; 1234567; -10000000]
  = ["42"; "100000"; "1e+06"; "1.234567e+06"; "-1e+07"]%string.
Proof. vm_compute. reflexivity. Qed.

Example FormatFloat_g_shortest :
  map (fun t => ftoa.FormatFloat_g (fst (atof.ParseFloat t)))
    ["0.1"; "0.30000000000000004"; "1e23"; "5e-324"; "0.00001";
     "383260575764816448"; "1.7976931348623157e308"]%string
  = ["0.1"; "0.30000000000000004"; "1e+23"; "5e-324"; "1e-05";
     "3.8326057576481645e+17"; "1.7976931348623157e+308"]%string.
Proof. vm_compute. reflexivity. Qed.

Example Unmarshal_payload :
  snd (json.Unmarshal example.payload) = None
  /\ (fmt.Sprintf_v <$> fst (json.Unmarshal example.payload)) !! "float_key"
     = Some "3.14"%string
  /\ (fmt.Sprintf_v <$> fst (json.Unmarshal example.payload)) !! "bool_key"
     = Some "true"%string.
Proof. repeat split; vm_compute; reflexivity. Qed.

Example Unmarshal_nested :
  (fmt.Sprintf_v
     <$> fst (json.Unmarshal
                (example.object
                   [("k", "[1, 2.5, null, {}]");
                    ("m", example.object [("b", "true"); ("a", example.quoted "x")])])))
  = <["k" := "[1 2.5 <nil> map[]]"%string]> {["m" := "map[a:x b:true]"%string]}.
Proof. vm_compute. reflexivity. Qed.

Example Unmarshal_rejects :
  map (fun t => snd (json.Unmarshal t)) ["invalid json"; "[1]"; "{} x"; ""]%string
  = [Some (JSONError JSONSyntaxError);
     Some (JSONError (JSONUnmarshalTypeError "array"));
     Some (JSONError JSONSyntaxError);
     Some (JSONError JSONSyntaxError)].
Proof. vm_compute. reflexivity. Qed.

(** * Properties of LoadConfig *)

Section LoadConfigFacts.

Import rcm.

(** The loop of [LoadConfig] overrides the previous snapshot entry by
    entry: the result is the stringified payload, completed by the
    entries the snapshot already had. *)
Lemma store_loop (m : gmap string any) (cfg : gmap string string) :
  map_fold (fun key value c => <[key := fmt.Sprintf_v value]> c) cfg m
  = (fmt.Sprintf_v <$> m) ∪ cfg.
Proof.
  apply (map_fold_weak_ind
           (fun r m => r = (fmt.Sprintf_v <$> m) ∪ cfg)).
  - by rewrite fmap_empty, (left_id_L ∅ (∪)).
  - intros i x m' r _ ->. by rewrite fmap_insert, insert_union_l.
Qed.

Lemma LoadConfig_success r now rcm raw m :
  r (serviceName rcm) = (raw, None) ->
  json.Unmarshal raw = (m, None) ->
  LoadConfig r now rcm
  = ({| serviceName := serviceName rcm;
        config := (fmt.Sprintf_v <$> m) ∪ config rcm;
        updatedAt := now |}, None).
Proof.
  intros Hr Hm. unfold LoadConfig. rewrite Hr, Hm. by rewrite store_loop.
Qed.

(** A call that returns no error fetched a payload that decoded. *)
Lemma LoadConfig_success_inv r now rcm rcm' :
  LoadConfig r now rcm = (rcm', None) ->
  exists raw m,
    r (serviceName rcm) = (raw, None) /\ json.Unmarshal raw = (m, None).
Proof.
  unfold LoadConfig. destruct (r (serviceName rcm)) as [raw [e|]]; [discriminate|].
  destruct (json.Unmarshal raw) as [m [e|]] eqn:Hm; [discriminate|].
  intros _. by exists raw, m.
Qed.

End LoadConfigFacts.

(** * The claims about LoadConfig *)

Section LoadConfigClaims.

Import rcm.

(** C1, as the code has it. A successful [LoadConfig] maps every key of
    the payload to the text of its value and keeps, for every key that
    the payload does not have, the entry the snapshot had before: the
    snapshot is overridden entry by entry, not replaced. *)
Theorem LoadConfig_overrides_snapshot r now rcm rcm' :
  LoadConfig r now rcm = (rcm', None) ->
  exists raw m,
    r (serviceName rcm) = (raw, None)
    /\ json.Unmarshal raw = (m, None)
    /\ config rcm' = (fmt.Sprintf_v <$> m) ∪ config rcm
    /\ (forall key v, m !! key = Some v ->
          config rcm' !! key = Some (fmt.Sprintf_v v))
    /\ (forall key, m !! key = None -> config rcm' !! key = config rcm !! key)
    /\ updatedAt rcm' = now.
Proof.
  intros H. destruct (LoadConfig_success_inv _ _ _ _ H) as (raw & m & Hr & Hm).
  exists raw, m. rewrite (LoadConfig_success _ now _ _ _ Hr Hm) in H.
  injection H as <-. cbn [config updatedAt]. repeat split; try done.
  - intros key v Hk. apply lookup_union_Some_l. by rewrite lookup_fmap, Hk.
  - intros key Hk. apply lookup_union_r. by rewrite lookup_fmap, Hk.
Qed.

Lemma LoadConfig_overrides_snapshot_witness :
  exists raw m,
    example.serving "svc" example.fresh_payload (serviceName example.stale_store)
    = (raw, None)
    /\ json.Unmarshal raw = (m, None)
    /\ config (fst (LoadConfig (example.serving "svc" example.fresh_payload) 2
                      example.stale_store))
       = (fmt.Sprintf_v <$> m) ∪ config example.stale_store
    /\ (forall key v, m !! key = Some v ->
          config (fst (LoadConfig (example.serving "svc" example.fresh_payload) 2
                         example.stale_store)) !! key
          = Some (fmt.Sprintf_v v))
    /\ (forall key, m !! key = None ->
          config (fst (LoadConfig (example.serving "svc" example.fresh_payload) 2
                         example.stale_store)) !! key
          = config example.stale_store !! key)
    /\ updatedAt (fst (LoadConfig (example.serving "svc" example.fresh_payload) 2
                         example.stale_store)) = 2.
Proof.
  apply (LoadConfig_overrides_snapshot
           (example.serving "svc" example.fresh_payload) 2 example.stale_store).
  vm_compute. reflexivity.
Defined.

(** C1, as stated, fails: the key stale is not in the new payload, the
    call succeeds, and the snapshot still has the key; the snapshot is
    not the mapping decoded from the payload. *)
Lemma LoadConfig_keeps_stale_key :
  snd (LoadConfig (example.serving "svc" example.fresh_payload) 2 example.stale_store)
  = None
  /\ fst (json.Unmarshal example.fresh_payload) !! "stale" = None
  /\ config (fst (LoadConfig (example.serving "svc" example.fresh_payload) 2
                    example.stale_store)) !! "stale" = Some "1"
  /\ config (fst (LoadConfig (example.serving "svc" example.fresh_payload) 2
                    example.stale_store))
     <> fmt.Sprintf_v <$> fst (json.Unmarshal example.fresh_payload).
Proof.
  repeat split; try (vm_compute; reflexivity).
  intros Heq.
  assert (Hl : config (fst (LoadConfig (example.serving "svc" example.fresh_payload) 2
                              example.stale_store)) !! "stale"
               = (fmt.Sprintf_v <$> fst (json.Unmarshal example.fresh_payload)) !! "stale")
    by (rewrite Heq; reflexivity).
  vm_compute in Hl. discriminate Hl.
Qed.

(** C3. A failed [LoadConfig] returns the manager as it was, snapshot
    and timestamp included; the failure is the fetch error, wrapped
    (RetrievalError), or the decoding error, wrapped (DecodeError). *)
Theorem LoadConfig_failure_retains_state r now rcm rcm' e :
  LoadConfig r now rcm = (rcm', Some e) ->
  rcm' = rcm
  /\ config rcm' = config rcm
  /\ updatedAt rcm' = updatedAt rcm
  /\ ((exists raw e0, r (serviceName rcm) = (raw, Some e0) /\ e = ErrGetConfig e0
                      /\ is_RetrievalError (Some e) = true)
      \/ (exists raw m e1, r (serviceName rcm) = (raw, None)
                           /\ json.Unmarshal raw = (m, Some e1)
                           /\ e = ErrUnmarshalConfig e1
                           /\ is_DecodeError (Some e) = true)).
Proof.
  unfold LoadConfig.
  destruct (r (serviceName rcm)) as [raw [e0|]].
  - intros [= <- <-]. repeat split; try done. left. by exists raw, e0.
  - destruct (json.Unmarshal raw) as [m [e1|]] eqn:Hm; [|discriminate].
    intros [= <- <-]. repeat split; try done. right. by exists raw, m, e1.
Qed.

(** Both kinds of failure do occur: a fetch error and an undecodable
    payload each make [LoadConfig] fail. *)
Lemma LoadConfig_fails r now rcm :
  (forall raw e0, r (serviceName rcm) = (raw, Some e0) ->
     LoadConfig r now rcm = (rcm, Some (ErrGetConfig e0)))
  /\ (forall raw m e1, r (serviceName rcm) = (raw, None) ->
       json.Unmarshal raw = (m, Some e1) ->
       LoadConfig r now rcm = (rcm, Some (ErrUnmarshalConfig e1))).
Proof.
  unfold LoadConfig. split.
  - by intros raw e0 ->.
  - by intros raw m e1 -> ->.
Qed.

Lemma LoadConfig_failure_retains_state_witness :
  example.stale_store = example.stale_store
  /\ config example.stale_store = config example.stale_store
  /\ updatedAt example.stale_store = updatedAt example.stale_store
  /\ ((exists raw e0,
         example.serving "svc" "invalid json" (serviceName example.stale_store)
         = (raw, Some e0)
         /\ ErrUnmarshalConfig (JSONError JSONSyntaxError) = ErrGetConfig e0
         /\ is_RetrievalError (Some (ErrUnmarshalConfig (JSONError JSONSyntaxError)))
            = true)
      \/ (exists raw m e1,
           example.serving "svc" "invalid json" (serviceName example.stale_store)
           = (raw, None)
           /\ json.Unmarshal raw = (m, Some e1)
           /\ ErrUnmarshalConfig (JSONError JSONSyntaxError) = ErrUnmarshalConfig e1
           /\ is_DecodeError (Some (ErrUnmarshalConfig (JSONError JSONSyntaxError)))
              = true)).
Proof.
  apply (LoadConfig_failure_retains_state
           (example.serving "svc" "invalid json") 5 example.stale_store).
  vm_compute. reflexivity.
Defined.

(** C7. With the remote unchanged, a second [LoadConfig] leaves the
    snapshot as the first one made it and sets the timestamp anew. *)
Theorem LoadConfig_idempotent r now1 now2 rcm rcm1 :
  LoadConfig r now1 rcm = (rcm1, None) ->
  LoadConfig r now2 rcm1
  = ({| serviceName := serviceName rcm1; config := config rcm1; updatedAt := now2 |},
     None).
Proof.
  intros H. destruct (LoadConfig_success_inv _ _ _ _ H) as (raw & m & Hr & Hm).
  rewrite (LoadConfig_success _ now1 _ _ _ Hr Hm) in H. injection H as <-.
  cbn [serviceName config].
  rewrite (LoadConfig_success r now2 _ raw m); [|done|done].
  cbn [serviceName config]. f_equal. f_equal.
  by rewrite (assoc_L (∪)), (idemp_L (∪)).
Qed.

Lemma LoadConfig_idempotent_witness :
  LoadConfig (example.serving "svc" example.payload) 20
    (fst (LoadConfig (example.serving "svc" example.payload) 10
            (NewRedisConfigManager "svc")))
  = ({| serviceName :=
          serviceName (fst (LoadConfig (example.serving "svc" example.payload) 10
                              (NewRedisConfigManager "svc")));
        config :=
          config (fst (LoadConfig (example.serving "svc" example.payload) 10
                         (NewRedisConfigManager "svc")));
        updatedAt := 20 |}, None).
Proof.
  apply (LoadConfig_idempotent (example.serving "svc" example.payload) 10 20
           (NewRedisConfigManager "svc")).
  vm_compute. reflexivity.
Defined.

End LoadConfigClaims.

(** * The parsers read the text formats

    [strconv.Atoi], [strconv.ParseBool], [time.ParseDuration] and
    [strconv.ParseFloat] against the formats of [Module text]. *)

Section DigitFacts.

Lemma byte_val_range c : 0 <= byte_val c < 256.
Proof.
  unfold byte_val. pose proof (N_ascii_bounded c) as H. lia.
Qed.

Lemma digit_val_range c : is_digit c = true -> 0 <= digit_val c <= 9.
Proof.
  unfold is_digit, digit_val. intros H. apply andb_true_iff in H as [H1 H2]. lia.
Qed.

Lemma is_digit_not_sign c :
  is_digit c = true -> Ascii.eqb c "+" = false /\ Ascii.eqb c "-" = false /\ Ascii.eqb c "." = false.
Proof.
  intros H. repeat split; apply Ascii.eqb_neq; intros ->; vm_compute in H; discriminate.
Qed.

Lemma value_nonneg s : text.all_digits s = true -> 0 <= text.value s.
Proof.
  induction s as [|c s IH]; cbn [text.all_digits text.value]; [lia|].
  intros H. apply andb_true_iff in H as [Hc Hs].
  pose proof (digit_val_range c Hc). specialize (IH Hs).
  assert (0 <= 10 ^ Z.of_nat (String.length s)) by (apply Z.pow_nonneg; lia). nia.
Qed.

Lemma value_bound s :
  text.all_digits s = true -> text.value s < 10 ^ Z.of_nat (String.length s).
Proof.
  induction s as [|c s IH]; cbn [text.all_digits text.value String.length]; [lia|].
  intros H. apply andb_true_iff in H as [Hc Hs].
  pose proof (digit_val_range c Hc). specialize (IH Hs).
  rewrite Nat2Z.inj_succ, Z.pow_succ_r by lia. nia.
Qed.

Lemma len_cons c s : len (String c s) = len s + 1.
Proof. unfold len. cbn [String.length]. lia. Qed.

Lemma len_nonneg s : 0 <= len s.
Proof. unfold len. lia. Qed.

End DigitFacts.

Section AtoiFacts.

Import strconv.

Lemma Atoi_fast_loop_digits s0 s n :
  text.all_digits s = true ->
  Atoi_fast_loop s0 s n = Some (n * 10 ^ len s + text.value s).
Proof.
  revert n. induction s as [|c s IH]; intros n; cbn [text.all_digits Atoi_fast_loop text.value].
  - intros _. f_equal. unfold len. cbn. lia.
  - intros H. apply andb_true_iff in H as [Hc Hs]. rewrite Hc, (IH _ Hs).
    f_equal. rewrite len_cons, Z.pow_add_r by (pose proof (len_nonneg s); lia).
    fold (len s). lia.
Qed.

Lemma Atoi_fast_loop_Some s0 s n v :
  Atoi_fast_loop s0 s n = Some v -> text.all_digits s = true.
Proof.
  revert n. induction s as [|c s IH]; intros n; cbn [text.all_digits Atoi_fast_loop]; [done|].
  destruct (is_digit c); [|discriminate]. intros H. by rewrite (IH _ H).
Qed.

(** On digits, [ParseUint] returns the number they denote, or the range
    error when it does not fit 64 bits. *)
Lemma ParseUint_loop_digits s0 s n :
  text.all_digits s = true -> 0 <= n <= maxUint64 ->
  ParseUint_loop s0 s n
  = if n * 10 ^ len s + text.value s <=? maxUint64
    then (n * 10 ^ len s + text.value s, None)
    else (maxUint64, Some (rangeError "ParseUint" s0)).
Proof.
  revert n. induction s as [|c s IH]; intros n; cbn [text.all_digits ParseUint_loop text.value].
  - intros _ Hn. change (len "") with 0. rewrite Z.pow_0_r, Z.mul_1_r, Z.add_0_r.
    destruct (Z.leb_spec n maxUint64); [done|lia].
  - intros H Hn. apply andb_true_iff in H as [Hc Hs]. rewrite Hc.
    pose proof (digit_val_range c Hc) as Hd.
    pose proof (value_nonneg s Hs) as Hv.
    pose proof (len_nonneg s) as Hl.
    assert (Hp : 1 <= 10 ^ len s) by (pose proof (Z.pow_pos_nonneg 10 (len s)); lia).
    rewrite len_cons, Z.pow_add_r, Z.pow_1_r by lia. fold (len s).
    unfold maxUint64 in *. change (2 ^ 64) with 18446744073709551616 in *.
    change ((18446744073709551616 - 1) / 10 + 1) with 1844674407370955162.
    destruct (Z.geb_spec n 1844674407370955162) as [Hge|Hlt].
    { destruct (Z.leb_spec (n * (10 ^ len s * 10) + (digit_val c * 10 ^ len s + text.value s))
                  (18446744073709551616 - 1)); [nia|done]. }
    cbv zeta.
    destruct (Z.leb_spec 18446744073709551616 (n * 10 + digit_val c)) as [Ho|Ho]; cbn [orb].
    { destruct (Z.leb_spec (n * (10 ^ len s * 10) + (digit_val c * 10 ^ len s + text.value s))
                  (18446744073709551616 - 1)); [nia|done]. }
    destruct (Z.gtb_spec (n * 10 + digit_val c) (18446744073709551616 - 1)); [lia|].
    rewrite IH by (done || lia).
    replace ((n * 10 + digit_val c) * 10 ^ len s + text.value s)
      with (n * (10 ^ len s * 10) + (digit_val c * 10 ^ len s + text.value s)) by ring.
    done.
Qed.

Lemma ParseUint_loop_ok s0 s n v :
  ParseUint_loop s0 s n = (v, None) -> text.all_digits s = true.
Proof.
  revert n. induction s as [|c s IH]; intros n; cbn [text.all_digits ParseUint_loop]; [done|].
  destruct (is_digit c); cbn [andb].
  - destruct (n >=? maxUint64 / 10 + 1); [discriminate|]. cbv zeta.
    destruct ((2 ^ 64 <=? n * 10 + digit_val c) || (n * 10 + digit_val c >? maxUint64));
      [discriminate|]. apply IH.
  - destruct ((97 <=? lower c) && (lower c <=? 122)); discriminate.
Qed.

Lemma ParseUint_loop_err s0 s n un e :
  ParseUint_loop s0 s n = (un, Some e) ->
  (un = 0 /\ e = syntaxError "ParseUint" s0)
  \/ (un = maxUint64 /\ e = rangeError "ParseUint" s0).
Proof.
  revert n. induction s as [|c s IH]; intros n; cbn [ParseUint_loop]; [discriminate|].
  destruct (is_digit c).
  - destruct (n >=? maxUint64 / 10 + 1); [intros [= <- <-]; by right|]. cbv zeta.
    destruct ((2 ^ 64 <=? n * 10 + digit_val c) || (n * 10 + digit_val c >? maxUint64));
      [intros [= <- <-]; by right|]. apply IH.
  - destruct ((97 <=? lower c) && (lower c <=? 122)); intros [= <- <-]; by left.
Qed.

Lemma digits_cons s :
  text.digits s -> exists c r, s = String c r /\ is_digit c = true /\ text.all_digits r = true.
Proof.
  intros [Hne Hd]. destruct s as [|c r]; [done|]. cbn in Hd.
  apply andb_true_iff in Hd as [? ?]. by exists c, r.
Qed.

Lemma ParseUint10_digits ds :
  text.digits ds -> text.value ds <= maxUint64 ->
  ParseUint10 ds = (text.value ds, None).
Proof.
  intros Hd Hv. destruct (digits_cons _ Hd) as (c & r & -> & Hc & Hr).
  unfold ParseUint10. rewrite ParseUint_loop_digits; [| apply Hd | unfold maxUint64; lia].
  rewrite Z.mul_0_l, Z.add_0_l. destruct (Z.leb_spec (text.value (String c r)) maxUint64); [done|lia].
Qed.

Lemma ParseInt10_digits (neg : bool) (sign : string) ds :
  (sign = "" /\ neg = false) \/ (sign = "+" /\ neg = false) \/ (sign = "-" /\ neg = true) ->
  text.digits ds ->
  (if neg then text.value ds <= 2 ^ 63 else text.value ds < 2 ^ 63) ->
  ParseInt10 (append sign ds) = (if neg then - text.value ds else text.value ds, None).
Proof.
  intros Hsign Hd Hv.
  assert (Hmax : text.value ds <= maxUint64) by (unfold maxUint64; destruct neg; lia).
  pose proof (ParseUint10_digits ds Hd Hmax) as HU.
  destruct (digits_cons _ Hd) as (c & r & Hds & Hc & Hr).
  destruct (is_digit_not_sign c Hc) as (Hp & Hm & _).
  unfold ParseInt10.
  destruct Hsign as [[-> ->]|[[-> ->]|[-> ->]]];
    [change (append "" ds) with ds | change (append "+" ds) with (String "+" ds)
    | change (append "-" ds) with (String "-" ds)].
  - subst ds. rewrite Hp, Hm. cbn [orb]. rewrite HU. cbn [negb andb].
    destruct (Z.geb_spec (text.value (String c r)) (2 ^ 63)); [lia|done].
  - cbn [Ascii.eqb Bool.eqb orb]. rewrite HU. cbn [negb andb].
    destruct (Z.geb_spec (text.value ds) (2 ^ 63)); [lia|done].
  - cbn [Ascii.eqb Bool.eqb orb]. rewrite HU. cbn [negb andb].
    destruct (Z.gtb_spec (text.value ds) (2 ^ 63)); [lia|done].
Qed.

Lemma len_digits_bound s :
  text.all_digits s = true -> len s < 19 -> text.value s < 2 ^ 63.
Proof.
  intros Hd Hl. pose proof (value_bound s Hd) as Hb. fold (len s) in Hb.
  assert (10 ^ len s <= 10 ^ 18) by (apply Z.pow_le_mono_r; lia).
  change (10 ^ 18) with 1000000000000000000 in *.
  change (2 ^ 63) with 9223372036854775808. lia.
Qed.

(** [Atoi] reads every int text as the number it denotes. *)
Lemma Atoi_IntText s v : text.IntText s v -> Atoi s = (v, None).
Proof.
  intros H. unfold Atoi.
  assert (Hslow : ParseInt10 s = (v, None)).
  { destruct H as [ds Hd Hv|ds Hd Hv|ds Hd Hv].
    - apply (ParseInt10_digits false "" ds); auto.
    - apply (ParseInt10_digits false "+" ds); auto.
    - apply (ParseInt10_digits true "-" ds); auto. }
  destruct ((0 <? len s) && (len s <? 19)) eqn:Hfast; [|by rewrite Hslow].
  destruct H as [ds Hd Hv|ds Hd Hv|ds Hd Hv].
  - destruct (digits_cons _ Hd) as (c & r & -> & Hc & Hr).
    destruct (is_digit_not_sign c Hc) as (Hp & Hm & _). rewrite Hp, Hm. cbn [orb andb].
    rewrite (Atoi_fast_loop_digits _ _ 0 (proj2 Hd)). by rewrite Z.mul_0_l, Z.add_0_l.
  - destruct (digits_cons _ Hd) as (c & r & -> & Hc & Hr).
    cbn [Ascii.eqb Bool.eqb orb andb]. rewrite len_cons.
    destruct (Z.ltb_spec (len r + 1) 1); [pose proof (len_nonneg r); lia|].
    rewrite (Atoi_fast_loop_digits _ _ 0 (proj2 Hd)). by rewrite Z.mul_0_l, Z.add_0_l.
  - destruct (digits_cons _ Hd) as (c & r & -> & Hc & Hr).
    cbn [Ascii.eqb Bool.eqb orb andb]. rewrite len_cons.
    destruct (Z.ltb_spec (len r + 1) 1); [pose proof (len_nonneg r); lia|].
    rewrite (Atoi_fast_loop_digits _ _ 0 (proj2 Hd)). by rewrite Z.mul_0_l, Z.add_0_l.
Qed.

Lemma ParseUint10_ok s un :
  ParseUint10 s = (un, None) -> text.digits s /\ un = text.value s /\ un <= maxUint64.
Proof.
  unfold ParseUint10. destruct s as [|c r]; [discriminate|]. intros H.
  pose proof (ParseUint_loop_ok _ _ _ _ H) as Hd.
  rewrite ParseUint_loop_digits in H; [|done|unfold maxUint64; lia].
  rewrite Z.mul_0_l, Z.add_0_l in H.
  destruct (Z.leb_spec (text.value (String c r)) maxUint64); [|discriminate].
  injection H as <-. by repeat split.
Qed.

Lemma ParseInt10_ok s v :
  ParseInt10 s = (v, None) -> text.IntText s v.
Proof.
  unfold ParseInt10. destruct s as [|c rest]; [discriminate|].
  destruct (ParseUint10 (if (c =? "+")%char || (c =? "-")%char then rest else String c rest))
    as [un [e|]] eqn:HU.
  - unfold ParseUint10 in HU.
    assert (He : (un = 0 /\ e = syntaxError "ParseUint"
                     (if (c =? "+")%char || (c =? "-")%char then rest else String c rest))
                 \/ (un = maxUint64 /\ e = rangeError "ParseUint"
                     (if (c =? "+")%char || (c =? "-")%char then rest else String c rest))).
    { destruct (if (c =? "+")%char || (c =? "-")%char then rest else String c rest) eqn:Hs.
      - injection HU as <- <-. by left.
      - by apply ParseUint_loop_err in HU. }
    destruct He as [[-> ->]|[-> ->]]; unfold syntaxError, rangeError; cbv beta iota;
      [discriminate|].
    unfold maxUint64. destruct (c =? "-")%char; cbn [negb andb].
    + intros H. vm_compute in H. discriminate H.
    + intros H. vm_compute in H. discriminate H.
  - apply ParseUint10_ok in HU as (Hd & -> & Hmax).
    destruct (c =? "-")%char eqn:Hm; cbn [negb andb orb] in *.
    + rewrite orb_true_r in Hd, Hmax |- *. apply Ascii.eqb_eq in Hm as ->.
      destruct (Z.gtb_spec (text.value rest) (2 ^ 63)); [discriminate|].
      intros [= <-]. by apply text.IntText_minus.
    + rewrite orb_false_r in Hd, Hmax |- *.
      destruct (Z.geb_spec (text.value (if (c =? "+")%char then rest else String c rest))
                  (2 ^ 63)); [discriminate|].
      intros [= <-]. destruct (c =? "+")%char eqn:Hp.
      * apply Ascii.eqb_eq in Hp as ->. by apply text.IntText_plus.
      * by apply text.IntText_unsigned.
Qed.

(** [Atoi] succeeds on int texts only. *)
Lemma Atoi_ok s v : Atoi s = (v, None) -> text.IntText s v.
Proof.
  unfold Atoi. destruct ((0 <? len s) && (len s <? 19)) eqn:Hfast.
  - apply andb_true_iff in Hfast as [H0 H19]. apply Z.ltb_lt in H0, H19.
    destruct s as [|c rest]; [discriminate|]. rewrite len_cons in *.
    destruct ((c =? "-")%char || (c =? "+")%char) eqn:Hsigned; cbn [andb].
    + destruct (Z.ltb_spec (len rest) 1); [discriminate|].
      destruct (Atoi_fast_loop (String c rest) rest 0) as [n|] eqn:Hloop; [|discriminate].
      pose proof (Atoi_fast_loop_Some _ _ _ _ Hloop) as Hd.
      rewrite (Atoi_fast_loop_digits _ _ 0 Hd), Z.mul_0_l, Z.add_0_l in Hloop.
      injection Hloop as <-.
      assert (Hdig : text.digits rest).
      { split; [|done]. intros ->. change (len "") with 0 in *. lia. }
      pose proof (len_digits_bound rest Hd ltac:(lia)).
      destruct (Ascii.eqb_spec c "-") as [->|Hm]; intros [= <-].
      * apply text.IntText_minus; [done|lia].
      * cbn [orb] in Hsigned. apply Ascii.eqb_eq in Hsigned as ->.
        by apply text.IntText_plus.
    + apply orb_false_iff in Hsigned as [Hm Hp]. rewrite Hm.
      destruct (Atoi_fast_loop (String c rest) (String c rest) 0) as [n|] eqn:Hloop;
        [|discriminate].
      pose proof (Atoi_fast_loop_Some _ _ _ _ Hloop) as Hd.
      rewrite (Atoi_fast_loop_digits _ _ 0 Hd), Z.mul_0_l, Z.add_0_l in Hloop.
      injection Hloop as <-. intros [= <-].
      apply text.IntText_unsigned; [by split|].
      apply len_digits_bound; [done|]. rewrite len_cons. lia.
  - destruct (ParseInt10 s) as [i64 [e|]] eqn:HP.
    + destruct e; discriminate.
    + intros [= <-]. by apply ParseInt10_ok.
Qed.

Lemma ParseInt10_error s v e :
  ParseInt10 s = (v, Some e) -> exists f n k, e = NumError f n k.
Proof.
  unfold ParseInt10. destruct s as [|c rest]; [intros [= <- <-]; by eexists _, _, _|].
  destruct (ParseUint10 _) as [un [[| ? ? []| | | | |]|]];
    repeat (match goal with |- context [if ?b then _ else _] => destruct b end);
    intros [= <- <-]; by eexists _, _, _.
Qed.

(** An error of [Atoi] is a [NumError]. *)
Lemma Atoi_error s e : snd (Atoi s) = Some e -> is_ParseError (Some e) = true.
Proof.
  unfold Atoi. destruct ((0 <? len s) && (len s <? 19)).
  - destruct s as [|c rest]; [by intros [= <-]|].
    destruct (((c =? "-")%char || (c =? "+")%char) && (len _ <? 1)); [by intros [= <-]|].
    destruct (Atoi_fast_loop _ _ _); [discriminate|by intros [= <-]].
  - destruct (ParseInt10 s) as [i64 [e'|]] eqn:HP; [|discriminate].
    apply ParseInt10_error in HP as (f & n & k & ->). by intros [= <-].
Qed.

End AtoiFacts.

Section ParseBoolFacts.

Import strconv.

Lemma ParseBool_BoolText s b : text.BoolText s b -> ParseBool s = (b, None).
Proof. by destruct 1. Qed.

Lemma ParseBool_cases s :
  (exists b, text.BoolText s b /\ ParseBool s = (b, None))
  \/ ((forall b, ~ text.BoolText s b)
      /\ ParseBool s = (false, Some (syntaxError "ParseBool" s))).
Proof.
  unfold ParseBool.
  repeat match goal with
         | |- context [String.eqb s ?l] =>
             destruct (String.eqb_spec s l) as [->|?];
             [left; eexists; split; [constructor|reflexivity]|]
         end.
  right. split; [|done]. intros b Hb. by destruct Hb.
Qed.



End ParseBoolFacts.

Section FloatFacts.

(** The number of bits of a positive number. *)
Lemma digits2_pos_bounds m :
  2 ^ (Z.pos (digits2_pos m) - 1) <= Z.pos m < 2 ^ Z.pos (digits2_pos m).
Proof.
  induction m as [m IH|m IH|]; cbn [digits2_pos]; [| |by cbn].
  - rewrite Pos2Z.inj_succ. replace (Z.succ (Z.pos (digits2_pos m)) - 1)
      with (Z.succ (Z.pos (digits2_pos m) - 1)) by lia.
    rewrite !Z.pow_succ_r by lia. lia.
  - rewrite Pos2Z.inj_succ. replace (Z.succ (Z.pos (digits2_pos m)) - 1)
      with (Z.succ (Z.pos (digits2_pos m) - 1)) by lia.
    rewrite !Z.pow_succ_r by lia. lia.
Qed.

Lemma digits2_pos_unique m d :
  2 ^ (d - 1) <= Z.pos m < 2 ^ d -> Z.pos (digits2_pos m) = d.
Proof.
  intros [Hl Hu]. pose proof (digits2_pos_bounds m) as [Hl' Hu'].
  assert (0 < d).
  { destruct (Z.lt_ge_cases 0 d); [done|]. exfalso.
    assert (2 ^ d <= 2 ^ 0) by (apply Z.pow_le_mono_r; lia). change (2 ^ 0) with 1 in *. lia. }
  assert (d - 1 < Z.pos (digits2_pos m)).
  { apply (Z.pow_lt_mono_r_iff 2); lia. }
  assert (Z.pos (digits2_pos m) - 1 < d).
  { apply (Z.pow_lt_mono_r_iff 2); lia. }
  lia.
Qed.

(** A 53-bit mantissa with an exponent in range is a float64 as it is. *)
Lemma binary_round_aux_exact s m e :
  Z.pos (digits2_pos m) = 53 -> -1074 <= e <= 971 ->
  binary_round_aux f64.prec f64.emax s (Z.pos m) e loc_Exact = S754_finite s m e.
Proof.
  intros Hd He. unfold binary_round_aux, shr_fexp, fexp, emin, f64.prec, f64.emax.
  cbn [Zdigits2 shr_record_of_loc]. rewrite Hd.
  replace (Z.max (53 + e - 53) (3 - 1024 - 53) - e) with 0 by lia.
  cbn [shr shr_m loc_of_shr_record round_nearest_even Zdigits2 shr_record_of_loc].
  rewrite Hd. replace (Z.max (53 + e - 53) (3 - 1024 - 53) - e) with 0 by lia.
  cbn [shr shr_m]. destruct (Z.leb_spec e (1024 - 53)); [done|lia].
Qed.

(** A 54-bit even mantissa loses its last bit without rounding. *)
Lemma binary_round_aux_even s m e :
  Z.pos (digits2_pos m) = 53 -> -1075 <= e <= 970 ->
  binary_round_aux f64.prec f64.emax s (Z.pos (xO m)) e loc_Exact
  = S754_finite s m (e + 1).
Proof.
  intros Hd He. unfold binary_round_aux, shr_fexp, fexp, emin, f64.prec, f64.emax.
  cbn [Zdigits2 shr_record_of_loc digits2_pos]. rewrite Pos2Z.inj_succ, Hd.
  replace (Z.max (Z.succ 53 + e - 53) (3 - 1024 - 53) - e) with 1 by lia.
  cbn [shr]. unfold SpecFloat.iter_pos.
  cbn [shr_1 orb shr_m loc_of_shr_record round_nearest_even Zdigits2 shr_record_of_loc].
  rewrite Hd. replace (Z.max (53 + (e + 1) - 53) (3 - 1024 - 53) - (e + 1)) with 0 by lia.
  cbn [shr shr_m]. destruct (Z.leb_spec (e + 1) (1024 - 53)); [done|lia].
Qed.

(** An integer below 2^53 is a float64 exactly: its mantissa is the
    integer shifted to 53 bits. The conversion [float64(n)] and the
    reading of the decimal numeral of [n] give this same float64. *)
Lemma of_Z_exact p :
  Z.pos p < 2 ^ 53 ->
  exists m k,
    0 <= k <= 52 /\ Z.pos m = Z.pos p * 2 ^ k
    /\ forall neg,
         f64.of_Z (if neg : bool then Z.neg p else Z.pos p) = S754_finite neg m (- k)
         /\ f64.of_decimal neg (Z.pos p) 0 = S754_finite neg m (- k).
Proof.
  intros Hp. pose proof (digits2_pos_bounds p) as [Hl Hu].
  set (d := Z.pos (digits2_pos p)) in *.
  assert (Hd : 1 <= d <= 53).
  { split; [unfold d; lia|]. destruct (Z.le_gt_cases d 53); [done|]. exfalso.
    assert (2 ^ 53 <= 2 ^ (d - 1)) by (apply Z.pow_le_mono_r; lia). lia. }
  assert (Hnorm : exists m, Z.pos m = Z.pos p * 2 ^ (53 - d)
            /\ shl_align p 0 (fexp f64.prec f64.emax (Z.pos (digits2_pos p) + 0))
               = (m, d - 53)).
  { unfold shl_align, fexp, emin, f64.prec, f64.emax. fold d.
    replace (Z.max (d + 0 - 53) (3 - 1024 - 53)) with (d - 53) by lia.
    replace (d - 53 - 0) with (d - 53) by lia.
    destruct (d - 53) as [|j|j] eqn:Hj; [|lia|].
    - exists p. split; [|reflexivity]. replace (53 - d) with 0 by lia. lia.
    - exists (Pos.iter xO p j). split; [|reflexivity].
      replace (53 - d) with (Z.pos j) by lia. clear.
      induction j as [|j IH] using Pos.peano_ind.
      + cbn. lia.
      + rewrite Pos.iter_succ, Pos2Z.inj_xO, IH, Pos2Z.inj_succ, Z.pow_succ_r by lia. ring. }
  destruct Hnorm as (m & Hm & Hsh). exists m, (53 - d). split; [lia|]. split; [done|].
  assert (Hdm : Z.pos (digits2_pos m) = 53).
  { apply digits2_pos_unique. rewrite Hm.
    assert (H1 : 2 ^ (53 - 1) = 2 ^ (d - 1) * 2 ^ (53 - d))
      by (rewrite <- Z.pow_add_r by lia; f_equal; lia).
    assert (H2 : 2 ^ 53 = 2 ^ d * 2 ^ (53 - d))
      by (rewrite <- Z.pow_add_r by lia; f_equal; lia).
    rewrite H1, H2.
    assert (0 < 2 ^ (53 - d)) by (apply Z.pow_pos_nonneg; lia). nia. }
  intros neg. split.
  - destruct neg; unfold f64.of_Z, binary_normalize, binary_round; rewrite Hsh;
      replace (- (53 - d)) with (d - 53) by lia;
      apply binary_round_aux_exact; (done || lia).
  - unfold f64.of_decimal. change (0 <=? 0) with true. cbv iota.
    change (10 ^ 0) with 1. rewrite Z.mul_1_r. unfold f64.of_ratio.
    assert (Hdiv : SFdiv_core_binary f64.prec f64.emax (Z.abs (Z.pos p)) 0 1 0
                   = (Z.pos (xO m), d - 54, loc_Exact)).
    { unfold SFdiv_core_binary, fexp, emin, f64.prec, f64.emax. cbv beta zeta.
      change (Z.abs (Z.pos p)) with (Z.pos p). change (Zdigits2 (Z.pos p)) with d.
      change (Zdigits2 1) with 1.
      replace (Z.min (Z.max (d + 0 - (1 + 0) - 53) (3 - 1024 - 53)) (0 - 0))
        with (d - 54) by lia.
      replace (0 - 0 - (d - 54)) with (54 - d) by lia.
      assert (Hsl : Z.shiftl (Z.pos p) (54 - d) = Z.pos (xO m)).
      { rewrite Z.shiftl_mul_pow2 by lia. rewrite (Pos2Z.inj_xO m), Hm.
        replace (54 - d) with (Z.succ (53 - d)) by lia. rewrite Z.pow_succ_r by lia. ring. }
      destruct (54 - d) as [|j|j] eqn:Hj; [lia| |lia]. cbv beta iota zeta. rewrite Hsl.
      change (IntDef.Z.div_eucl (Z.pos m~0) 1) with (Z.div_eucl (Z.pos m~0) 1).
      pose proof (Z.div_eucl_eq (Z.pos (xO m)) 1 ltac:(lia)) as Heq.
      pose proof (Z.mod_pos_bound (Z.pos (xO m)) 1 ltac:(lia)) as Hb.
      unfold Z.modulo in Hb.
      destruct (Z.div_eucl (Z.pos (xO m)) 1) as [q r]. cbn [snd] in Hb.
      assert (r = 0) by lia. subst r. assert (q = Z.pos (xO m)) by lia. subst q.
      reflexivity. }
    rewrite Hdiv. replace (- (53 - d)) with (d - 54 + 1) by lia.
    apply binary_round_aux_even; (done || lia).
Qed.

Lemma iter_xO_value p j : Z.pos (Pos.iter xO p j) = Z.pos p * 2 ^ Z.pos j.
Proof.
  induction j as [|j IH] using Pos.peano_ind.
  - cbn. lia.
  - rewrite Pos.iter_succ, Pos2Z.inj_xO, IH, Pos2Z.inj_succ, Z.pow_succ_r by lia. ring.
Qed.

(** Shifting out zero bits is exact. *)
Lemma shr_zeros n : forall q,
  SpecFloat.iter_pos shr_1 n
    {| shr_m := Z.pos (Pos.iter xO q n); shr_r := false; shr_s := false |}
  = {| shr_m := Z.pos q; shr_r := false; shr_s := false |}.
Proof.
  induction n as [n IH|n IH|]; intros q; cbn [SpecFloat.iter_pos Pos.iter].
  - cbn [shr_1 orb]. by rewrite IH, IH.
  - by rewrite IH, IH.
  - reflexivity.
Qed.

(** A mantissa that is a 53-bit number followed by zero bits rounds to
    that number. *)
Lemma binary_round_aux_shifted s m n e :
  Z.pos (digits2_pos m) = 53 -> -1074 <= e + Z.pos n <= 971 ->
  binary_round_aux f64.prec f64.emax s (Z.pos (Pos.iter xO m n)) e loc_Exact
  = S754_finite s m (e + Z.pos n).
Proof.
  intros Hd He.
  assert (Hdig : Z.pos (digits2_pos (Pos.iter xO m n)) = 53 + Z.pos n).
  { apply digits2_pos_unique. rewrite iter_xO_value.
    pose proof (digits2_pos_bounds m) as Hb. rewrite Hd in Hb.
    assert (H1 : 2 ^ (53 + Z.pos n - 1) = 2 ^ (53 - 1) * 2 ^ Z.pos n)
      by (rewrite <- Z.pow_add_r by lia; f_equal; lia).
    assert (H2 : 2 ^ (53 + Z.pos n) = 2 ^ 53 * 2 ^ Z.pos n)
      by (rewrite <- Z.pow_add_r by lia; f_equal; lia).
    rewrite H1, H2. assert (0 < 2 ^ Z.pos n) by (apply Z.pow_pos_nonneg; lia). nia. }
  unfold binary_round_aux, shr_fexp, fexp, emin, f64.prec, f64.emax.
  cbn [Zdigits2 shr_record_of_loc]. rewrite Hdig.
  replace (Z.max (53 + Z.pos n + e - 53) (3 - 1024 - 53) - e) with (Z.pos n) by lia.
  cbn [shr]. rewrite shr_zeros.
  cbn [shr_m loc_of_shr_record round_nearest_even Zdigits2 shr_record_of_loc].
  rewrite Hd.
  replace (Z.max (53 + (e + Z.pos n) - 53) (3 - 1024 - 53) - (e + Z.pos n)) with 0 by lia.
  cbn [shr shr_m]. destruct (Z.leb_spec (e + Z.pos n) (1024 - 53)); [done|lia].
Qed.

Lemma of_Z_normal p :
  Z.pos p < 2 ^ 53 ->
  exists m k,
    0 <= k <= 52 /\ Z.pos m = Z.pos p * 2 ^ k /\ Z.pos (digits2_pos m) = 53
    /\ f64.of_Z (Z.pos p) = S754_finite false m (- k).
Proof.
  intros Hp. pose proof (digits2_pos_bounds p) as [Hl Hu].
  set (d := Z.pos (digits2_pos p)) in *.
  assert (Hd : 1 <= d <= 53).
  { split; [unfold d; lia|]. destruct (Z.le_gt_cases d 53); [done|]. exfalso.
    assert (2 ^ 53 <= 2 ^ (d - 1)) by (apply Z.pow_le_mono_r; lia). lia. }
  assert (Hnorm : exists m, Z.pos m = Z.pos p * 2 ^ (53 - d)
            /\ shl_align p 0 (fexp f64.prec f64.emax (Z.pos (digits2_pos p) + 0))
               = (m, d - 53)).
  { unfold shl_align, fexp, emin, f64.prec, f64.emax. fold d.
    replace (Z.max (d + 0 - 53) (3 - 1024 - 53)) with (d - 53) by lia.
    replace (d - 53 - 0) with (d - 53) by lia.
    destruct (d - 53) as [|j|j] eqn:Hj; [|lia|].
    - exists p. split; [|reflexivity]. replace (53 - d) with 0 by lia. lia.
    - exists (Pos.iter xO p j). split; [|reflexivity].
      replace (53 - d) with (Z.pos j) by lia. apply iter_xO_value. }
  destruct Hnorm as (m & Hm & Hsh). exists m, (53 - d). split; [lia|]. split; [done|].
  assert (Hdm : Z.pos (digits2_pos m) = 53).
  { apply digits2_pos_unique. rewrite Hm.
    assert (H1 : 2 ^ (53 - 1) = 2 ^ (d - 1) * 2 ^ (53 - d))
      by (rewrite <- Z.pow_add_r by lia; f_equal; lia).
    assert (H2 : 2 ^ 53 = 2 ^ d * 2 ^ (53 - d))
      by (rewrite <- Z.pow_add_r by lia; f_equal; lia).
    rewrite H1, H2.
    assert (0 < 2 ^ (53 - d)) by (apply Z.pow_pos_nonneg; lia). nia. }
  split; [done|].
  unfold f64.of_Z, binary_normalize, binary_round. rewrite Hsh.
  replace (- (53 - d)) with (d - 53) by lia.
  apply binary_round_aux_exact; (done || lia).
Qed.

(** The product of two integers is exact as long as it stays below 2^53. *)
Lemma mul_exact a b :
  0 < a -> 0 < b -> a * b < 2 ^ 53 ->
  f64.mul (f64.of_Z a) (f64.of_Z b) = f64.of_Z (a * b).
Proof.
  intros Ha Hb Hab.
  destruct a as [|a|a]; [lia| |lia]. destruct b as [|b|b]; [lia| |lia].
  change (Z.pos a * Z.pos b) with (Z.pos (a * b)) in *.
  assert (Ha53 : Z.pos a < 2 ^ 53) by nia.
  assert (Hb53 : Z.pos b < 2 ^ 53) by nia.
  destruct (of_Z_normal a Ha53) as (ma & ka & Hka & Hma & Hda & ->).
  destruct (of_Z_normal b Hb53) as (mb & kb & Hkb & Hmb & Hdb & ->).
  destruct (of_Z_normal (a * b) Hab) as (mc & kc & Hkc & Hmc & Hdc & ->).
  unfold f64.mul, SFmul. cbn [xorb].
  pose proof (digits2_pos_bounds ma) as Hba. rewrite Hda in Hba.
  pose proof (digits2_pos_bounds mb) as Hbb. rewrite Hdb in Hbb.
  pose proof (digits2_pos_bounds mc) as Hbc. rewrite Hdc in Hbc.
  assert (Hprod : Z.pos (ma * mb) = Z.pos mc * 2 ^ (ka + kb - kc)).
  { rewrite Pos2Z.inj_mul in Hmc.
    assert (Hk : kc <= ka + kb).
    { destruct (Z.le_gt_cases kc (ka + kb)); [done|]. exfalso.
      assert (Hpw : 2 * 2 ^ (ka + kb) <= 2 ^ kc).
      { rewrite <- (Z.pow_succ_r 2) by lia. apply Z.pow_le_mono_r; lia. }
      assert (Hmm : Z.pos ma * Z.pos mb = Z.pos a * Z.pos b * 2 ^ (ka + kb))
        by (rewrite Hma, Hmb, Z.pow_add_r by lia; ring).
      assert (Hlow : 2 ^ (53 - 1) * 2 ^ (53 - 1) <= Z.pos ma * Z.pos mb)
        by (apply Z.mul_le_mono_nonneg; lia).
      assert (Hge : Z.pos a * Z.pos b * (2 * 2 ^ (ka + kb)) <= Z.pos a * Z.pos b * 2 ^ kc)
        by (apply Z.mul_le_mono_nonneg_l; lia).
      change (2 ^ (53 - 1)) with 4503599627370496 in *.
      change (2 ^ 53) with 9007199254740992 in *. lia. }
    assert (Hs : 2 ^ ka * 2 ^ kb = 2 ^ kc * 2 ^ (ka + kb - kc)).
    { rewrite <- !Z.pow_add_r by lia. f_equal. lia. }
    rewrite Pos2Z.inj_mul, Hma, Hmb, Hmc.
    transitivity (Z.pos a * Z.pos b * (2 ^ ka * 2 ^ kb)); [ring|].
    rewrite Hs. ring. }
  assert (Hpos : 0 < ka + kb - kc).
  { destruct (Z.lt_ge_cases 0 (ka + kb - kc)); [done|]. exfalso.
    assert (Hle : 2 ^ (ka + kb - kc) <= 2 ^ 0).
    { destruct (Z.lt_ge_cases (ka + kb - kc) 0).
      - rewrite Z.pow_neg_r by lia. done.
      - apply Z.pow_le_mono_r; lia. }
    change (2 ^ 0) with 1 in Hle. rewrite Pos2Z.inj_mul in Hprod.
    change (2 ^ (53 - 1)) with 4503599627370496 in *.
    change (2 ^ 53) with 9007199254740992 in *.
    assert (0 <= 2 ^ (ka + kb - kc)) by (apply Z.pow_nonneg; lia). nia. }
  destruct (ka + kb - kc) as [|j|j] eqn:Hj; [lia| |lia].
  rewrite <- iter_xO_value in Hprod. injection Hprod as ->.
  replace (- ka + - kb) with (- kc - Z.pos j) by lia.
  rewrite binary_round_aux_shifted; [|done|lia]. f_equal. lia.
Qed.

(** An integer below 2^53 comes back from its float64 unchanged. *)
Lemma trunc_of_Z n : 0 <= n < 2 ^ 53 -> f64.trunc (f64.of_Z n) = n.
Proof.
  intros Hn. destruct n as [|p|p]; [done| |lia].
  destruct (of_Z_normal p (proj2 Hn)) as (m & k & Hk & Hm & _ & ->).
  cbn [f64.trunc]. destruct (Z.leb_spec 0 (- k)).
  - assert (k = 0) by lia. subst k. rewrite Hm. cbn. lia.
  - replace (- - k) with k by lia. rewrite Hm. apply Z.div_mul.
    assert (0 < 2 ^ k) by (apply Z.pow_pos_nonneg; lia). lia.
Qed.

End FloatFacts.

Section ParseDurationFacts.

Import time.

Lemma append_nil_l s : append "" s = s.
Proof. reflexivity. Qed.

Lemma append_cons c s t : append (String c s) t = String c (append s t).
Proof. reflexivity. Qed.

Lemma append_assoc a b c : append (append a b) c = append a (append b c).
Proof. induction a as [|x a IH]; [done|]. by rewrite !append_cons, IH. Qed.

Lemma append_nil_r s : append s "" = s.
Proof. induction s as [|c s IH]; [done|]. by rewrite append_cons, IH. Qed.

Lemma length_append s t :
  String.length (append s t) = (String.length s + String.length t)%nat.
Proof.
  induction s as [|c s IH]; [done|]. rewrite append_cons. cbn [String.length]. by rewrite IH.
Qed.

Lemma len_append s t : len (append s t) = len s + len t.
Proof. unfold len. rewrite length_append. lia. Qed.

Lemma leadingInt_digits ds rest x :
  text.all_digits ds = true -> text.ends_number rest -> 0 <= x ->
  x * 10 ^ len ds + text.value ds <= 2 ^ 63 ->
  leadingInt (append ds rest) x = Some (x * 10 ^ len ds + text.value ds, rest).
Proof.
  revert x. induction ds as [|c ds IH]; intros x Hd Hrest Hx Hb.
  - rewrite append_nil_l. change (len "") with 0. cbn [text.value].
    rewrite Z.pow_0_r, Z.mul_1_r, Z.add_0_r.
    destruct rest as [|c r]; [done|]. cbn [leadingInt]. cbn in Hrest. by rewrite Hrest.
  - cbn [text.all_digits] in Hd. apply andb_true_iff in Hd as [Hc Hd].
    rewrite append_cons. cbn [leadingInt]. rewrite Hc. cbn [negb].
    pose proof (digit_val_range c Hc) as Hdv.
    pose proof (value_nonneg ds Hd) as Hv.
    pose proof (len_nonneg ds) as Hl.
    assert (Hp : 1 <= 10 ^ len ds) by (pose proof (Z.pow_pos_nonneg 10 (len ds)); lia).
    rewrite len_cons, Z.pow_add_r, Z.pow_1_r in * by lia.
    cbn [text.value] in *. fold (len ds) in *.
    change (2 ^ 63) with 9223372036854775808 in *.
    change (9223372036854775808 / 10) with 922337203685477580.
    destruct (Z.gtb_spec x 922337203685477580); [nia|]. cbv zeta.
    destruct (Z.gtb_spec (x * 10 + digit_val c) 9223372036854775808); [nia|].
    rewrite IH; [|done|done|lia|nia]. f_equal. f_equal. ring.
Qed.

Lemma UnitText_facts u n rest :
  text.UnitText u n -> text.starts_count rest ->
  unit_span (append u rest) = (u, rest)
  /\ unitMap u = Some n
  /\ (len u =? 0) = false
  /\ 0 < n <= 3600000000000
  /\ exists c r, append u rest = String c r /\ is_digit c = false
                 /\ Ascii.eqb c "." = false.
Proof.
  intros Hu Hrest.
  assert (Hspan : unit_span rest = (EmptyString, rest)).
  { destruct rest as [|c r]; [done|]. cbn in Hrest. cbn [unit_span]. by rewrite Hrest. }
  destruct Hu; (split; [|split; [|split; [|split]]]);
    try (vm_compute; done); try lia;
    try (eexists _, _; split; [reflexivity|split; vm_compute; reflexivity]);
    unfold micro_sign_s, greek_mu_s; rewrite ?append_cons, ?append_nil_l;
    cbn [unit_span]; rewrite ?Hspan; reflexivity.
Qed.

Lemma UnitText_tens u n k :
  text.UnitText u n -> 0 <= k -> n mod 10 ^ k = 0 -> k <= 12.
Proof.
  intros Hu Hk Hm.
  pose proof (UnitText_facts u n "" Hu I) as (_ & _ & _ & Hn & _).
  destruct (Z.le_gt_cases k 12); [done|]. exfalso.
  assert (Hp : 10 ^ 13 <= 10 ^ k) by (apply Z.pow_le_mono_r; lia).
  apply Z.mod_divide in Hm; [|lia]. apply Z.divide_pos_le in Hm; [|lia].
  change (10 ^ 13) with 10000000000000 in Hp. lia.
Qed.

(** The scale of a fraction of [k] digits divides the units it may stand
    with exactly. *)
Lemma unit_scale u n k :
  text.UnitText u n -> n mod 10 ^ Z.of_nat k = 0 ->
  f64.div (f64.of_Z n) (Nat.iter k (fun sc => f64.mul sc (f64.of_Z 10)) (f64.of_Z 1))
  = f64.of_Z (n / 10 ^ Z.of_nat k).
Proof.
  intros Hu Hm.
  pose proof (UnitText_tens u n (Z.of_nat k) Hu ltac:(lia) Hm) as Hk.
  assert (Hc : (k <= 12)%nat) by lia. clear Hk.
  do 13 (destruct k as [|k]; [destruct Hu; (vm_compute in Hm; discriminate Hm) || (vm_compute; reflexivity)|]).
  lia.
Qed.

(** The digits of a fraction, read without overflow. *)
Lemma leadingFraction_digits fs rest x scale :
  text.all_digits fs = true -> text.ends_number rest -> 0 <= x ->
  x * 10 ^ len fs + text.value fs <= 2 ^ 63 - 1 ->
  leadingFraction (append fs rest) x scale false
  = (x * 10 ^ len fs + text.value fs,
     Nat.iter (String.length fs) (fun sc => f64.mul sc (f64.of_Z 10)) scale, rest).
Proof.
  revert x scale. induction fs as [|c fs IH]; intros x scale Hd Hrest Hx Hb.
  - rewrite append_nil_l. change (len "") with 0. cbn [text.value String.length Nat.iter].
    rewrite Z.pow_0_r, Z.mul_1_r, Z.add_0_r.
    destruct rest as [|c r]; [done|]. cbn [leadingFraction]. cbn in Hrest. by rewrite Hrest.
  - cbn [text.all_digits] in Hd. apply andb_true_iff in Hd as [Hc Hd].
    rewrite append_cons. cbn [leadingFraction]. rewrite Hc. cbn [negb].
    pose proof (digit_val_range c Hc) as Hdv.
    pose proof (value_nonneg fs Hd) as Hv.
    pose proof (len_nonneg fs) as Hl.
    assert (Hp : 1 <= 10 ^ len fs) by (pose proof (Z.pow_pos_nonneg 10 (len fs)); lia).
    rewrite len_cons, Z.pow_add_r, Z.pow_1_r in * by lia.
    cbn [text.value] in *. fold (len fs) in *.
    change (2 ^ 63) with 9223372036854775808 in *.
    change ((9223372036854775808 - 1) / 10) with 922337203685477580.
    destruct (Z.gtb_spec x 922337203685477580); [nia|]. cbv zeta.
    destruct (Z.gtb_spec (x * 10 + digit_val c) 9223372036854775808); [nia|].
    rewrite IH; [|done|done|lia|nia]. cbn [String.length].
    rewrite Nat.iter_succ_r. f_equal. f_equal. ring.
Qed.

Lemma digits_starts_count ds rest : text.digits ds -> text.starts_count (append ds rest).
Proof.
  intros Hd. destruct (digits_cons _ Hd) as (c & r & -> & Hc & _). rewrite append_cons.
  unfold text.starts_count. by rewrite Hc, orb_true_r.
Qed.

Lemma GroupText_starts_count g v rest :
  text.GroupText g v -> text.starts_count (append g rest).
Proof.
  destruct 1 as [ds u n Hd Hu|ds fs u n Hd Hf Hne Hu Hm].
  - rewrite append_assoc. by apply digits_starts_count.
  - destruct ds as [|c r]; [by rewrite append_nil_l, append_cons|].
    cbn [text.all_digits] in Hd. apply andb_true_iff in Hd as [Hc _].
    rewrite !append_cons. unfold text.starts_count. by rewrite Hc, orb_true_r.
Qed.

Lemma GroupsText_starts_count g v : text.GroupsText g v -> text.starts_count g.
Proof.
  destruct 1 as [g v Hg|g v rest w Hg _].
  - rewrite <- (append_nil_r g). by eapply GroupText_starts_count.
  - by eapply GroupText_starts_count.
Qed.

Lemma GroupText_nonneg g v : text.GroupText g v -> 0 <= v.
Proof.
  destruct 1 as [ds u n Hd Hu|ds fs u n Hd Hf Hne Hu Hm];
    pose proof (UnitText_facts u n "" Hu I) as (_ & _ & _ & Hn & _).
  - pose proof (value_nonneg ds (proj2 Hd)). nia.
  - pose proof (value_nonneg ds Hd). pose proof (value_nonneg fs Hf).
    assert (0 <= n / 10 ^ len fs) by (apply Z.div_pos; [lia|apply Z.pow_pos_nonneg; [lia|apply len_nonneg]]).
    nia.
Qed.

Lemma GroupsText_nonneg g v : text.GroupsText g v -> 0 <= v.
Proof.
  induction 1 as [g v Hg|g v rest w Hg _ IH]; pose proof (GroupText_nonneg _ _ Hg); lia.
Qed.

Lemma GroupText_length g v : text.GroupText g v -> (2 <= String.length g)%nat.
Proof.
  destruct 1 as [ds u n Hd Hu|ds fs u n Hd Hf Hne Hu Hm];
    pose proof (UnitText_facts u n "" Hu I) as (_ & _ & Hlen & _);
    apply Z.eqb_neq in Hlen; unfold len in Hlen.
  - destruct (digits_cons _ Hd) as (c & r & -> & _).
    rewrite append_cons, ?length_append; cbn [String.length]; rewrite ?length_append; lia.
  - rewrite length_append. cbn [String.length]. rewrite length_append. lia.
Qed.

(** One turn of the loop reads one group. *)
Lemma ParseDuration_loop_group g v rest fuel orig d :
  text.GroupText g v -> text.starts_count rest ->
  0 <= d -> d + v <= 2 ^ 63 ->
  ParseDuration_loop (S fuel) orig (append g rest) d
  = ParseDuration_loop fuel orig rest (d + v).
Proof.
  intros Hg Hrest H0 Hb.
  destruct Hg as [ds u n Hd Hu|ds fs u n Hd Hf Hne Hu Hm].
  - rewrite append_assoc.
    destruct (UnitText_facts u n rest Hu Hrest)
      as (Hspan & Hmap & Hlen & Hn & c' & r' & Hur & Hc' & Hdot).
    pose proof (value_nonneg ds (proj2 Hd)) as Hv.
    destruct (digits_cons _ Hd) as (c & r & Hds & Hc & Hr).
    assert (Hlead : leadingInt (append ds (append u rest)) 0
                    = Some (text.value ds, append u rest)).
    { rewrite (leadingInt_digits ds (append u rest) 0);
        [by rewrite Z.mul_0_l, Z.add_0_l|apply Hd| |lia|nia].
      rewrite Hur. exact Hc'. }
    assert (Hpre : (len (append ds (append u rest)) =? len (append u rest)) = false).
    { apply Z.eqb_neq. rewrite (len_append ds). rewrite Hds, len_cons.
      pose proof (len_nonneg r). lia. }
    subst ds. rewrite append_cons in *.
    cbn [ParseDuration_loop]. rewrite Hc, orb_true_r. cbn [negb].
    rewrite Hlead, Hpre. cbn [negb]. rewrite Hur, Hdot. cbv beta iota zeta.
    cbn [negb andb]. rewrite <- Hur, Hspan, Hlen, Hmap.
    assert (Hq : text.value (String c r) <= 2 ^ 63 / n) by (apply Z.div_le_lower_bound; nia).
    destruct (Z.gtb_spec (text.value (String c r)) (2 ^ 63 / n)); [lia|].
    change (0 >? 0) with false. cbv beta iota zeta. cbn [andb].
    rewrite Z.mod_small by (change (2 ^ 64) with 18446744073709551616;
                            change (2 ^ 63) with 9223372036854775808 in *; nia).
    destruct (Z.gtb_spec (d + text.value (String c r) * n) (2 ^ 63)); [lia|]. reflexivity.
  - destruct (UnitText_facts u n rest Hu Hrest)
      as (Hspan & Hmap & Hlen & Hn & c' & r' & Hur & Hc' & Hdot).
    pose proof (value_nonneg ds Hd) as Hv. pose proof (value_nonneg fs Hf) as Hvf.
    pose proof (value_bound fs Hf) as Hbf. fold (len fs) in Hbf.
    pose proof (len_nonneg fs) as Hlf.
    pose proof (UnitText_tens u n (len fs) Hu Hlf Hm) as Hk.
    assert (Hten : 0 < 10 ^ len fs) by (apply Z.pow_pos_nonneg; lia).
    assert (Hten' : 10 ^ len fs <= 10 ^ 12) by (apply Z.pow_le_mono_r; lia).
    change (10 ^ 12) with 1000000000000 in Hten'.
    set (q := n / 10 ^ len fs) in *.
    assert (Hnq : n = 10 ^ len fs * q).
    { unfold q. apply Z.div_exact; [lia|done]. }
    assert (Hq0 : 0 < q) by nia.
    assert (Hfq : text.value fs * q < n) by nia.
    assert (Hlead : leadingInt (append ds (String "." (append fs (append u rest)))) 0
                    = Some (text.value ds, String "." (append fs (append u rest)))).
    { rewrite (leadingInt_digits ds _ 0); [by rewrite Z.mul_0_l, Z.add_0_l|done|done|lia|nia]. }
    assert (Hfrac : leadingFraction (append fs (append u rest)) 0 (f64.of_Z 1) false
                    = (text.value fs,
                       Nat.iter (String.length fs) (fun sc => f64.mul sc (f64.of_Z 10))
                         (f64.of_Z 1),
                       append u rest)).
    { rewrite leadingFraction_digits;
        [by rewrite Z.mul_0_l, Z.add_0_l| done | by rewrite Hur | lia |].
      change (2 ^ 63) with 9223372036854775808. lia. }
    assert (Hfirst : exists c0 r0,
               append ds (String "." (append fs (append u rest))) = String c0 r0
               /\ Ascii.eqb c0 "." || is_digit c0 = true).
    { destruct ds as [|c r]; [by eexists _, _|].
      cbn [text.all_digits] in Hd. apply andb_true_iff in Hd as [Hc _].
      rewrite append_cons. eexists _, _. split; [done|]. by rewrite Hc, orb_true_r. }
    destruct Hfirst as (c0 & r0 & Hs & Hc0).
    replace (append (append ds (String "." (append fs u))) rest)
      with (append ds (String "." (append fs (append u rest))))
      by (by rewrite append_assoc, append_cons, append_assoc).
    rewrite Hs. cbn [ParseDuration_loop]. rewrite Hc0. cbn [negb].
    rewrite <- Hs, Hlead. change (("." =? ".")%char) with true. cbv beta iota zeta.
    rewrite Hfrac. cbv beta iota zeta.
    rewrite len_append, len_cons, (len_append fs).
    assert (Hpp : negb (negb (len ds + (len fs + len (append u rest) + 1)
                              =? len fs + len (append u rest) + 1))
                  && negb (negb (len fs + len (append u rest) =? len (append u rest)))
                  = false).
    { pose proof (len_nonneg ds) as Hlds.
      destruct Hne as [Hne|Hne].
      - destruct ds as [|c r]; [done|]. rewrite len_cons in *.
        pose proof (len_nonneg r).
        destruct (Z.eqb_spec (len r + 1 + (len fs + len (append u rest) + 1))
                    (len fs + len (append u rest) + 1)); [lia|done].
      - destruct fs as [|c r]; [done|]. rewrite len_cons in *.
        pose proof (len_nonneg r).
        destruct (Z.eqb_spec (len r + 1 + len (append u rest)) (len (append u rest))); [lia|].
        cbn [negb]. by rewrite andb_false_r. }
    rewrite Hpp, Hspan, Hlen, Hmap.
    assert (Hq : text.value ds <= 2 ^ 63 / n) by (apply Z.div_le_lower_bound; nia).
    destruct (Z.gtb_spec (text.value ds) (2 ^ 63 / n)); [lia|]. cbv beta iota zeta.
    assert (Hv' : (if text.value fs >? 0
                   then (text.value ds * n
                         + f64.trunc (f64.mul (f64.of_Z (text.value fs))
                                        (f64.div (f64.of_Z n)
                                           (Nat.iter (String.length fs)
                                              (fun sc => f64.mul sc (f64.of_Z 10))
                                              (f64.of_Z 1))))) mod 2 ^ 64
                   else text.value ds * n)
                  = text.value ds * n + text.value fs * q).
    { destruct (Z.gtb_spec (text.value fs) 0) as [Hpos|Hz].
      - rewrite (unit_scale u n (String.length fs) Hu Hm). fold (len fs). fold q.
        assert (H53 : text.value fs * q < 2 ^ 53)
          by (change (2 ^ 53) with 9007199254740992; lia).
        rewrite (mul_exact _ _ Hpos Hq0 H53), trunc_of_Z by nia.
        apply Z.mod_small. change (2 ^ 64) with 18446744073709551616.
        change (2 ^ 63) with 9223372036854775808 in *. nia.
      - assert (text.value fs = 0) by lia. lia. }
    rewrite Hv'.
    destruct (Z.gtb_spec (text.value ds * n + text.value fs * q) (2 ^ 63)); [lia|].
    rewrite andb_false_r.
    rewrite Z.mod_small by (change (2 ^ 64) with 18446744073709551616;
                            change (2 ^ 63) with 9223372036854775808 in *; nia).
    destruct (Z.gtb_spec (d + (text.value ds * n + text.value fs * q)) (2 ^ 63)); [lia|].
    reflexivity.
Qed.

Lemma ParseDuration_loop_groups g v :
  text.GroupsText g v ->
  forall fuel orig d,
    (String.length g <= fuel)%nat -> 0 <= d -> d + v <= 2 ^ 63 ->
    ParseDuration_loop fuel orig g d = Some (d + v, None).
Proof.
  induction 1 as [g v Hg|g v rest w Hg Hrest IH]; intros fuel orig d Hf H0 Hb.
  - pose proof (GroupText_length _ _ Hg) as Hl.
    destruct fuel as [|fuel]; [lia|].
    rewrite <- (append_nil_r g).
    rewrite (ParseDuration_loop_group g v "" fuel orig d); try done.
    by destruct fuel.
  - pose proof (GroupText_length _ _ Hg) as Hl.
    pose proof (GroupText_nonneg _ _ Hg) as Hv.
    pose proof (GroupsText_nonneg _ _ Hrest) as Hw.
    rewrite length_append in Hf.
    destruct fuel as [|fuel]; [lia|].
    rewrite (ParseDuration_loop_group g v rest fuel orig d); try done.
    + rewrite IH; [f_equal; f_equal; lia|lia|lia|lia].
    + by eapply GroupsText_starts_count.
    + lia.
Qed.

Lemma GroupsText_not_short g v :
  text.GroupsText g v -> String.eqb g "0" = false /\ String.eqb g "" = false.
Proof.
  intros H.
  assert (Hl : (2 <= String.length g)%nat).
  { destruct H as [g v Hg|g v rest w Hg _]; pose proof (GroupText_length _ _ Hg);
      rewrite ?length_append; lia. }
  split; apply String.eqb_neq; intros ->; cbn in Hl; lia.
Qed.

Lemma starts_count_not_sign c r :
  text.starts_count (String c r) -> Ascii.eqb c "-" || Ascii.eqb c "+" = false.
Proof.
  unfold text.starts_count. intros H. apply orb_true_iff in H as [H|H].
  - by apply Ascii.eqb_eq in H as ->.
  - destruct (is_digit_not_sign c H) as (Hp & Hm & _). by rewrite Hp, Hm.
Qed.

(** [ParseDuration] reads every duration text as the length it denotes. *)
Lemma ParseDuration_DurationText s v :
  text.DurationText s v -> ParseDuration s = (v, None).
Proof.
  intros H. unfold ParseDuration.
  destruct H as [sg|g v Hg Hv|g v Hg Hv|g v Hg Hv];
    [by destruct sg|..];
    destruct (GroupsText_not_short _ _ Hg) as [H0 He];
    pose proof (GroupsText_nonneg _ _ Hg) as Hn.
  - pose proof (GroupsText_starts_count _ _ Hg) as Hs.
    destruct g as [|c r]; [discriminate|].
    rewrite (starts_count_not_sign c r Hs).
    rewrite H0, He, (ParseDuration_loop_groups _ v Hg); [|done|done|lia].
    rewrite Z.add_0_l. destruct (Z.gtb_spec v (2 ^ 63 - 1)); [lia|done].
  - cbn [Ascii.eqb Bool.eqb orb].
    rewrite H0, He, (ParseDuration_loop_groups _ v Hg); [|done|done|lia].
    rewrite Z.add_0_l. destruct (Z.gtb_spec v (2 ^ 63 - 1)); [lia|done].
  - cbn [Ascii.eqb Bool.eqb orb].
    rewrite H0, He, (ParseDuration_loop_groups _ v Hg); [|done|done|lia].
    by rewrite Z.add_0_l.
Qed.

Lemma leadingInt_length s x v r :
  leadingInt s x = Some (v, r) -> (String.length r <= String.length s)%nat.
Proof.
  revert x. induction s as [|c s IH]; intros x; cbn [leadingInt].
  - by intros [= _ <-].
  - destruct (negb (is_digit c)); [by intros [= _ <-]|].
    destruct (x >? 2 ^ 63 / 10); [discriminate|]. cbv zeta.
    destruct (x * 10 + digit_val c >? 2 ^ 63); [discriminate|].
    intros H. apply IH in H. cbn [String.length]. lia.
Qed.

Lemma leadingFraction_length s x sc o f sc' r :
  leadingFraction s x sc o = (f, sc', r) -> (String.length r <= String.length s)%nat.
Proof.
  revert x sc o. induction s as [|c s IH]; intros x sc o; cbn [leadingFraction].
  - by intros [= _ _ <-].
  - destruct (negb (is_digit c)); [by intros [= _ _ <-]|].
    cbn [String.length].
    destruct o; [intros H; apply IH in H; lia|].
    destruct (x >? (2 ^ 63 - 1) / 10); [intros H; apply IH in H; lia|]. cbv zeta.
    destruct (x * 10 + digit_val c >? 2 ^ 63); intros H; apply IH in H; lia.
Qed.

Lemma unit_span_length s u r :
  unit_span s = (u, r) -> String.length s = (String.length u + String.length r)%nat.
Proof.
  revert u r. induction s as [|c s IH]; intros u r; cbn [unit_span].
  - by intros [= <- <-].
  - destruct ((c =? ".")%char || is_digit c); [by intros [= <- <-]|].
    destruct (unit_span s) as [u' r'] eqn:Hs. intros [= <- <-].
    cbn [String.length]. by rewrite (IH _ _ eq_refl).
Qed.

(** The loop of [ParseDuration] does not run out of fuel: every turn
    consumes at least one byte. *)
Lemma ParseDuration_loop_fuel fuel orig s d :
  (String.length s <= fuel)%nat -> ParseDuration_loop fuel orig s d <> None.
Proof.
  revert s d. induction fuel as [|fuel IH]; intros s d Hf.
  - destruct s; [done|cbn in Hf; lia].
  - destruct s as [|c s]; [done|]. cbn [ParseDuration_loop].
    destruct (negb _); [done|].
    destruct (leadingInt (String c s) 0) as [[v s1]|] eqn:Hint; [|done].
    apply leadingInt_length in Hint.
    assert (Hfrac : forall f scale s2 post,
               match s1 with
               | "" => (0, f64.of_Z 1, s1, false)
               | String c0 s' =>
                   if (c0 =? ".")%char
                   then let '(f, scale, s0) := leadingFraction s' 0 (f64.of_Z 1) false in
                        (f, scale, s0, negb (len s' =? len s0))
                   else (0, f64.of_Z 1, s1, false)
               end = (f, scale, s2, post) ->
               (String.length s2 <= String.length s1)%nat).
    { intros f scale s2 post. destruct s1 as [|c0 s']; [by intros [= _ _ <- _]|].
      destruct (c0 =? ".")%char; [|by intros [= _ _ <- _]].
      destruct (leadingFraction s' 0 (f64.of_Z 1) false) as [[f' sc'] r'] eqn:Hfr.
      intros [= _ _ <- _]. apply leadingFraction_length in Hfr. cbn [String.length]. lia. }
    destruct (match s1 with "" => _ | String _ _ => _ end) as [[[f scale] s2] post].
    specialize (Hfrac _ _ _ _ eq_refl).
    destruct (negb _ && negb post); [done|].
    destruct (unit_span s2) as [u s3] eqn:Hspan. apply unit_span_length in Hspan.
    destruct (Z.eqb_spec (len u) 0) as [|Hu]; [done|].
    destruct (unitMap u); [|done].
    destruct (v >? _); [done|]. cbv zeta.
    destruct ((f >? 0) && _); [done|].
    destruct (_ >? 2 ^ 63); [done|].
    apply IH. unfold len in Hu. cbn [String.length] in *. lia.
Qed.







Lemma len_append_same ds r : (len (append ds r) =? len r) = true -> ds = EmptyString.
Proof.
  intros H. apply Z.eqb_eq in H. rewrite len_append in H.
  destruct ds as [|c ds]; [done|]. rewrite len_cons in H. pose proof (len_nonneg ds). lia.
Qed.



Lemma GroupText_syntax g v :
  text.GroupText g v ->
  exists c u, g = append c u /\ text.CountSyntax c /\ text.UnitSyntax u.
Proof.
  destruct 1 as [ds u n Hd Hu|ds fs u n Hd Hf Hne Hu Hm].
  - exists ds, u. split; [done|]. split; [by left|by exists n].
  - exists (append ds (String "." fs)), u. split; [by rewrite append_assoc, append_cons|].
    split; [right; by exists ds, fs|by exists n].
Qed.

Lemma GroupsText_syntax g v : text.GroupsText g v -> text.GroupsSyntax g.
Proof.
  induction 1 as [g v Hg|g v rest w Hg _ IH];
    destruct (GroupText_syntax _ _ Hg) as (c & u & -> & Hc & Hu).
  - by constructor.
  - rewrite append_assoc. by constructor.
Qed.

(** Every duration text has the shape of a duration. *)
Lemma DurationText_syntax s v : text.DurationText s v -> text.DurationSyntax s.
Proof.
  destruct 1 as [sg|g v Hg _|g v Hg _|g v Hg _].
  - exists sg, "0"%string. split; [done|by left].
  - exists text.NoSign, g. split; [done|]. right. by eapply GroupsText_syntax.
  - exists text.Plus, g. split; [done|]. right. by eapply GroupsText_syntax.
  - exists text.Minus, g. split; [done|]. right. by eapply GroupsText_syntax.
Qed.

End ParseDurationFacts.

Section ParseFloatFacts.

Import atof.

Lemma digit_byte c : is_digit c = true -> 48 <= byte_val c <= 57.
Proof. unfold is_digit. intros H. apply andb_true_iff in H as [? ?]. lia. Qed.

Lemma byte_val_inj c1 c2 : byte_val c1 = byte_val c2 -> c1 = c2.
Proof.
  unfold byte_val. intros H. apply N2Z.inj in H.
  rewrite <- (ascii_N_embedding c1), <- (ascii_N_embedding c2). by rewrite H.
Qed.

Lemma eqb_byte c x : Ascii.eqb c x = (byte_val c =? byte_val x).
Proof.
  destruct (Ascii.eqb_spec c x) as [->|Hne]; [by rewrite Z.eqb_refl|].
  symmetry. apply Z.eqb_neq. intros H. by apply Hne, byte_val_inj.
Qed.

(** A digit is none of the other bytes a number is made of. *)
Lemma digit_class c :
  is_digit c = true ->
  Ascii.eqb c "_" = false /\ Ascii.eqb c "." = false
  /\ Ascii.eqb c "+" = false /\ Ascii.eqb c "-" = false
  /\ Ascii.eqb c "i" = false /\ Ascii.eqb c "I" = false
  /\ Ascii.eqb c "n" = false /\ Ascii.eqb c "N" = false
  /\ (strconv.lower c =? 120) = false /\ (strconv.lower c =? 101) = false.
Proof.
  intros H. apply digit_byte in H.
  assert (Hl : 48 <= strconv.lower c <= 63).
  { unfold strconv.lower.
    assert (Hc : byte_val c = 48 \/ byte_val c = 49 \/ byte_val c = 50 \/ byte_val c = 51
                 \/ byte_val c = 52 \/ byte_val c = 53 \/ byte_val c = 54
                 \/ byte_val c = 55 \/ byte_val c = 56 \/ byte_val c = 57) by lia.
    repeat (destruct Hc as [Hc|Hc]; [rewrite Hc; vm_compute; split; discriminate|]).
    rewrite Hc; vm_compute; split; discriminate. }
  rewrite !eqb_byte. repeat split; apply Z.eqb_neq;
    try match goal with
        | |- byte_val c <> ?x => let v := eval vm_compute in x in change x with v
        end; lia.
Qed.

(** Reading a run of digits multiplies the mantissa out and moves the
    decimal point one place per digit. *)
Lemma readMantissa_digits ds rest st :
  text.all_digits ds = true ->
  0 <= nd st -> (nd st = 0 -> mantissa st = 0) ->
  exists st',
    readMantissa false (append ds rest) st = readMantissa false rest st'
    /\ sawdot st' = sawdot st
    /\ (sawdigits st = true \/ ds <> EmptyString -> sawdigits st' = true)
    /\ underscores st' = underscores st
    /\ mantissa st' = mantissa st * 10 ^ len ds + text.value ds
    /\ dp st' - nd st' = dp st - nd st - len ds
    /\ 0 <= nd st' /\ (nd st' = 0 -> mantissa st' = 0).
Proof.
  revert st. induction ds as [|c ds IH]; intros st Hd Hnd Hinv.
  - exists st. rewrite append_nil_l. change (len "") with 0. cbn [text.value].
    repeat split; try done; try lia. by intros [?|?].
  - cbn [text.all_digits] in Hd. apply andb_true_iff in Hd as [Hc Hd].
    destruct (digit_class c Hc) as (Hus & Hdot & _).
    rewrite append_cons. cbn [readMantissa]. rewrite Hus, Hdot, Hc.
    pose proof (len_nonneg ds) as Hl.
    rewrite len_cons, Z.pow_add_r, Z.pow_1_r by lia. cbn [text.value]. fold (len ds).
    destruct ((c =? "0")%char && (nd st =? 0)) eqn:Hz.
    + apply andb_true_iff in Hz as [Hc0 Hn0].
      apply Ascii.eqb_eq in Hc0 as ->. apply Z.eqb_eq in Hn0.
      match goal with
      | |- exists st', readMantissa false _ ?s1 = _ /\ _ =>
          destruct (IH s1 Hd) as (st' & Heq & H1 & H2 & H3 & H4 & H5 & H6 & H7);
          [cbn [nd]; lia|cbn [nd mantissa]; auto|]
      end.
      cbn [nd mantissa sawdot sawdigits underscores dp] in *.
      exists st'. repeat split; try done; try lia; auto.
      rewrite H4, (Hinv Hn0). change (digit_val "0") with 0. lia.
    + match goal with
      | |- exists st', readMantissa false _ ?s1 = _ /\ _ =>
          destruct (IH s1 Hd) as (st' & Heq & H1 & H2 & H3 & H4 & H5 & H6 & H7);
          [cbn [nd]; lia|cbn [nd mantissa]; lia|]
      end.
      cbn [nd mantissa sawdot sawdigits underscores dp] in *.
      exists st'. repeat split; try done; try lia; auto.
Qed.

(** The exponent digits, below the cap. *)
Lemma readExponent_digits ds e us :
  text.all_digits ds = true -> 0 <= e ->
  e * 10 ^ len ds + text.value ds < 100000 ->
  readExponent ds e us = (e * 10 ^ len ds + text.value ds, us, EmptyString).
Proof.
  revert e. induction ds as [|c ds IH]; intros e Hd He Hb.
  - cbn [readExponent text.value]. change (len "") with 0. do 2 f_equal. lia.
  - cbn [text.all_digits] in Hd. apply andb_true_iff in Hd as [Hc Hd].
    destruct (digit_class c Hc) as (Hus & _).
    cbn [readExponent]. rewrite Hus, Hc.
    pose proof (len_nonneg ds) as Hl.
    pose proof (digit_val_range c Hc) as Hdv.
    pose proof (value_nonneg ds Hd) as Hv.
    assert (Hp : 1 <= 10 ^ len ds) by (pose proof (Z.pow_pos_nonneg 10 (len ds)); lia).
    rewrite len_cons, Z.pow_add_r, Z.pow_1_r in * by lia.
    cbn [text.value] in *. fold (len ds) in *.
    destruct (Z.ltb_spec e 10000); [|nia].
    rewrite IH; [|done|lia|nia]. do 2 f_equal. ring.
Qed.

Lemma all_dec_app s t : text.all_dec (append s t) = text.all_dec s && text.all_dec t.
Proof.
  induction s as [|c s IH]; [done|]. rewrite append_cons. cbn [text.all_dec].
  by rewrite IH, andb_assoc.
Qed.

Lemma all_digits_all_dec s : text.all_digits s = true -> text.all_dec s = true.
Proof.
  induction s as [|c s IH]; [done|]. cbn [text.all_digits text.all_dec]. intros H.
  apply andb_true_iff in H as [Hc Hs]. unfold text.dec_char. by rewrite Hc, IH.
Qed.

Lemma dec_char_not_x c : text.dec_char c = true -> (strconv.lower c =? 120) = false.
Proof.
  unfold text.dec_char. intros H.
  repeat (apply orb_true_iff in H as [H|H]).
  - by destruct (digit_class c H) as (_ & _ & _ & _ & _ & _ & _ & _ & ? & _).
  - by apply Ascii.eqb_eq in H as ->.
  - apply Z.eqb_eq in H. rewrite H. done.
  - by apply Ascii.eqb_eq in H as ->.
  - by apply Ascii.eqb_eq in H as ->.
Qed.

Lemma render_tail_dec (fp : option string) (ex : option (ascii * text.Sign * string)) :
  match fp with Some f => text.digits f | None => True end ->
  match ex with
  | Some (e, sg, ds) => (e = "e"%char \/ e = "E"%char) /\ text.digits ds /\ text.value ds < 100000
  | None => True
  end ->
  text.all_dec (append (match fp with Some f => String "." f | None => EmptyString end)
                  (match ex with
                   | Some (e, sg, ds) => String e (append (text.sign_text sg) ds)
                   | None => EmptyString
                   end)) = true.
Proof.
  intros Hf He. rewrite all_dec_app. apply andb_true_iff. split.
  - destruct fp as [f|]; [|done]. cbn [text.all_dec]. by rewrite (all_digits_all_dec f (proj2 Hf)).
  - destruct ex as [[[e sg] ds]|]; [|done]. destruct He as (He & Hd & _).
    cbn [text.all_dec]. rewrite all_dec_app, (all_digits_all_dec ds (proj2 Hd)).
    by destruct He as [-> | ->], sg.
Qed.

Lemma sign_strip sg ds tail :
  text.digits ds ->
  exists c0 s0,
    append (text.sign_text sg) (append ds tail) = String c0 s0
    /\ Ascii.eqb c0 "-" = text.is_minus sg
    /\ (if Ascii.eqb c0 "+" || Ascii.eqb c0 "-" then s0 else String c0 s0)
       = append ds tail.
Proof.
  intros Hd. destruct (digits_cons _ Hd) as (c & r & -> & Hc & _).
  destruct (digit_class c Hc) as (_ & _ & Hp & Hm & _).
  destruct sg; cbn [text.sign_text text.is_minus].
  - rewrite append_nil_l, append_cons. exists c, (append r tail). by rewrite Hp, Hm.
  - by exists "+"%char, (append (String c r) tail).
  - by exists "-"%char, (append (String c r) tail).
Qed.

Lemma special_none sg ds tail :
  text.digits ds -> special (append (text.sign_text sg) (append ds tail)) = None.
Proof.
  intros Hd. destruct (digits_cons _ Hd) as (c & r & -> & Hc & _).
  destruct (digit_class c Hc) as (_ & _ & Hp & Hm & Hi & HI & Hn & HN & _).
  pose proof (digit_byte c Hc) as Hb.
  assert (Hinf : commonPrefixLenIgnoreCase (append (String c r) tail) "infinity" = 0).
  { rewrite append_cons. cbn [commonPrefixLenIgnoreCase].
    destruct (Z.leb_spec 65 (byte_val c)); [lia|]. cbn [andb].
    change (byte_val "i") with 105. destruct (Z.eqb_spec (byte_val c) 105); [lia|done]. }
  destruct sg; cbn [text.sign_text].
  - rewrite append_nil_l, append_cons. unfold special. by rewrite Hp, Hm, Hi, HI, Hn, HN.
  - change (append "+" ?x) with (String "+" x). unfold special.
    cbn [Ascii.eqb Bool.eqb orb]. by rewrite Hinf.
  - change (append "-" ?x) with (String "-" x). unfold special.
    cbn [Ascii.eqb Bool.eqb orb]. by rewrite Hinf.
Qed.

Lemma readMantissa_stop st e rest :
  e = "e"%char \/ e = "E"%char ->
  readMantissa false (String e rest) st = (st, String e rest).
Proof. by intros [-> | ->]. Qed.

Lemma value_app a b :
  text.value (append a b) = text.value a * 10 ^ len b + text.value b.
Proof.
  induction a as [|c a IH]; [cbn [text.value]; rewrite append_nil_l; lia|].
  rewrite append_cons. cbn [text.value]. rewrite IH, length_append, Nat2Z.inj_add.
  fold (len a) (len b). rewrite Z.pow_add_r by apply len_nonneg. ring.
Qed.

Lemma no_hex_prefix s1 :
  text.all_dec s1 = true ->
  match s1 with
  | String z (String x (String y r)) =>
      if Ascii.eqb z "0" && (strconv.lower x =? 120) then (true, String y r) else (false, s1)
  | _ => (false, s1)
  end = (false, s1).
Proof.
  destruct s1 as [|z [|x [|y r]]]; try done. cbn [text.all_dec]. intros H.
  apply andb_true_iff in H as [_ H]. apply andb_true_iff in H as [Hx _].
  by rewrite (dec_char_not_x x Hx), andb_false_r.
Qed.

(** The mantissa of a literal: integer digits, then the fraction. *)
Lemma readMantissa_render ip (fp : option string) rest :
  text.digits ip ->
  match fp with Some f => text.digits f | None => True end ->
  rest = EmptyString
  \/ (exists e r, rest = String e r /\ (e = "e"%char \/ e = "E"%char)) ->
  exists st,
    readMantissa false
      (append ip (append (match fp with Some f => String "." f | None => EmptyString end)
                         rest)) st0
    = (st, rest)
    /\ sawdigits st = true /\ underscores st = false
    /\ mantissa st
       = text.value (append ip (match fp with Some f => f | None => EmptyString end))
    /\ (if sawdot st then dp st else nd st) - nd st
       = - len (match fp with Some f => f | None => EmptyString end).
Proof.
  intros Hi Hf Hrest.
  assert (Hstop : forall st, readMantissa false rest st = (st, rest)).
  { intros st. destruct Hrest as [->|(e & r & -> & He)]; [done|by apply readMantissa_stop]. }
  destruct (readMantissa_digits ip
              (append (match fp with Some f => String "." f | None => EmptyString end) rest)
              st0 (proj2 Hi)) as (st1 & Heq & H1 & H2 & H3 & H4 & H5 & H6 & H7);
    [done|done|].
  cbn [st0 sawdot sawdigits underscores mantissa dp nd] in *.
  rewrite Heq. destruct fp as [f|].
  - rewrite append_cons. cbn [readMantissa].
    change (("." =? "_")%char) with false. change (("." =? ".")%char) with true.
    cbv iota. rewrite H1.
    match goal with
    | |- exists st, readMantissa false _ ?s2 = _ /\ _ =>
        destruct (readMantissa_digits f rest s2 (proj2 Hf))
          as (st3 & Heq3 & G1 & G2 & G3 & G4 & G5 & G6 & G7);
        [cbn [nd]; lia|cbn [nd mantissa]; auto|]
    end.
    cbn [sawdot sawdigits underscores mantissa dp nd] in *.
    exists st3. rewrite Heq3, Hstop, G1. rewrite value_app.
    repeat split; auto; try lia.
    + apply G2. right. by destruct Hf.
    + congruence.
  - rewrite append_nil_l, Hstop. exists st1. rewrite H1, append_nil_r.
    change (len "") with 0. repeat split; auto; try lia.
    apply H2. right. by destruct Hi.
Qed.

Lemma readFloat_render l :
  text.well_formed l ->
  readFloat (text.render l)
  = Some {| num_mantissa := text.significand l;
            num_exp := if text.significand l =? 0 then 0 else text.exponent10 l;
            num_neg := text.is_minus (text.lit_sign l);
            num_hex := false; num_rest := EmptyString |}.
Proof.
  destruct l as [sg ip fp ex].
  unfold text.well_formed, text.render, text.significand, text.exponent10, text.frac_digits.
  cbn [text.lit_sign text.lit_int text.lit_frac text.lit_exp].
  intros (Hi & Hf & He & _).
  set (expo := match ex with
               | Some (e, sg', ds) => String e (append (text.sign_text sg') ds)
               | None => EmptyString
               end).
  set (frac := match fp with Some f => String "." f | None => EmptyString end).
  assert (Hdec : text.all_dec (append ip (append frac expo)) = true).
  { rewrite all_dec_app, (all_digits_all_dec ip (proj2 Hi)).
    by apply (render_tail_dec fp ex). }
  destruct (sign_strip sg ip (append frac expo) Hi) as (c0 & s0 & Hs & Hneg & Hs1).
  assert (Hrest : expo = EmptyString
                  \/ (exists e r, expo = String e r /\ (e = "e"%char \/ e = "E"%char))).
  { subst expo. destruct ex as [[[e sg'] ds]|]; [right|by left].
    exists e, (append (text.sign_text sg') ds). split; [done|apply He]. }
  destruct (readMantissa_render ip fp expo Hi Hf Hrest)
    as (st & Hst & Hsd & Hus & Hm & Hdp).
  fold frac in Hst.
  unfold readFloat. rewrite Hs. cbv beta iota zeta. rewrite Hs1, Hneg.
  rewrite (no_hex_prefix _ Hdec). cbv beta iota zeta.
  fold st0. rewrite Hst. cbv beta iota zeta. rewrite Hsd. cbn [negb].
  rewrite Hus, Hm. cbn [andb].
  subst expo. destruct ex as [[[e sg'] ds]|].
  - destruct He as (He & Hd & Hcap).
    assert (Hle : (strconv.lower e =? 101) = true) by (by destruct He as [-> | ->]).
    rewrite Hle.
    destruct (sign_strip sg' ds EmptyString Hd) as (c4 & s5 & Hs4 & Hneg4 & Hs6).
    rewrite append_nil_r in Hs4, Hs6. rewrite Hs4, Hs6, Hneg4.
    destruct (digits_cons _ Hd) as (c6 & r6 & Hds & Hc6 & _).
    rewrite Hds at 1. rewrite Hc6. cbn [negb].
    rewrite (readExponent_digits ds 0 false (proj2 Hd)); [|done|lia].
    rewrite Z.mul_0_l, Z.add_0_l. cbn [andb]. do 2 f_equal.
    destruct (text.value (append ip _) =? 0); [done|].
    unfold len in Hdp. destruct (text.is_minus sg'); lia.
  - cbn [andb]. do 2 f_equal.
    destruct (text.value (append ip _) =? 0); [done|]. unfold len in Hdp. lia.
Qed.

Lemma of_decimal_zero neg e : f64.of_decimal neg 0 e = S754_zero neg.
Proof. unfold f64.of_decimal. by destruct (0 <=? e). Qed.

Lemma lowercase_length s : String.length (text.lowercase s) = String.length s.
Proof. induction s as [|c s IH]; [done|]. cbn. by rewrite IH. Qed.

Lemma fold_case_byte c :
  byte_val (text.fold_case c)
  = if (65 <=? byte_val c) && (byte_val c <=? 90) then byte_val c + 32 else byte_val c.
Proof.
  unfold text.fold_case.
  destruct ((65 <=? byte_val c) && (byte_val c <=? 90)) eqn:H; [|done].
  apply andb_true_iff in H as [H1 H2]. unfold byte_of.
  unfold byte_val at 1. rewrite N_ascii_embedding, Z2N.id; lia.
Qed.

(** A text that is a prefix of a word up to case matches it through its
    whole length. *)
Lemma commonPrefix_lowercase w : forall p',
  commonPrefixLenIgnoreCase w (append (text.lowercase w) p') = len w.
Proof.
  induction w as [|c w IH]; intros p'; [done|].
  cbn [text.lowercase]. rewrite append_cons. cbn [commonPrefixLenIgnoreCase]. cbv zeta.
  rewrite fold_case_byte, Z.eqb_refl, IH, len_cons. lia.
Qed.

Lemma fold_case_first c :
  (text.fold_case c = "i"%char ->
   Ascii.eqb c "+" || Ascii.eqb c "-" = false /\ Ascii.eqb c "i" || Ascii.eqb c "I" = true)
  /\ (text.fold_case c = "n"%char ->
      Ascii.eqb c "+" || Ascii.eqb c "-" = false /\ Ascii.eqb c "i" || Ascii.eqb c "I" = false
      /\ Ascii.eqb c "n" || Ascii.eqb c "N" = true).
Proof.
  destruct c as [[] [] [] [] [] [] [] []]; vm_compute; split; intros H;
    (discriminate H || by repeat split).
Qed.

Lemma inf_length w :
  text.lowercase w = "inf"%string \/ text.lowercase w = "infinity"%string ->
  commonPrefixLenIgnoreCase w "infinity" = len w /\ (len w = 3 \/ len w = 8)
  /\ exists c w', w = String c w' /\ text.fold_case c = "i"%char.
Proof.
  intros Hw. pose proof (lowercase_length w) as Hl.
  assert (Hc : exists c w', w = String c w' /\ text.fold_case c = "i"%char).
  { destruct w as [|c w']; [by destruct Hw|]. exists c, w'. split; [done|].
    cbn [text.lowercase] in Hw. by destruct Hw as [[= -> _]|[= -> _]]. }
  destruct Hw as [Hw|Hw]; rewrite Hw in Hl.
  - pose proof (commonPrefix_lowercase w "inity") as H. rewrite Hw in H.
    change (append "inf" "inity") with "infinity"%string in H.
    assert (len w = 3) by (unfold len; rewrite <- Hl; reflexivity).
    split; [done|]. split; [by left|done].
  - pose proof (commonPrefix_lowercase w "") as H. rewrite Hw in H.
    change (append "infinity" "") with "infinity"%string in H.
    assert (len w = 8) by (unfold len; rewrite <- Hl; reflexivity).
    split; [done|]. split; [by right|done].
Qed.

Lemma special_inf sg w :
  text.lowercase w = "inf"%string \/ text.lowercase w = "infinity"%string ->
  special (append (text.sign_text sg) w)
  = Some (S754_infinity (text.is_minus sg), len (append (text.sign_text sg) w)).
Proof.
  intros Hw. destruct (inf_length w Hw) as (Hcpl & Hlen & c & w' & Hcw & Hc).
  destruct (proj1 (fold_case_first c) Hc) as [Hsign Hi].
  assert (Hinf : forall neg nsign,
            (if ((if (3 <? commonPrefixLenIgnoreCase w "infinity")
                     && (commonPrefixLenIgnoreCase w "infinity" <? 8)
                  then 3 else commonPrefixLenIgnoreCase w "infinity") =? 3)
                || ((if (3 <? commonPrefixLenIgnoreCase w "infinity")
                        && (commonPrefixLenIgnoreCase w "infinity" <? 8)
                     then 3 else commonPrefixLenIgnoreCase w "infinity") =? 8)
             then Some (S754_infinity neg,
                        nsign + (if (3 <? commonPrefixLenIgnoreCase w "infinity")
                                    && (commonPrefixLenIgnoreCase w "infinity" <? 8)
                                 then 3 else commonPrefixLenIgnoreCase w "infinity"))
             else None)
            = Some (S754_infinity neg, nsign + len w)).
  { intros neg nsign. rewrite Hcpl. by destruct Hlen as [-> | ->]. }
  destruct sg; cbn [text.sign_text text.is_minus].
  - rewrite append_nil_l. subst w. unfold special. rewrite Hsign, Hi. cbv beta zeta.
    by rewrite (Hinf false 0).
  - change (append "+" w) with (String "+" w). unfold special.
    cbn [Ascii.eqb Bool.eqb orb]. cbv beta zeta.
    rewrite (Hinf false 1), len_cons. do 2 f_equal. lia.
  - change (append "-" w) with (String "-" w). unfold special.
    cbn [Ascii.eqb Bool.eqb orb]. cbv beta zeta.
    rewrite (Hinf true 1), len_cons. do 2 f_equal. lia.
Qed.

Lemma special_nan w :
  text.lowercase w = "nan"%string -> special w = Some (S754_nan, len w).
Proof.
  intros Hw. pose proof (lowercase_length w) as Hl. rewrite Hw in Hl.
  pose proof (commonPrefix_lowercase w "") as H. rewrite Hw in H.
  change (append "nan" "") with "nan"%string in H.
  assert (Hlen : len w = 3) by (unfold len; rewrite <- Hl; reflexivity).
  destruct w as [|c w']; [discriminate Hw|].
  cbn [text.lowercase] in Hw. injection Hw as Hc _.
  destruct (proj2 (fold_case_first c) Hc) as (Hsign & Hi & Hn).
  unfold special. rewrite Hsign, Hi, Hn, H, Hlen. reflexivity.
Qed.

(** [ParseFloat] reads every decimal literal as the float64 nearest to
    the number it denotes, and the words inf, infinity and nan as the
    values they name. *)
Lemma ParseFloat_FloatText s v : text.FloatText s v -> ParseFloat s = (v, None).
Proof.
  intros [l Hwf Hfin|sg w Hw|w Hw]; unfold ParseFloat;
    [|by rewrite (special_inf sg w Hw), Z.eqb_refl
     |by rewrite (special_nan w Hw), Z.eqb_refl].
  assert (Hsp : special (text.render l) = None).
  { destruct l as [sg ip fp ex]. destruct Hwf as (Hi & _). by apply special_none. }
  rewrite Hsp, (readFloat_render l Hwf). cbn [num_rest].
  assert (Hv : value {| num_mantissa := text.significand l;
                        num_exp := if text.significand l =? 0 then 0 else text.exponent10 l;
                        num_neg := text.is_minus (text.lit_sign l);
                        num_hex := false; num_rest := EmptyString |}
               = f64.of_decimal (text.is_minus (text.lit_sign l)) (text.significand l)
                   (text.exponent10 l)).
  { unfold value. cbn [num_hex num_neg num_mantissa num_exp].
    destruct (Z.eqb_spec (text.significand l) 0) as [->|_]; [|done].
    by rewrite !of_decimal_zero. }
  by rewrite Hv, Hfin.
Qed.





Lemma all_of_app p s t : text.all_of p (append s t) = text.all_of p s && text.all_of p t.
Proof.
  induction s as [|c s IH]; [done|]. rewrite append_cons. cbn [text.all_of].
  by rewrite IH, andb_assoc.
Qed.

Lemma no_underscore_separated isd s :
  text.all_of text.not_underscore s = true ->
  forall prev, text.separated isd prev s = true.
Proof.
  induction s as [|c s IH]; [done|]. cbn [text.all_of text.separated]. intros H prev.
  apply andb_true_iff in H as [Hc Hs]. unfold text.not_underscore in Hc.
  apply negb_true_iff in Hc. rewrite Hc. by apply IH.
Qed.
















Lemma digits_shape s :
  text.all_digits s = true ->
  text.all_of (text.mant_char false) s = true
  /\ text.all_of text.exp_char s = true
  /\ text.all_of text.not_underscore s = true
  /\ text.dots s = O
  /\ (s <> EmptyString -> text.some_of (text.mant_digit false) s = true).
Proof.
  induction s as [|c s IH]; [done|]. cbn [text.all_digits]. intros H.
  apply andb_true_iff in H as [Hc Hs]. destruct (IH Hs) as (H1 & H2 & H3 & H4 & _).
  destruct (digit_class c Hc) as (Hus & Hdot & _).
  cbn [text.all_of text.dots text.some_of].
  unfold text.mant_char at 1, text.exp_char at 1, text.not_underscore at 1,
    text.mant_digit at 1 2.
  by rewrite Hc, Hus, Hdot, H1, H2, H3, H4.
Qed.

Lemma dots_app s t : text.dots (append s t) = (text.dots s + text.dots t)%nat.
Proof.
  induction s as [|c s IH]; [done|]. rewrite append_cons. cbn [text.dots]. rewrite IH. lia.
Qed.

Lemma some_of_app_l p s t : text.some_of p s = true -> text.some_of p (append s t) = true.
Proof.
  induction s as [|c s IH]; [done|]. rewrite append_cons. cbn [text.some_of].
  intros H. apply orb_true_iff in H as [->|H]; [done|]. by rewrite IH, orb_true_r.
Qed.

(** Every float text has the shape of a float. *)
Lemma FloatText_syntax s v : text.FloatText s v -> text.FloatSyntax s.
Proof.
  intros [l Hwf _|sg w Hw|w Hw];
    [|by apply text.FloatSyntax_inf|by apply text.FloatSyntax_nan].
  destruct l as [sg ip fp ex]. unfold text.render.
  destruct Hwf as (Hi & Hf & He & _).
  cbn [text.lit_sign text.lit_int text.lit_frac text.lit_exp] in *.
  set (frac := match fp with Some f => String "." f | None => EmptyString end).
  set (expo := match ex with
               | Some (e, sg', ds) => String e (append (text.sign_text sg') ds)
               | None => EmptyString
               end).
  rewrite <- (append_assoc ip frac expo).
  destruct (digits_shape ip (proj2 Hi)) as (Hi1 & _ & Hi3 & Hi4 & Hi5).
  assert (Hfrac : text.all_of (text.mant_char false) frac = true
                  /\ text.all_of text.not_underscore frac = true
                  /\ (text.dots frac <= 1)%nat).
  { subst frac. destruct fp as [f|]; [|split; [done|split; [done|cbn; lia]]].
    destruct (digits_shape f (proj2 Hf)) as (Hf1 & _ & Hf3 & Hf4 & _).
    cbn [text.all_of text.dots]. rewrite Hf1, Hf3, Hf4.
    split; [done|]. split; [done|]. cbn. lia. }
  destruct Hfrac as (Hf1 & Hf3 & Hf4).
  assert (Hexpo : (expo = EmptyString \/ text.ExponentSyntax false expo)
                  /\ text.all_of text.not_underscore expo = true).
  { subst expo. destruct ex as [[[e sg'] ds]|]; [|by split; [left|]].
    destruct He as (He & Hd & _).
    destruct (digits_cons _ Hd) as (c & r & Hds & Hc & Hr).
    destruct (digits_shape ds (proj2 Hd)) as (_ & _ & Hd3 & _).
    destruct (digits_shape r Hr) as (_ & Hr2 & _).
    split.
    - right. exists e, sg', c, r. by rewrite Hds.
    - cbn [text.all_of]. rewrite all_of_app, Hd3.
      by destruct He as [-> | ->], sg'. }
  destruct Hexpo as (Hex & Hex3).
  apply text.FloatSyntax_decimal; [|done|].
  - split; [by rewrite all_of_app, Hi1, Hf1|].
    split; [apply some_of_app_l, Hi5, Hi|]. rewrite dots_app, Hi4. lia.
  - apply no_underscore_separated. by rewrite !all_of_app, Hi3, Hf3, Hex3.
Qed.

End ParseFloatFacts.

(** * The claims about the getters *)

Section GetterClaims.

Import rcm.

(** C4. For a key of the snapshot, each getter returns the value that the
    stored string denotes and no error, whenever the string is a valid
    text of the getter's type: an int text for GetInt, a float text for
    GetFloat, a bool text for GetBool, a duration text for GetDuration;
    GetString returns the stored string as it is. *)
Theorem getters_decode_valid_text rcm key s :
  config rcm !! key = Some s ->
  (forall v, text.IntText s v -> GetInt rcm key = (v, None))
  /\ (forall v, text.FloatText s v -> GetFloat rcm key = (v, None))
  /\ GetString rcm key = (s, None)
  /\ (forall v, text.BoolText s v -> GetBool rcm key = (v, None))
  /\ (forall v, text.DurationText s v -> GetDuration rcm key = (v, None)).
Proof.
  intros Hs. unfold GetInt, GetFloat, GetString, GetBool, GetDuration. rewrite Hs.
  split; [intros v; apply Atoi_IntText|].
  split; [intros v; apply ParseFloat_FloatText|].
  split; [done|].
  split; [intros v; apply ParseBool_BoolText|].
  intros v; apply ParseDuration_DurationText.
Qed.

Lemma getters_decode_valid_text_witness :
  GetInt example.loaded "int_key" = (42, None)
  /\ GetFloat example.loaded "float_key" = (S754_finite false 7070651414971679 (-51), None)
  /\ GetString example.loaded "string_key" = ("test_value"%string, None)
  /\ GetBool example.loaded "bool_key" = (true, None)
  /\ GetDuration example.loaded "duration_key" = (5000000000, None)
  /\ GetDuration {| serviceName := "svc"; config := {["timeout" := "1.5h"%string]};
                    updatedAt := 0 |} "timeout" = (5400000000000, None).
Proof.
  split; [|split; [|split; [|split; [|split]]]].
  - apply (getters_decode_valid_text example.loaded "int_key" "42");
      [vm_compute; reflexivity|].
    apply (text.IntText_unsigned "42"); [split; [discriminate|reflexivity]|vm_compute; reflexivity].
  - apply (getters_decode_valid_text example.loaded "float_key" "3.14");
      [vm_compute; reflexivity|].
    apply (text.FloatText_decimal
             {| text.lit_sign := text.NoSign; text.lit_int := "3";
                text.lit_frac := Some "14"%string; text.lit_exp := None |}).
    + repeat split; try discriminate; try reflexivity. cbn. lia.
    + vm_compute. reflexivity.
  - apply (getters_decode_valid_text example.loaded "string_key" "test_value").
    vm_compute. reflexivity.
  - apply (getters_decode_valid_text example.loaded "bool_key" "true");
      [vm_compute; reflexivity|constructor].
  - apply (getters_decode_valid_text example.loaded "duration_key" "5s");
      [vm_compute; reflexivity|].
    apply text.DurationText_unsigned; [|vm_compute; reflexivity].
    apply text.Groups_one.
    apply (text.Group_whole "5" "s" 1000000000); [split; [discriminate|reflexivity]|constructor].
  - apply (getters_decode_valid_text
             {| serviceName := "svc"; config := {["timeout" := "1.5h"%string]};
                updatedAt := 0 |} "timeout" "1.5h");
      [vm_compute; reflexivity|].
    apply text.DurationText_unsigned; [|vm_compute; reflexivity].
    apply text.Groups_one.
    apply (text.Group_fraction "1" "5" "h" 3600000000000);
      [reflexivity|reflexivity|by left|constructor|vm_compute; reflexivity].
Defined.

(** C5. For a key that is not in the snapshot, each getter returns the
    zero value with the error "key not found" (NotFoundError), and each
    WithDefault variant returns the default it was given. *)
Theorem getters_not_found rcm key :
  config rcm !! key = None ->
  (GetInt rcm key = (0, Some (ErrKeyNotFound key))
   /\ GetFloat rcm key = (S754_zero false, Some (ErrKeyNotFound key))
   /\ GetString rcm key = (EmptyString, Some (ErrKeyNotFound key))
   /\ GetBool rcm key = (false, Some (ErrKeyNotFound key))
   /\ GetDuration rcm key = (0, Some (ErrKeyNotFound key)))
  /\ (is_NotFoundError (snd (GetInt rcm key)) = true
      /\ is_NotFoundError (snd (GetFloat rcm key)) = true
      /\ is_NotFoundError (snd (GetString rcm key)) = true
      /\ is_NotFoundError (snd (GetBool rcm key)) = true
      /\ is_NotFoundError (snd (GetDuration rcm key)) = true)
  /\ (forall d, GetIntWithDefault rcm key d = d)
  /\ (forall d, GetFloatWithDefault rcm key d = d)
  /\ (forall d, GetStringWithDefault rcm key d = d)
  /\ (forall d, GetBoolWithDefault rcm key d = d)
  /\ (forall d, GetDurationWithDefault rcm key d = d).
Proof.
  intros H.
  unfold GetIntWithDefault, GetFloatWithDefault, GetStringWithDefault,
    GetBoolWithDefault, GetDurationWithDefault,
    GetInt, GetFloat, GetString, GetBool, GetDuration.
  rewrite H. by repeat split.
Qed.

Lemma getters_not_found_witness :
  (GetInt example.loaded "missing" = (0, Some (ErrKeyNotFound "missing"))
   /\ GetFloat example.loaded "missing" = (S754_zero false, Some (ErrKeyNotFound "missing"))
   /\ GetString example.loaded "missing" = (EmptyString, Some (ErrKeyNotFound "missing"))
   /\ GetBool example.loaded "missing" = (false, Some (ErrKeyNotFound "missing"))
   /\ GetDuration example.loaded "missing" = (0, Some (ErrKeyNotFound "missing")))
  /\ (is_NotFoundError (snd (GetInt example.loaded "missing")) = true
      /\ is_NotFoundError (snd (GetFloat example.loaded "missing")) = true
      /\ is_NotFoundError (snd (GetString example.loaded "missing")) = true
      /\ is_NotFoundError (snd (GetBool example.loaded "missing")) = true
      /\ is_NotFoundError (snd (GetDuration example.loaded "missing")) = true)
  /\ (forall d, GetIntWithDefault example.loaded "missing" d = d)
  /\ (forall d, GetFloatWithDefault example.loaded "missing" d = d)
  /\ (forall d, GetStringWithDefault example.loaded "missing" d = d)
  /\ (forall d, GetBoolWithDefault example.loaded "missing" d = d)
  /\ (forall d, GetDurationWithDefault example.loaded "missing" d = d).
Proof.
  apply (getters_not_found example.loaded "missing"). vm_compute. reflexivity.
Defined.





(** C2, as the code has it. GetBool parses the stored string with
    strconv.ParseBool and coerces nothing else: for a key that holds the
    string 1 it returns true and no error, 1 being one of the twelve
    spellings ParseBool accepts; each of the twelve is read as the boolean
    it spells; for a key whose stored string is none of the twelve GetBool
    returns false and a ParseError. *)
Theorem GetBool_parses_text rcm key :
  (config rcm !! key = Some "1"%string -> GetBool rcm key = (true, None))
  /\ (forall s b, config rcm !! key = Some s -> text.BoolText s b ->
        GetBool rcm key = (b, None))
  /\ (forall s, config rcm !! key = Some s -> (forall b, ~ text.BoolText s b) ->
        fst (GetBool rcm key) = false
        /\ is_ParseError (snd (GetBool rcm key)) = true).
Proof.
  unfold GetBool. split; [by intros ->|]. split.
  - intros s b -> Hb. by apply ParseBool_BoolText.
  - intros s -> Hs.
    destruct (ParseBool_cases s) as [(b & Hb & _)|[_ ->]]; [by destruct (Hs b)|done].
Qed.

Lemma GetBool_parses_text_witness :
  GetBool example.flag_store "flag" = (true, None)
  /\ fst (GetBool example.flag_store "mode") = false
  /\ is_ParseError (snd (GetBool example.flag_store "mode")) = true.
Proof.
  split.
  - apply (GetBool_parses_text example.flag_store "flag"). vm_compute. reflexivity.
  - apply (proj2 (proj2 (GetBool_parses_text example.flag_store "mode")) "yes").
    + vm_compute. reflexivity.
    + intros b H. inversion H.
Defined.

(** C2, as stated, fails: the key flag holds the string 1, and GetBool
    returns true with no error, not a ParseError. *)
Lemma GetBool_1_is_true :
  config example.flag_store !! "flag" = Some "1"%string
  /\ GetBool example.flag_store "flag" = (true, None)
  /\ is_ParseError (snd (GetBool example.flag_store "flag")) = false.
Proof. repeat split; vm_compute; reflexivity. Qed.

(** C8. With the payload of the tests under the namespace key of a store
    that has no key missing, one LoadConfig succeeds, and afterwards
    GetInt of int_key is 42, GetDuration of duration_key is five seconds,
    both without error, and GetString of missing fails with the
    NotFoundError. *)
Theorem end_to_end r now rcm :
  r (serviceName rcm) = (example.payload, None) ->
  config rcm !! "missing" = None ->
  snd (LoadConfig r now rcm) = None
  /\ GetInt (fst (LoadConfig r now rcm)) "int_key" = (42, None)
  /\ GetDuration (fst (LoadConfig r now rcm)) "duration_key" = (5 * time.Second, None)
  /\ GetString (fst (LoadConfig r now rcm)) "missing"
     = (EmptyString, Some (ErrKeyNotFound "missing"))
  /\ is_NotFoundError (snd (GetString (fst (LoadConfig r now rcm)) "missing")) = true.
Proof.
  intros Hr Hmiss.
  destruct (json.Unmarshal example.payload) as [m e] eqn:Hm.
  assert (He : e = None) by (by vm_compute in Hm; injection Hm as _ <-).
  subst e.
  assert (Hint : (fmt.Sprintf_v <$> m) !! "int_key" = Some "42"%string).
  { replace m with (fst (json.Unmarshal example.payload)) by (by rewrite Hm).
    vm_compute. reflexivity. }
  assert (Hdur : (fmt.Sprintf_v <$> m) !! "duration_key" = Some "5s"%string).
  { replace m with (fst (json.Unmarshal example.payload)) by (by rewrite Hm).
    vm_compute. reflexivity. }
  assert (Hnone : (fmt.Sprintf_v <$> m) !! "missing" = None).
  { replace m with (fst (json.Unmarshal example.payload)) by (by rewrite Hm).
    vm_compute. reflexivity. }
  rewrite (LoadConfig_success r now rcm _ m Hr Hm). cbn [fst snd].
  unfold GetInt, GetDuration, GetString. cbn [config].
  rewrite (lookup_union_Some_l _ _ _ _ Hint), (lookup_union_Some_l _ _ _ _ Hdur).
  rewrite (lookup_union_r _ _ _ Hnone), Hmiss.
  repeat split; vm_compute; reflexivity.
Qed.

Lemma end_to_end_witness :
  snd (LoadConfig (example.serving "svc" example.payload) 10 (NewRedisConfigManager "svc"))
  = None
  /\ GetInt (fst (LoadConfig (example.serving "svc" example.payload) 10
                    (NewRedisConfigManager "svc"))) "int_key" = (42, None)
  /\ GetDuration (fst (LoadConfig (example.serving "svc" example.payload) 10
                         (NewRedisConfigManager "svc"))) "duration_key"
     = (5 * time.Second, None)
  /\ GetString (fst (LoadConfig (example.serving "svc" example.payload) 10
                       (NewRedisConfigManager "svc"))) "missing"
     = (EmptyString, Some (ErrKeyNotFound "missing"))
  /\ is_NotFoundError
       (snd (GetString (fst (LoadConfig (example.serving "svc" example.payload) 10
                               (NewRedisConfigManager "svc"))) "missing")) = true.
Proof.
  apply (end_to_end (example.serving "svc" example.payload) 10
           (NewRedisConfigManager "svc")); vm_compute; reflexivity.
Defined.

Lemma IntText_plain s v : text.IntText s v -> text.plain_decimal s = true.
Proof.
  destruct 1 as [ds Hd _|ds Hd _|ds Hd _]; unfold text.plain_decimal.
  - destruct (digits_cons _ Hd) as (c & r & -> & Hc & _).
    destruct (is_digit_not_sign c Hc) as (Hp & Hm & _). rewrite Hp, Hm. apply Hd.
  - cbn [Ascii.eqb Bool.eqb orb]. destruct Hd as [Hne Hd]. rewrite Hd.
    by destruct ds.
  - cbn [Ascii.eqb Bool.eqb orb]. destruct Hd as [Hne Hd]. rewrite Hd.
    by destruct ds.
Qed.

(** Every number of a payload is decoded as a float64. *)
Lemma convertNumber_float64 text v :
  json.convertNumber text = (v, None) ->
  v = AFloat64 (fst (atof.ParseFloat text)) /\ snd (atof.ParseFloat text) = None.
Proof.
  unfold json.convertNumber. destruct (atof.ParseFloat text) as [f [e|]]; [discriminate|].
  by intros [= <-].
Qed.

(** C10. A payload number is stored as the %v text of its float64. The
    payload with the integer 10000000 under the key limit loads without
    error, the snapshot then holds the string 1e+07 for it, and GetInt of
    limit fails with a ParseError. In general, after a successful
    LoadConfig a key whose payload value is the float64 f holds the %v text
    of f, and GetInt of that key succeeds only if this text is a plain
    decimal string. *)
Theorem GetInt_of_float_text :
  (snd (LoadConfig (example.serving "svc" example.big_payload) 10
          (NewRedisConfigManager "svc")) = None
   /\ fst (json.Unmarshal example.big_payload) !! "limit"
      = Some (AFloat64 (f64.of_Z 10000000))
   /\ config (fst (LoadConfig (example.serving "svc" example.big_payload) 10
                     (NewRedisConfigManager "svc"))) !! "limit" = Some "1e+07"%string
   /\ GetInt (fst (LoadConfig (example.serving "svc" example.big_payload) 10
                     (NewRedisConfigManager "svc"))) "limit"
      = (0, Some (NumError "Atoi" "1e+07" ErrSyntax))
   /\ is_ParseError
        (snd (GetInt (fst (LoadConfig (example.serving "svc" example.big_payload) 10
                             (NewRedisConfigManager "svc"))) "limit")) = true)
  /\ (forall r now rcm rcm' raw m key f,
       r (serviceName rcm) = (raw, None) ->
       json.Unmarshal raw = (m, None) ->
       m !! key = Some (AFloat64 f) ->
       LoadConfig r now rcm = (rcm', None) ->
       config rcm' !! key = Some (ftoa.FormatFloat_g f)
       /\ (snd (GetInt rcm' key) = None ->
           text.plain_decimal (ftoa.FormatFloat_g f) = true)).
Proof.
  split; [repeat split; vm_compute; reflexivity|].
  intros r now rcm rcm' raw m key f Hr Hm Hk HL.
  rewrite (LoadConfig_success r now rcm raw m Hr Hm) in HL. injection HL as <-.
  assert (Hcfg : ((fmt.Sprintf_v <$> m) ∪ config rcm) !! key = Some (ftoa.FormatFloat_g f)).
  { apply lookup_union_Some_l. by rewrite lookup_fmap, Hk. }
  split; [exact Hcfg|]. unfold GetInt. cbn [config]. rewrite Hcfg.
  destruct (strconv.Atoi (ftoa.FormatFloat_g f)) as [v [e|]] eqn:HA; [discriminate|].
  intros _. eapply IntText_plain, Atoi_ok, HA.
Qed.

(** The general part of C10 at a payload number that GetInt does read. *)
Example GetInt_of_float_text_42 :
  GetInt example.loaded "int_key" = (42, None)
  /\ text.plain_decimal (ftoa.FormatFloat_g (f64.of_Z 42)) = true.
Proof. split; vm_compute; reflexivity. Qed.

End GetterClaims.

(** * The claims about StopLoading *)

Section LifecycleClaims.

Import rcm lifecycle.

Lemma live_app ts t : live (ts ++ [t]) = (live ts + live [t])%nat.
Proof. induction ts as [|[] ts IH]; cbn [app live]; try done; by rewrite IH. Qed.

Lemma live_insert ts i t0 t :
  ts !! i = Some t0 ->
  (live (<[i := t]> ts) + live [t0] = live ts + live [t])%nat.
Proof.
  revert i. induction ts as [|x ts IH]; intros [|i]; try done.
  - intros [= ->]. change (<[0%nat := t]> (t0 :: ts)) with (t :: ts).
    destruct t0, t; cbn [live]; lia.
  - intros H. change ((x :: ts) !! S i) with (ts !! i) in H. specialize (IH i H).
    change (<[S i := t]> (x :: ts)) with (x :: <[i := t]> ts).
    destruct x, t0, t; cbn [live] in *; lia.
Qed.

Lemma live_0_all_exited ts : live ts = O -> forallb (Task_eqb Exited) ts = true.
Proof.
  induction ts as [|[] ts IH]; cbn [live forallb Task_eqb andb]; try done.
Qed.

Lemma all_exited_not_in_flight ts :
  forallb (Task_eqb Exited) ts = true -> existsb (Task_eqb InLoadConfig) ts = false.
Proof.
  induction ts as [|[] ts IH]; cbn [forallb existsb Task_eqb andb orb]; try done.
Qed.

Lemma Inv_init name : Inv (init name).
Proof. by split. Qed.

Lemma Inv_fire ev s s' : Inv s -> fire ev s = Some s' -> Inv s'.
Proof.
  intros [Hwg Hst]. destruct ev as [|i|i r now|i|]; cbn [fire].
  - destruct (stopped s) eqn:Hs; try discriminate. intros [= <-].
    split; cbn [wg tasks stopped cancelled closes].
    + rewrite live_app. cbn [live]. lia.
    + done.
  - destruct (tasks s !! i) as [[]|] eqn:Hi; try discriminate. intros [= <-].
    split; cbn [set_task wg tasks stopped cancelled closes]; [|done].
    pose proof (live_insert _ _ _ InLoadConfig Hi) as H. cbn [live] in H. lia.
  - destruct (tasks s !! i) as [[]|] eqn:Hi; try discriminate. intros [= <-].
    split; cbn [set_task wg tasks stopped cancelled closes]; [|done].
    pose proof (live_insert _ _ _ AtSelect Hi) as H. cbn [live] in H. lia.
  - destruct (tasks s !! i) as [[]|] eqn:Hi; try discriminate.
    destruct (cancelled s) eqn:Hc; try discriminate. intros [= <-].
    pose proof (live_insert _ _ _ Exited Hi) as H. cbn [live] in H.
    split; cbn [set_task wg tasks stopped cancelled closes]; [lia|].
    destruct (stopped s) as [|[|[|[|]]]]; intuition lia.
  - destruct (stopped s) as [|[|[|[|]]]] eqn:Hs; cbn [StopLoading nth_error exec];
      try discriminate; try done.
    + intros [= <-]. split; cbn [wg tasks stopped cancelled closes]; [done|].
      rewrite Hs. intuition.
    + intros [= <-]. split; cbn [wg tasks stopped cancelled closes]; [done|].
      rewrite Hs. intuition congruence.
    + destruct (wg s) eqn:Hw; try discriminate. intros [= <-].
      split; cbn [wg tasks stopped cancelled closes]; [done|].
      rewrite Hs. intuition.
Qed.

Lemma Inv_run evs s s' : Inv s -> run evs s = Some s' -> Inv s'.
Proof.
  revert s. induction evs as [|ev evs IH]; intros s HI; cbn [run].
  - by intros [= <-].
  - destruct (fire ev s) as [s1|] eqn:Hf; [|discriminate].
    apply IH. by eapply Inv_fire.
Qed.

(** [wg.Wait()] returns only when every goroutine has exited, and the
    connection is never closed more than once. *)
Lemma Wait_blocks name evs s :
  run evs (init name) = Some s ->
  (forall s', exec Wait s = Some s' -> all_exited s = true)
  /\ (closes s <= 1)%nat.
Proof.
  intros Hrun. pose proof (Inv_run _ _ _ (Inv_init name) Hrun) as [Hwg Hst]. split.
  - intros s'. cbn [exec]. destruct (wg s) eqn:Hw; try discriminate. intros _.
    by apply live_0_all_exited.
  - destruct (stopped s) as [|[|[|[|]]]]; intuition lia.
Qed.

(** C9, as the code has it. [StopLoading] cancels the context, then closes
    the connection, then waits. In every run from the initial state, once
    [StopLoading] has returned the context is cancelled, the connection has
    been closed exactly once, every goroutine has exited and no refresh is
    in flight. *)
Theorem StopLoading_waits name evs s :
  run evs (init name) = Some s ->
  returned s = true ->
  cancelled s = true /\ closes s = 1%nat /\ all_exited s = true /\ in_flight s = false.
Proof.
  intros Hrun Hret.
  pose proof (Inv_run _ _ _ (Inv_init name) Hrun) as [Hwg Hst].
  unfold returned in Hret. apply Nat.eqb_eq in Hret. cbn [StopLoading length] in Hret.
  rewrite Hret in Hst. destruct Hst as (Hc & Hcl & H0). rewrite H0 in Hwg.
  symmetry in Hwg. apply live_0_all_exited in Hwg.
  repeat split; try done. by apply all_exited_not_in_flight.
Qed.

Lemma StopLoading_waits_witness :
  cancelled (final example.stop_trace (init "svc")) = true
  /\ closes (final example.stop_trace (init "svc")) = 1%nat
  /\ all_exited (final example.stop_trace (init "svc")) = true
  /\ in_flight (final example.stop_trace (init "svc")) = false.
Proof.
  apply (StopLoading_waits "svc" example.stop_trace); vm_compute; reflexivity.
Defined.

(** C9, as stated, fails: a refresh that the ticker started before
    [StopLoading] was called is still in flight when [StopLoading] has
    closed the connection and has not yet returned; the close comes before
    the wait. *)
Lemma Close_during_refresh :
  exists s,
    run example.race_trace (init "svc") = Some s
    /\ returned s = false /\ closes s = 1%nat /\ in_flight s = true.
Proof. eexists. split; [vm_compute; reflexivity|]. repeat split. Qed.

End LifecycleClaims.

(** * More about LoadConfig *)

Section LoadConfigMore.

Import rcm.

(** Every call of [LoadConfig] either fails and returns the manager as it
    was, or succeeds with the snapshot overridden by the payload. *)
Lemma LoadConfig_cases r now rcm :
  (snd (LoadConfig r now rcm) <> None /\ fst (LoadConfig r now rcm) = rcm)
  \/ (exists raw m,
        r (serviceName rcm) = (raw, None) /\ json.Unmarshal raw = (m, None)
        /\ LoadConfig r now rcm
           = ({| serviceName := serviceName rcm;
                 config := (fmt.Sprintf_v <$> m) ∪ config rcm;
                 updatedAt := now |}, None)).
Proof.
  destruct (r (serviceName rcm)) as [raw [e|]] eqn:Hr.
  - left. unfold LoadConfig. rewrite Hr. by split.
  - destruct (json.Unmarshal raw) as [m [e|]] eqn:Hm.
    + left. unfold LoadConfig. rewrite Hr, Hm. by split.
    + right. exists raw, m. repeat split; try done. by apply (LoadConfig_success _ _ _ raw).
Qed.

Lemma LoadConfig_keeps_keys r now rcm key :
  is_Some (config rcm !! key) ->
  is_Some (config (fst (LoadConfig r now rcm)) !! key).
Proof.
  intros Hk. destruct (LoadConfig_cases r now rcm) as [[_ ->]|(raw & m & _ & _ & ->)];
    [done|]. cbn [fst config]. rewrite lookup_union. rewrite lookup_fmap.
  destruct Hk as [s ->]. destruct (m !! key); by eexists.
Qed.

Lemma LoadConfig_serviceName r now rcm :
  serviceName (fst (LoadConfig r now rcm)) = serviceName rcm.
Proof.
  by destruct (LoadConfig_cases r now rcm) as [[_ ->]|(raw & m & _ & _ & ->)].
Qed.

(** X1. [LoadConfig] never changes the namespace key and never removes a
    key: whatever the remote answers and whatever the snapshot holds, the
    namespace key after the call is the one before it, and a key that the
    snapshot holds before the call is still held after it, with its old
    value when the call fails. *)
Theorem LoadConfig_never_removes_keys r now rcm :
  serviceName (fst (LoadConfig r now rcm)) = serviceName rcm
  /\ forall key s,
       config rcm !! key = Some s ->
       exists s',
         config (fst (LoadConfig r now rcm)) !! key = Some s'
         /\ (snd (LoadConfig r now rcm) <> None -> s' = s).
Proof.
  split; [apply LoadConfig_serviceName|]. intros key s Hk.
  destruct (LoadConfig_cases r now rcm) as [[_ ->]|(raw & m & _ & _ & ->)].
  - by exists s.
  - cbn [fst snd config]. rewrite lookup_union, lookup_fmap, Hk.
    destruct (m !! key) as [v|]; eexists; (split; [reflexivity|done]).
Qed.

Lemma LoadConfig_never_removes_keys_witness :
  serviceName (fst (LoadConfig (example.serving "svc" example.fresh_payload) 2
                      example.stale_store)) = serviceName example.stale_store
  /\ exists s',
       config (fst (LoadConfig (example.serving "svc" example.fresh_payload) 2
                      example.stale_store)) !! "stale" = Some s'
       /\ (snd (LoadConfig (example.serving "svc" example.fresh_payload) 2
                  example.stale_store) <> None -> s' = "1"%string).
Proof.
  destruct (LoadConfig_never_removes_keys
              (example.serving "svc" example.fresh_payload) 2 example.stale_store)
    as [Hn Hk].
  split; [exact Hn|]. apply Hk. vm_compute. reflexivity.
Defined.

(** X2. Two successful calls of [LoadConfig] in a row leave the second
    payload laid over the first laid over the snapshot: a key takes its
    text from the latest payload that has it, and keeps its old entry when
    neither has it. *)
Theorem LoadConfig_later_payload_wins r1 r2 now1 now2 rcm rcm1 rcm2 :
  LoadConfig r1 now1 rcm = (rcm1, None) ->
  LoadConfig r2 now2 rcm1 = (rcm2, None) ->
  exists raw1 m1 raw2 m2,
    r1 (serviceName rcm) = (raw1, None) /\ json.Unmarshal raw1 = (m1, None)
    /\ r2 (serviceName rcm) = (raw2, None) /\ json.Unmarshal raw2 = (m2, None)
    /\ config rcm2 = (fmt.Sprintf_v <$> m2) ∪ ((fmt.Sprintf_v <$> m1) ∪ config rcm)
    /\ (forall key,
          config rcm2 !! key
          = match m2 !! key, m1 !! key with
            | Some v, _ => Some (fmt.Sprintf_v v)
            | None, Some v => Some (fmt.Sprintf_v v)
            | None, None => config rcm !! key
            end)
    /\ updatedAt rcm2 = now2.
Proof.
  intros H1 H2.
  destruct (LoadConfig_success_inv _ _ _ _ H1) as (raw1 & m1 & Hr1 & Hm1).
  rewrite (LoadConfig_success _ now1 _ _ _ Hr1 Hm1) in H1. injection H1 as <-.
  destruct (LoadConfig_success_inv _ _ _ _ H2) as (raw2 & m2 & Hr2 & Hm2).
  rewrite (LoadConfig_success _ now2 _ _ _ Hr2 Hm2) in H2. injection H2 as <-.
  cbn [serviceName config updatedAt] in *.
  exists raw1, m1, raw2, m2. repeat split; try done.
  intros key. rewrite !lookup_union, !lookup_fmap.
  destruct (m2 !! key), (m1 !! key), (config rcm !! key); done.
Qed.

Lemma LoadConfig_later_payload_wins_witness :
  exists raw1 m1 raw2 m2,
    example.serving "svc" (example.object [("stale", "1")]) "svc" = (raw1, None)
    /\ json.Unmarshal raw1 = (m1, None)
    /\ example.serving "svc" example.fresh_payload "svc" = (raw2, None)
    /\ json.Unmarshal raw2 = (m2, None)
    /\ config (fst (LoadConfig (example.serving "svc" example.fresh_payload) 2
                      example.stale_store))
       = (fmt.Sprintf_v <$> m2) ∪ ((fmt.Sprintf_v <$> m1) ∪ ∅)
    /\ (forall key,
          config (fst (LoadConfig (example.serving "svc" example.fresh_payload) 2
                         example.stale_store)) !! key
          = match m2 !! key, m1 !! key with
            | Some v, _ => Some (fmt.Sprintf_v v)
            | None, Some v => Some (fmt.Sprintf_v v)
            | None, None => (∅ : gmap string string) !! key
            end)
    /\ updatedAt (fst (LoadConfig (example.serving "svc" example.fresh_payload) 2
                         example.stale_store)) = 2.
Proof.
  apply (LoadConfig_later_payload_wins
           (example.serving "svc" (example.object [("stale", "1")]))
           (example.serving "svc" example.fresh_payload) 1 2
           (NewRedisConfigManager "svc") example.stale_store
           (fst (LoadConfig (example.serving "svc" example.fresh_payload) 2
                   example.stale_store))); vm_compute; reflexivity.
Defined.

(** X3. After a successful [LoadConfig], a key of the payload holds the
    [%v] text of its value, which [GetString] returns. For a JSON string
    every typed getter returns what its parser makes of the string itself;
    for a JSON boolean [GetBool] returns it; a JSON [null] is stored as
    the text <nil>, which no typed getter reads. *)
Theorem LoadConfig_then_getters r now rcm raw m key v :
  r (serviceName rcm) = (raw, None) ->
  json.Unmarshal raw = (m, None) ->
  m !! key = Some v ->
  snd (LoadConfig r now rcm) = None
  /\ GetString (fst (LoadConfig r now rcm)) key = (fmt.Sprintf_v v, None)
  /\ (forall d, GetStringWithDefault (fst (LoadConfig r now rcm)) key d = fmt.Sprintf_v v)
  /\ match v with
     | AString s =>
         GetString (fst (LoadConfig r now rcm)) key = (s, None)
         /\ GetInt (fst (LoadConfig r now rcm)) key = strconv.Atoi s
         /\ GetFloat (fst (LoadConfig r now rcm)) key = atof.ParseFloat s
         /\ GetBool (fst (LoadConfig r now rcm)) key = strconv.ParseBool s
         /\ GetDuration (fst (LoadConfig r now rcm)) key = time.ParseDuration s
     | ABool b =>
         GetBool (fst (LoadConfig r now rcm)) key = (b, None)
         /\ (forall d, GetBoolWithDefault (fst (LoadConfig r now rcm)) key d = b)
     | ANil =>
         GetString (fst (LoadConfig r now rcm)) key = ("<nil>"%string, None)
         /\ is_ParseError (snd (GetInt (fst (LoadConfig r now rcm)) key)) = true
         /\ is_ParseError (snd (GetFloat (fst (LoadConfig r now rcm)) key)) = true
         /\ is_ParseError (snd (GetBool (fst (LoadConfig r now rcm)) key)) = true
         /\ is_ParseError (snd (GetDuration (fst (LoadConfig r now rcm)) key)) = true
     | _ => True
     end.
Proof.
  intros Hr Hm Hk. rewrite (LoadConfig_success r now rcm raw m Hr Hm). cbn [fst snd].
  assert (Hcfg : ((fmt.Sprintf_v <$> m) ∪ config rcm) !! key = Some (fmt.Sprintf_v v)).
  { apply lookup_union_Some_l. by rewrite lookup_fmap, Hk. }
  unfold GetStringWithDefault, GetBoolWithDefault, GetString, GetInt, GetFloat,
    GetBool, GetDuration.
  cbn [config]. rewrite Hcfg. repeat split; try done.
  destruct v as [|[]| | | |]; cbn [fmt.Sprintf_v]; repeat split; try done;
    vm_compute; reflexivity.
Qed.

Lemma LoadConfig_then_getters_witness :
  snd (LoadConfig (example.serving "svc" example.payload) 10
         (NewRedisConfigManager "svc")) = None
  /\ GetString example.loaded "duration_key" = (fmt.Sprintf_v (AString "5s"), None)
  /\ (forall d, GetStringWithDefault example.loaded "duration_key" d
                = fmt.Sprintf_v (AString "5s"))
  /\ (GetString example.loaded "duration_key" = ("5s"%string, None)
      /\ GetInt example.loaded "duration_key" = strconv.Atoi "5s"
      /\ GetFloat example.loaded "duration_key" = atof.ParseFloat "5s"
      /\ GetBool example.loaded "duration_key" = strconv.ParseBool "5s"
      /\ GetDuration example.loaded "duration_key" = time.ParseDuration "5s").
Proof.
  apply (LoadConfig_then_getters (example.serving "svc" example.payload) 10
           (NewRedisConfigManager "svc") example.payload
           (fst (json.Unmarshal example.payload)) "duration_key" (AString "5s"));
    vm_compute; reflexivity.
Defined.

(** X4. A payload that is the JSON [null] or the empty object is loaded
    without error: the snapshot stays as it is and the timestamp is set.
    An empty payload is a decoding error and changes nothing. *)
Theorem LoadConfig_null_and_empty rnull robj rempty now rcm :
  rnull (serviceName rcm) = ("null"%string, None) ->
  robj (serviceName rcm) = ("{}"%string, None) ->
  rempty (serviceName rcm) = (EmptyString, None) ->
  LoadConfig rnull now rcm
  = ({| serviceName := serviceName rcm; config := config rcm; updatedAt := now |}, None)
  /\ LoadConfig robj now rcm
     = ({| serviceName := serviceName rcm; config := config rcm; updatedAt := now |}, None)
  /\ LoadConfig rempty now rcm
     = (rcm, Some (ErrUnmarshalConfig (JSONError JSONSyntaxError))).
Proof.
  intros Hn Ho He. repeat split.
  - rewrite (LoadConfig_success rnull now rcm _ ∅ Hn) by (vm_compute; reflexivity).
    by rewrite fmap_empty, (left_id_L ∅ (∪)).
  - rewrite (LoadConfig_success robj now rcm _ ∅ Ho) by (vm_compute; reflexivity).
    by rewrite fmap_empty, (left_id_L ∅ (∪)).
  - unfold LoadConfig. rewrite He. vm_compute json.Unmarshal. done.
Qed.

Lemma LoadConfig_null_and_empty_witness :
  LoadConfig (example.serving "svc" "null") 3 example.stale_store
  = ({| serviceName := "svc"; config := config example.stale_store; updatedAt := 3 |},
     None)
  /\ LoadConfig (example.serving "svc" "{}") 3 example.stale_store
     = ({| serviceName := "svc"; config := config example.stale_store; updatedAt := 3 |},
        None)
  /\ LoadConfig (example.serving "svc" EmptyString) 3 example.stale_store
     = (example.stale_store, Some (ErrUnmarshalConfig (JSONError JSONSyntaxError))).
Proof.
  apply (LoadConfig_null_and_empty (example.serving "svc" "null")
           (example.serving "svc" "{}") (example.serving "svc" EmptyString) 3
           example.stale_store); vm_compute; reflexivity.
Defined.

End LoadConfigMore.

(** * The getters at the edges of their formats *)

Section GetterEdges.

Import rcm.

Lemma digits_len_pos ds : text.digits ds -> 0 < len ds.
Proof.
  intros Hd. destruct (digits_cons _ Hd) as (c & r & -> & _ & _).
  rewrite len_cons. pose proof (len_nonneg r). lia.
Qed.

(** Digits that denote 2^63 or more are at least 19. *)
Lemma big_value_len ds : text.all_digits ds = true -> 2 ^ 63 <= text.value ds -> 19 <= len ds.
Proof.
  intros Hd Hv. destruct (Z.lt_ge_cases (len ds) 19) as [Hl|Hl]; [|done].
  pose proof (len_digits_bound ds Hd Hl). lia.
Qed.

Lemma ParseUint10_big ds :
  text.digits ds ->
  strconv.ParseUint10 ds
  = if text.value ds <=? strconv.maxUint64 then (text.value ds, None)
    else (strconv.maxUint64, Some (strconv.rangeError "ParseUint" ds)).
Proof.
  intros Hd. destruct (digits_cons _ Hd) as (c & r & -> & Hc & Hr).
  unfold strconv.ParseUint10.
  rewrite ParseUint_loop_digits; [| apply Hd | unfold strconv.maxUint64; lia].
  by rewrite Z.mul_0_l, Z.add_0_l.
Qed.

Lemma Atoi_above ds :
  text.digits ds -> 2 ^ 63 <= text.value ds ->
  strconv.Atoi ds = (2 ^ 63 - 1, Some (NumError "Atoi" ds ErrRange)).
Proof.
  intros Hd Hv. pose proof (big_value_len ds (proj2 Hd) Hv) as Hl.
  unfold strconv.Atoi. destruct (Z.ltb_spec (len ds) 19); [lia|]. rewrite andb_false_r.
  destruct (digits_cons _ Hd) as (c & r & Hds & Hc & Hr).
  destruct (is_digit_not_sign c Hc) as (Hp & Hm & _).
  unfold strconv.ParseInt10. rewrite Hds at 1. rewrite Hds at 1.
  rewrite Hp, Hm. cbn [orb]. rewrite <- Hds.
  rewrite (ParseUint10_big ds Hd).
  destruct (Z.leb_spec (text.value ds) strconv.maxUint64).
  - cbn [negb andb]. destruct (Z.geb_spec (text.value ds) (2 ^ 63)); [done|lia].
  - unfold strconv.rangeError. cbn [negb andb].
    destruct (Z.geb_spec strconv.maxUint64 (2 ^ 63)) as [_|H']; [done|].
    unfold strconv.maxUint64 in H'. lia.
Qed.

Lemma Atoi_below ds :
  text.digits ds -> 2 ^ 63 < text.value ds ->
  strconv.Atoi (String "-" ds)
  = (- 2 ^ 63, Some (NumError "Atoi" (String "-" ds) ErrRange)).
Proof.
  intros Hd Hv. pose proof (big_value_len ds (proj2 Hd) ltac:(lia)) as Hl.
  unfold strconv.Atoi. rewrite len_cons.
  destruct (Z.ltb_spec (len ds + 1) 19); [lia|]. rewrite andb_false_r.
  unfold strconv.ParseInt10. cbn [Ascii.eqb Bool.eqb orb].
  rewrite (ParseUint10_big ds Hd).
  destruct (Z.leb_spec (text.value ds) strconv.maxUint64).
  - cbn [negb andb]. destruct (Z.gtb_spec (text.value ds) (2 ^ 63)); [done|lia].
  - unfold strconv.rangeError. cbn [negb andb].
    destruct (Z.gtb_spec strconv.maxUint64 (2 ^ 63)) as [_|H']; [done|].
    unfold strconv.maxUint64 in H'. lia.
Qed.

(** X5. For a key whose stored digits denote a number beyond the 64-bit
    range [GetInt] returns the nearest bound together with the range error
    of [strconv.Atoi]: 2^63 - 1 for digits that denote 2^63 or more, -2^63
    for a minus sign and digits that denote more than 2^63. In both cases
    [GetIntWithDefault] returns the default, not the bound. *)
Theorem GetInt_out_of_range rcm key ds :
  text.digits ds ->
  (config rcm !! key = Some ds -> 2 ^ 63 <= text.value ds ->
   GetInt rcm key = (2 ^ 63 - 1, Some (NumError "Atoi" ds ErrRange))
   /\ forall d, GetIntWithDefault rcm key d = d)
  /\ (config rcm !! key = Some (String "-" ds) -> 2 ^ 63 < text.value ds ->
      GetInt rcm key = (- 2 ^ 63, Some (NumError "Atoi" (String "-" ds) ErrRange))
      /\ forall d, GetIntWithDefault rcm key d = d).
Proof.
  intros Hd. unfold GetIntWithDefault, GetInt. split; intros -> Hv.
  - by rewrite (Atoi_above ds Hd Hv).
  - by rewrite (Atoi_below ds Hd Hv).
Qed.

Lemma GetInt_out_of_range_witness :
  (GetInt {| serviceName := "svc"; config := {["hi" := "9223372036854775808"%string]};
             updatedAt := 0 |} "hi"
   = (2 ^ 63 - 1, Some (NumError "Atoi" "9223372036854775808" ErrRange))
   /\ forall d, GetIntWithDefault
                  {| serviceName := "svc";
                     config := {["hi" := "9223372036854775808"%string]};
                     updatedAt := 0 |} "hi" d = d)
  /\ (GetInt {| serviceName := "svc"; config := {["lo" := "-99999999999999999999"%string]};
                updatedAt := 0 |} "lo"
      = (- 2 ^ 63, Some (NumError "Atoi" "-99999999999999999999" ErrRange))
      /\ forall d, GetIntWithDefault
                     {| serviceName := "svc";
                        config := {["lo" := "-99999999999999999999"%string]};
                        updatedAt := 0 |} "lo" d = d).
Proof.
  split.
  - apply (GetInt_out_of_range _ "hi" "9223372036854775808");
      [split; [discriminate|reflexivity]|vm_compute; reflexivity|vm_compute; congruence].
  - apply (GetInt_out_of_range _ "lo" "99999999999999999999");
      [split; [discriminate|reflexivity]|vm_compute; reflexivity|vm_compute; reflexivity].
Defined.

(** X6. A duration needs a unit: for a key whose stored string is digits
    other than the single 0, [GetDuration] fails with the missing-unit
    error and [GetDurationWithDefault] returns the default; for a key that
    holds the text 0 alone [GetDuration] returns the zero duration. *)
Theorem GetDuration_needs_unit rcm key :
  (forall ds,
     config rcm !! key = Some ds -> text.digits ds -> ds <> "0"%string ->
     text.value ds <= 2 ^ 63 ->
     GetDuration rcm key = (0, Some (DurationError MissingUnit ds))
     /\ forall d, GetDurationWithDefault rcm key d = d)
  /\ (config rcm !! key = Some "0"%string -> GetDuration rcm key = (0, None)).
Proof.
  unfold GetDurationWithDefault, GetDuration. split; [|by intros ->].
  intros ds -> Hd Hne Hv.
  assert (HP : time.ParseDuration ds = (0, Some (DurationError MissingUnit ds))).
  { pose proof (leadingInt_digits ds "" 0 (proj2 Hd) I ltac:(lia)) as HLI.
    rewrite append_nil_r, Z.mul_0_l, Z.add_0_l in HLI. specialize (HLI Hv).
    pose proof (digits_len_pos ds Hd) as Hlen.
    apply String.eqb_neq in Hne.
    destruct (digits_cons _ Hd) as (c & r & -> & Hc & Hr).
    destruct (is_digit_not_sign c Hc) as (Hp & Hm & _).
    unfold time.ParseDuration. rewrite Hm, Hp. cbn [orb]. rewrite Hne.
    change (String.eqb (String c r) "") with false. cbv iota.
    cbn [String.length time.ParseDuration_loop].
    rewrite Hc, orb_true_r. cbn [negb]. rewrite HLI.
    change (len "") with 0. destruct (Z.eqb_spec (len (String c r)) 0); [lia|]. done. }
  by rewrite HP.
Qed.

Lemma GetDuration_needs_unit_witness :
  (GetDuration {| serviceName := "svc"; config := {["timeout" := "30"%string]};
                  updatedAt := 0 |} "timeout"
   = (0, Some (DurationError MissingUnit "30"))
   /\ forall d, GetDurationWithDefault
                  {| serviceName := "svc"; config := {["timeout" := "30"%string]};
                     updatedAt := 0 |} "timeout" d = d)
  /\ GetDuration {| serviceName := "svc"; config := {["off" := "0"%string]};
                    updatedAt := 0 |} "off" = (0, None).
Proof.
  split.
  - apply (proj1 (GetDuration_needs_unit _ "timeout") "30");
      [vm_compute; reflexivity|split; [discriminate|reflexivity]|discriminate
      |vm_compute; congruence].
  - apply (proj2 (GetDuration_needs_unit _ "off")). vm_compute. reflexivity.
Defined.

End GetterEdges.

(** * More about the refresh goroutine *)

Section LifecycleMore.

Import rcm lifecycle shutdown.

Lemma run_app evs1 evs2 s :
  run (evs1 ++ evs2) s
  = match run evs1 s with Some s1 => run evs2 s1 | None => None end.
Proof.
  revert s. induction evs1 as [|ev evs1 IH]; intros s; cbn [app run]; [done|].
  destruct (fire ev s); [apply IH|done].
Qed.

(** The store of a run changes by calls of [LoadConfig] only. *)
Lemma fire_store ev s s' :
  fire ev s = Some s' ->
  store s' = store s \/ exists r now, store s' = fst (LoadConfig r now (store s)).
Proof.
  destruct ev as [|i|i r now|i|]; cbn [fire].
  - destruct (stopped s); [|discriminate]. intros [= <-]. by left.
  - destruct (tasks s !! i) as [[]|]; try discriminate. intros [= <-]. by left.
  - destruct (tasks s !! i) as [[]|]; try discriminate. intros [= <-]. right. by exists r, now.
  - destruct (tasks s !! i) as [[]|]; try discriminate.
    destruct (cancelled s); [|discriminate]. intros [= <-]. by left.
  - destruct (nth_error StopLoading (stopped s)) as [[]|]; cbn [exec]; try discriminate.
    + intros [= <-]. by left.
    + intros [= <-]. by left.
    + destruct (wg s); [|discriminate]. intros [= <-]. by left.
Qed.

Lemma run_serviceName evs s s' :
  run evs s = Some s' -> serviceName (store s') = serviceName (store s).
Proof.
  revert s. induction evs as [|ev evs IH]; intros s; cbn [run].
  - by intros [= <-].
  - destruct (fire ev s) as [s1|] eqn:Hf; [|discriminate]. intros Hrun.
    rewrite (IH s1 Hrun).
    destruct (fire_store _ _ _ Hf) as [->|(r & now & ->)]; [done|].
    apply LoadConfig_serviceName.
Qed.

Lemma run_keeps_keys evs s s' key :
  run evs s = Some s' ->
  is_Some (config (store s) !! key) -> is_Some (config (store s') !! key).
Proof.
  revert s. induction evs as [|ev evs IH]; intros s; cbn [run].
  - by intros [= <-].
  - destruct (fire ev s) as [s1|] eqn:Hf; [|discriminate]. intros Hrun Hk.
    apply (IH s1 Hrun).
    destruct (fire_store _ _ _ Hf) as [->|(r & now & ->)]; [done|].
    by apply LoadConfig_keeps_keys.
Qed.

(** X7. Whatever the goroutines and [StopLoading] do, in whatever
    order, the store keeps its namespace key, and it keeps every key its
    snapshot once held: the refresh loop only ever calls [LoadConfig]. *)
Theorem refresh_never_removes_keys name evs1 evs2 s1 s2 :
  run evs1 (init name) = Some s1 ->
  run evs2 s1 = Some s2 ->
  serviceName (store s2) = name
  /\ forall key v, config (store s1) !! key = Some v -> is_Some (config (store s2) !! key).
Proof.
  intros H1 H2. split.
  - by rewrite (run_serviceName _ _ _ H2), (run_serviceName _ _ _ H1).
  - intros key v Hk. apply (run_keeps_keys evs2 s1 s2 key H2). by eexists.
Qed.

Lemma refresh_never_removes_keys_witness :
  serviceName
    (store (final example.stop_trace (init "svc"))) = "svc"%string
  /\ is_Some (config (store (final example.stop_trace (init "svc"))) !! "int_key").
Proof.
  destruct (refresh_never_removes_keys "svc"
           [EvStartLoading; EvTick 0; EvLoadConfig 0 (example.serving "svc" example.payload) 10]
           [EvStopLoading; EvStopLoading; EvDone 0; EvStopLoading]
           (final [EvStartLoading; EvTick 0;
                   EvLoadConfig 0 (example.serving "svc" example.payload) 10] (init "svc"))
           (final example.stop_trace (init "svc"))) as [Hn Hk];
    [vm_compute; reflexivity|vm_compute; reflexivity|].
  split; [exact Hn|]. apply (Hk "int_key" "42"%string). vm_compute. reflexivity.
Defined.

Lemma outage_fails now rcm : fst (LoadConfig example.outage now rcm) = rcm.
Proof. reflexivity. Qed.

(** Once the context is cancelled, the goroutines can exit one after the
    other; the snapshot stays as it is when the refreshes in flight fail. *)
Lemma run_exits ts : forall pre s,
  tasks s = pre ++ ts -> cancelled s = true -> wg s = live (tasks s) ->
  exists s',
    run (exits (length pre) ts) s = Some s'
    /\ tasks s' = pre ++ map (fun _ => Exited) ts
    /\ store s' = store s /\ cancelled s' = true /\ closes s' = closes s
    /\ stopped s' = stopped s /\ wg s' = live (tasks s').
Proof.
  induction ts as [|t ts IH]; intros pre s Ht Hc Hwg.
  - exists s. cbn [exits run map]. by repeat split.
  - assert (Hi : tasks s !! length pre = Some t) by (rewrite Ht; by apply list_lookup_middle).
    assert (Hdone : forall s0, tasks s0 = pre ++ AtSelect :: ts -> cancelled s0 = true ->
              wg s0 = live (tasks s0) ->
              exists s1, fire (EvDone (length pre)) s0 = Some s1
                /\ tasks s1 = (pre ++ [Exited]) ++ ts /\ store s1 = store s0
                /\ cancelled s1 = true /\ closes s1 = closes s0
                /\ stopped s1 = stopped s0 /\ wg s1 = live (tasks s1)).
    { intros s0 Ht0 Hc0 Hwg0.
      assert (Hi0 : tasks s0 !! length pre = Some AtSelect)
        by (rewrite Ht0; by apply list_lookup_middle).
      eexists. cbn [fire]. rewrite Hi0, Hc0. split; [reflexivity|].
      cbn [set_task tasks store cancelled closes stopped wg].
      pose proof (live_insert _ _ _ Exited Hi0) as Hl. cbn [live] in Hl.
      repeat split; try done; [|lia].
      rewrite Ht0. replace (length pre) with (length pre + 0)%nat by lia.
      rewrite insert_app_r. cbn. by rewrite <- app_assoc. }
    assert (Hnext : forall s1, tasks s1 = (pre ++ [Exited]) ++ ts -> cancelled s1 = true ->
              wg s1 = live (tasks s1) ->
              exists s',
                run (exits (S (length pre)) ts) s1 = Some s'
                /\ tasks s' = pre ++ Exited :: map (fun _ => Exited) ts
                /\ store s' = store s1 /\ cancelled s' = true /\ closes s' = closes s1
                /\ stopped s' = stopped s1 /\ wg s' = live (tasks s')).
    { intros s1 Ht1 Hc1 Hwg1.
      destruct (IH (pre ++ [Exited]) s1 Ht1 Hc1 Hwg1) as (s' & Hrun & Ht' & Hrest).
      exists s'. rewrite length_app in Hrun. cbn [length] in Hrun.
      rewrite Nat.add_1_r in Hrun. split; [done|]. split; [|done].
      by rewrite Ht', <- app_assoc. }
    cbn [exits map]. destruct t; cbn [exit_of app].
    + destruct (Hdone s Ht Hc Hwg) as (s1 & Hf & Ht1 & Hs1 & Hc1 & Hcl1 & Hst1 & Hwg1).
      destruct (Hnext s1 Ht1 Hc1 Hwg1) as (s' & Hrun & Ht' & Hs' & Hc' & Hcl' & Hst' & Hwg').
      exists s'. cbn [run]. rewrite Hf. repeat split; try done; congruence.
    + set (s0 := set_task s (length pre) AtSelect (store s) (wg s)).
      assert (Hf0 : fire (EvLoadConfig (length pre) example.outage 0) s = Some s0).
      { cbn [fire]. by rewrite Hi. }
      assert (Ht0 : tasks s0 = pre ++ AtSelect :: ts).
      { cbn [s0 set_task tasks]. rewrite Ht.
        replace (length pre) with (length pre + 0)%nat by lia. by rewrite insert_app_r. }
      assert (Hwg0 : wg s0 = live (tasks s0)).
      { pose proof (live_insert _ _ _ AtSelect Hi) as Hl. cbn [live] in Hl.
        cbn [s0 set_task tasks wg]. lia. }
      destruct (Hdone s0 Ht0 Hc Hwg0) as (s1 & Hf & Ht1 & Hs1 & Hc1 & Hcl1 & Hst1 & Hwg1).
      destruct (Hnext s1 Ht1 Hc1 Hwg1) as (s' & Hrun & Ht' & Hs' & Hc' & Hcl' & Hst' & Hwg').
      assert (store s0 = store s /\ closes s0 = closes s /\ stopped s0 = stopped s)
        as (? & ? & ?) by done.
      exists s'. cbn [run]. rewrite Hf0, Hf. repeat split; try done; congruence.
    + assert (Ht1 : tasks s = (pre ++ [Exited]) ++ ts) by (by rewrite Ht, <- app_assoc).
      destruct (Hnext s Ht1 Hc Hwg) as (s' & Hrun & Hrest). by exists s'.
Qed.

Lemma live_all_exited (ts : list Task) : live (map (fun _ => Exited) ts) = O.
Proof. induction ts as [|t ts IH]; [done|]. exact IH. Qed.

(** From a state in which the context is cancelled and the wait of
    [StopLoading] is the statement left, the goroutines exit and the wait
    returns. *)
Lemma run_exits_wait s :
  cancelled s = true -> wg s = live (tasks s) -> stopped s = 2%nat ->
  exists s',
    run (exits 0 (tasks s) ++ [EvStopLoading]) s = Some s'
    /\ returned s' = true /\ store s' = store s.
Proof.
  intros Hc Hwg Hst.
  destruct (run_exits (tasks s) [] s eq_refl Hc Hwg)
    as (s1 & Hrun & Ht1 & Hs1 & Hc1 & Hcl1 & Hst1 & Hwg1).
  rewrite Ht1 in Hwg1. cbn [app] in Hwg1. rewrite live_all_exited in Hwg1.
  rewrite run_app. cbn [length] in Hrun. rewrite Hrun. cbn [run fire].
  rewrite Hst1, Hst. cbn [StopLoading nth_error exec]. rewrite Hwg1.
  eexists. split; [reflexivity|]. unfold returned.
  cbn [stopped store StopLoading length]. rewrite Hst1, Hst. by split.
Qed.

(** X8. [StopLoading] can always return: from every state a run can
    reach there is a schedule, [drain], in which the statements of
    [StopLoading] that are left run, every goroutine exits, and the wait
    returns, the snapshot being left as it is. *)
Theorem StopLoading_can_return name evs s :
  run evs (init name) = Some s ->
  exists s',
    run (drain s) s = Some s' /\ returned s' = true /\ store s' = store s.
Proof.
  intros Hrun. pose proof (Inv_run _ _ _ (Inv_init name) Hrun) as [Hwg Hst].
  unfold drain. destruct (stopped s) as [|[|[|[|]]]] eqn:Hs; try done.
  - destruct Hst as [Hc Hcl].
    set (s2 := {| store := store s; cancelled := true; closes := S (closes s);
                  wg := wg s; tasks := tasks s; stopped := 2 |}).
    destruct (run_exits_wait s2) as (s' & Hr' & Hret & Hst'); try done.
    exists s'. cbn [app run fire]. rewrite Hs. cbn [StopLoading nth_error exec stopped].
    rewrite Hs. cbn [nth_error]. cbn [store cancelled closes wg tasks]. by split.
  - destruct Hst as [Hc Hcl].
    set (s2 := {| store := store s; cancelled := cancelled s; closes := S (closes s);
                  wg := wg s; tasks := tasks s; stopped := 2 |}).
    destruct (run_exits_wait s2) as (s' & Hr' & Hret & Hst'); try done.
    exists s'. cbn [app run fire]. rewrite Hs. cbn [StopLoading nth_error exec].
    rewrite Hs. by split.
  - destruct Hst as [Hc Hcl].
    destruct (run_exits_wait s) as (s' & Hr' & Hret & Hst'); try done.
    by exists s'.
  - exists s. unfold returned. rewrite Hs. by repeat split.
Qed.

Lemma StopLoading_can_return_witness :
  exists s',
    run (drain (final example.race_trace (init "svc")))
      (final example.race_trace (init "svc")) = Some s'
    /\ returned s' = true
    /\ store s' = store (final example.race_trace (init "svc")).
Proof.
  apply (StopLoading_can_return "svc" example.race_trace). vm_compute. reflexivity.
Defined.

End LifecycleMore.

(** * The in-memory manager *)

Section MockFacts.

Import mcm.

(** X9. The getters of the in-memory manager do not coerce: a getter
    returns a value and no error exactly when the key holds a value of its
    own dynamic type, so at most one of the five getters reads a key, and
    one does exactly when the value has one of the five types. *)
Theorem mock_getters_do_not_coerce m key :
  (readable m key <= 1)%nat
  /\ (readable m key = 1%nat <-> exists v k, data m !! key = Some v /\ kind_of v = Some k)
  /\ (forall x, GetInt m key = (x, None) <-> data m !! key = Some (VInt x))
  /\ (forall x, GetFloat m key = (x, None) <-> data m !! key = Some (VFloat64 x))
  /\ (forall x, GetString m key = (x, None) <-> data m !! key = Some (VString x))
  /\ (forall x, GetBool m key = (x, None) <-> data m !! key = Some (VBool x))
  /\ (forall x, GetDuration m key = (x, None) <-> data m !! key = Some (VDuration x)).
Proof.
  unfold readable, GetInt, GetFloat, GetString, GetBool, GetDuration.
  destruct (data m !! key) as [[]|]; cbn [snd is_nil Nat.b2n Nat.add kind_of];
    repeat split; try lia; try congruence; try (intros; by eexists _, _);
    try (intros (? & ? & ? & ?); congruence).
  intros (v & k & [= <-] & Hk). discriminate Hk.
Qed.

End MockFacts.

(** * Integers as float64 and as text *)

Section NumeralFacts.

Import numeral.

Lemma horner_acc l acc : horner l acc = acc * 10 ^ Z.of_nat (length l) + horner l 0.
Proof.
  revert acc. induction l as [|x l IH]; intros acc; cbn [horner length].
  - cbn. lia.
  - rewrite IH, (IH (0 * 10 + x)). rewrite Nat2Z.inj_succ, Z.pow_succ_r by lia. ring.
Qed.

Lemma horner_app l1 l2 acc : horner (l1 ++ l2) acc = horner l2 (horner l1 acc).
Proof. revert acc. induction l1 as [|x l1 IH]; intros acc; [done|]. apply IH. Qed.

Lemma horner_zeros k acc : horner (repeat 0 k) acc = acc * 10 ^ Z.of_nat k.
Proof.
  revert acc. induction k as [|k IH]; intros acc; cbn [repeat horner].
  - cbn. lia.
  - rewrite IH, Nat2Z.inj_succ, Z.pow_succ_r by lia. ring.
Qed.

Lemma uint_digits_dec u : Forall is_dec (ftoa.uint_digits u).
Proof. induction u; cbn [ftoa.uint_digits]; constructor; unfold is_dec; (lia || done). Qed.

Lemma uint_digits_of_digits l : Forall is_dec l -> ftoa.uint_digits (of_digits l) = l.
Proof.
  induction 1 as [|x l Hx _ IH]; [done|]. cbn [of_digits fold_right].
  fold (of_digits l). unfold is_dec in Hx.
  assert (Hc : x = 0 \/ x = 1 \/ x = 2 \/ x = 3 \/ x = 4 \/ x = 5 \/ x = 6 \/ x = 7
               \/ x = 8 \/ x = 9) by lia.
  destruct Hc as [->|[->|[->|[->|[->|[->|[->|[->|[->| ->]]]]]]]]];
    cbn [of_digit ftoa.uint_digits]; by rewrite IH.
Qed.

Lemma of_uint_acc_horner u acc :
  Z.pos (Pos.of_uint_acc u acc) = horner (ftoa.uint_digits u) (Z.pos acc).
Proof.
  revert acc. induction u; intros acc; cbn [Pos.of_uint_acc ftoa.uint_digits horner];
    [done|..]; rewrite IHu; f_equal; lia.
Qed.

Lemma of_uint_horner u : Z.of_N (Pos.of_uint u) = horner (ftoa.uint_digits u) 0.
Proof.
  induction u; cbn [Pos.of_uint ftoa.uint_digits horner]; [done|exact IHu|..];
    cbn [Z.of_N]; by rewrite of_uint_acc_horner.
Qed.

Lemma digits_of_value p : horner (ftoa.digits_of p) 0 = Z.pos p.
Proof.
  unfold ftoa.digits_of. by rewrite <- of_uint_horner, DecimalPos.Unsigned.of_to.
Qed.

Lemma to_uint_canonical p : Decimal.unorm (Pos.to_uint p) = Pos.to_uint p.
Proof.
  rewrite <- DecimalPos.Unsigned.to_of, DecimalPos.Unsigned.of_to. reflexivity.
Qed.

(** A numeral starts with a digit other than zero. *)
Lemma digits_of_head p : exists x l, ftoa.digits_of p = x :: l /\ 1 <= x <= 9.
Proof.
  pose proof (to_uint_canonical p) as Hc.
  pose proof (DecimalPos.Unsigned.to_uint_nonzero p) as Hz.
  pose proof (DecimalPos.Unsigned.to_uint_nonnil p) as Hn.
  unfold ftoa.digits_of.
  destruct (Pos.to_uint p) as [|u|u|u|u|u|u|u|u|u|u] eqn:Hu; [done|..];
    try (cbn [ftoa.uint_digits]; eexists _, _; split; [reflexivity|lia]).
  exfalso. rewrite DecimalFacts.unorm_D0 in Hc. unfold Decimal.unorm in Hc.
  destruct (Decimal.nzhead u) eqn:Hh; try discriminate Hc.
  - injection Hc as <-. by apply Hz.
  - by apply DecimalFacts.nzhead_nonzero in Hh.
Qed.

(** The digits of [p] are the only digits without a leading zero that
    denote [p]. *)
Lemma digits_of_unique x l p :
  Forall is_dec (x :: l) -> 1 <= x -> horner (x :: l) 0 = Z.pos p ->
  ftoa.digits_of p = x :: l.
Proof.
  intros Hd Hx Hv. unfold ftoa.digits_of.
  assert (Hof : Pos.of_uint (of_digits (x :: l)) = Npos p).
  { apply N2Z.inj. by rewrite of_uint_horner, uint_digits_of_digits. }
  assert (Hun : Decimal.unorm (of_digits (x :: l)) = of_digits (x :: l)).
  { apply Forall_cons in Hd as [Hx9 _]. unfold is_dec in Hx9. cbn [of_digits fold_right].
    assert (Hc : x = 1 \/ x = 2 \/ x = 3 \/ x = 4 \/ x = 5 \/ x = 6 \/ x = 7
                 \/ x = 8 \/ x = 9) by lia.
    by destruct Hc as [->|[->|[->|[->|[->|[->|[->|[->| ->]]]]]]]]. }
  pose proof (DecimalPos.Unsigned.to_of (of_digits (x :: l))) as Hto.
  rewrite Hof, Hun in Hto. cbn [N.to_uint] in Hto. rewrite Hto.
  by apply uint_digits_of_digits.
Qed.

Lemma digits_of_tenfold p k :
  ftoa.digits_of (p * Z.to_pos (10 ^ Z.of_nat k)) = ftoa.digits_of p ++ repeat 0 k.
Proof.
  destruct (digits_of_head p) as (x & l & Hp & Hx).
  pose proof (uint_digits_dec (Pos.to_uint p)) as Hd. fold (ftoa.digits_of p) in Hd.
  rewrite Hp in *. cbn [app]. apply digits_of_unique.
  - apply Forall_cons in Hd as [? ?]. constructor; [done|]. apply Forall_app. split; [done|].
    clear. induction k as [|k IH]; cbn [repeat]; constructor; [unfold is_dec; lia|done].
  - lia.
  - change (x :: l ++ repeat 0 k) with ((x :: l) ++ repeat 0 k).
    rewrite horner_app, horner_zeros, <- Hp, digits_of_value.
    assert (0 < 10 ^ Z.of_nat k) by (apply Z.pow_pos_nonneg; lia).
    rewrite Pos2Z.inj_mul, Z2Pos.id by done. done.
Qed.

End NumeralFacts.

Section IntegerText.

Import numeral.

Lemma digit_char_facts x :
  is_dec x -> is_digit (ftoa.digit_char x) = true /\ digit_val (ftoa.digit_char x) = x.
Proof.
  unfold is_dec. intros Hx.
  assert (Hc : x = 0 \/ x = 1 \/ x = 2 \/ x = 3 \/ x = 4 \/ x = 5 \/ x = 6 \/ x = 7
               \/ x = 8 \/ x = 9) by lia.
  by destruct Hc as [->|[->|[->|[->|[->|[->|[->|[->|[->| ->]]]]]]]]].
Qed.

Lemma digit_string_app l1 l2 :
  ftoa.digit_string (l1 ++ l2) = append (ftoa.digit_string l1) (ftoa.digit_string l2).
Proof.
  induction l1 as [|x l1 IH]; [done|].
  cbn [app ftoa.digit_string fold_right]. fold (ftoa.digit_string (l1 ++ l2)).
  fold (ftoa.digit_string l1). by rewrite IH.
Qed.

Lemma digit_string_length l : String.length (ftoa.digit_string l) = length l.
Proof. induction l as [|x l IH]; [done|]. cbn. by f_equal. Qed.

Lemma digit_string_digits l :
  Forall is_dec l ->
  text.all_digits (ftoa.digit_string l) = true
  /\ text.value (ftoa.digit_string l) = horner l 0.
Proof.
  induction 1 as [|x l Hx _ [IH1 IH2]]; [done|].
  destruct (digit_char_facts x Hx) as [Hd Hv].
  cbn [ftoa.digit_string fold_right]. fold (ftoa.digit_string l).
  cbn [text.all_digits text.value horner]. rewrite Hd, Hv, IH1, IH2, digit_string_length.
  split; [done|]. rewrite (horner_acc l (0 * 10 + x)). ring.
Qed.

(** Digits without a leading zero denote a number of their length. *)
Lemma horner_bounds x l :
  Forall is_dec (x :: l) -> 1 <= x ->
  10 ^ Z.of_nat (length l) <= horner (x :: l) 0 < 10 ^ Z.of_nat (S (length l)).
Proof.
  intros Hd Hx. apply Forall_cons in Hd as [Hx9 Hl]. unfold is_dec in Hx9.
  cbn [horner]. rewrite horner_acc.
  assert (Hb : 0 <= horner l 0 < 10 ^ Z.of_nat (length l)).
  { clear -Hl. induction Hl as [|y l Hy _ IH]; [cbn; lia|].
    cbn [horner length]. rewrite horner_acc, Nat2Z.inj_succ, Z.pow_succ_r by lia.
    unfold is_dec in Hy. nia. }
  rewrite Nat2Z.inj_succ, Z.pow_succ_r by lia. nia.
Qed.

Lemma digits_of_dec p : Forall is_dec (ftoa.digits_of p).
Proof. apply uint_digits_dec. Qed.

Lemma digits_of_length p (n : nat) :
  (length (ftoa.digits_of p) <= n)%nat <-> Z.pos p < 10 ^ Z.of_nat n.
Proof.
  destruct (digits_of_head p) as (x & l & Hp & Hx).
  pose proof (digits_of_dec p) as Hd. pose proof (digits_of_value p) as Hv.
  rewrite Hp in *. pose proof (horner_bounds x l Hd ltac:(lia)) as Hb. rewrite Hv in Hb.
  cbn [length]. split; intros H.
  - assert (10 ^ Z.of_nat (S (length l)) <= 10 ^ Z.of_nat n)
      by (apply Z.pow_le_mono_r; lia). lia.
  - destruct (Nat.le_gt_cases (S (length l)) n) as [|Hgt]; [done|]. exfalso.
    assert (10 ^ Z.of_nat n <= 10 ^ Z.of_nat (length l))
      by (apply Z.pow_le_mono_r; lia). lia.
Qed.

(** The numeral of an integer is an int text of it. *)
Lemma of_pos_digits p :
  text.digits (of_pos p) /\ text.value (of_pos p) = Z.pos p.
Proof.
  unfold of_pos. destruct (digit_string_digits _ (digits_of_dec p)) as [Hd Hv].
  rewrite Hv, digits_of_value. repeat split; try done.
  destruct (digits_of_head p) as (x & l & -> & _). discriminate.
Qed.

Lemma Atoi_numeral n : - 2 ^ 63 <= n < 2 ^ 63 -> strconv.Atoi (of_Z n) = (n, None).
Proof.
  intros Hn. apply Atoi_IntText. destruct n as [|p|p]; cbn [of_Z].
  - apply (text.IntText_unsigned "0"); [by split|done].
  - destruct (of_pos_digits p) as [Hd Hv]. rewrite <- Hv.
    apply text.IntText_unsigned; [done|lia].
  - destruct (of_pos_digits p) as [Hd Hv].
    replace (Z.neg p) with (- text.value (of_pos p)) by (rewrite Hv; lia).
    apply text.IntText_minus; [done|lia].
Qed.

End IntegerText.

Section FormatInteger.

Import numeral.

Lemma drop_zeros_repeat k l : ftoa.drop_zeros (repeat 0 k ++ l) = ftoa.drop_zeros l.
Proof. induction k as [|k IH]; [done|]. exact IH. Qed.

Lemma drop_zeros_split l : exists j, l = repeat 0 j ++ ftoa.drop_zeros l.
Proof.
  induction l as [|x l [j IH]]; [by exists O|].
  destruct (Z.eq_dec x 0) as [->|Hx].
  - exists (S j). cbn [ftoa.drop_zeros repeat app]. by rewrite <- IH.
  - exists O. cbn [repeat app]. by destruct x.
Qed.

Lemma rev_repeat (k : nat) : rev (repeat 0 k) = repeat 0 k.
Proof.
  induction k as [|k IH]; [done|]. cbn [repeat rev]. rewrite IH.
  clear. induction k as [|k IH]; [done|]. cbn [repeat app]. by rewrite IH.
Qed.

(** Trailing zeros are trimmed, whatever their number; what is left of
    the digits of a positive number is not empty. *)
Lemma trim_digits p k dp :
  exists t j,
    ftoa.digits_of p = t ++ repeat 0 j /\ t <> []
    /\ ftoa.trim {| ftoa.d := ftoa.digits_of p ++ repeat 0 k; ftoa.dp := dp |}
       = {| ftoa.d := t; ftoa.dp := dp |}.
Proof.
  destruct (drop_zeros_split (rev (ftoa.digits_of p))) as [j Hj].
  exists (rev (ftoa.drop_zeros (rev (ftoa.digits_of p)))), j.
  assert (Hsplit : ftoa.digits_of p
                   = rev (ftoa.drop_zeros (rev (ftoa.digits_of p))) ++ repeat 0 j).
  { rewrite <- (rev_involutive (ftoa.digits_of p)) at 1. rewrite Hj at 1.
    by rewrite rev_app_distr, rev_repeat. }
  assert (Hne : rev (ftoa.drop_zeros (rev (ftoa.digits_of p))) <> []).
  { intros Hnil. rewrite Hnil in Hsplit. cbn [app] in Hsplit.
    destruct (digits_of_head p) as (x & l & Hp & Hx). rewrite Hp in Hsplit.
    destruct j; [discriminate|]. injection Hsplit as -> _. lia. }
  repeat split; try done. unfold ftoa.trim. cbn [ftoa.d ftoa.dp].
  rewrite rev_app_distr, rev_repeat, drop_zeros_repeat.
  by destruct (rev (ftoa.drop_zeros (rev (ftoa.digits_of p)))).
Qed.

(** The exact decimal expansion of an integer held as a mantissa and a
    binary exponent: the digits of the integer. *)
Lemma exact_integer m k p :
  0 <= k -> Z.pos m = Z.pos p * 2 ^ k ->
  ftoa.exact m (- k)
  = ftoa.trim {| ftoa.d := ftoa.digits_of p ++ repeat 0 (Z.to_nat k);
                 ftoa.dp := Z.of_nat (length (ftoa.digits_of p)) |}.
Proof.
  intros Hk Hm. unfold ftoa.exact.
  destruct (Z.leb_spec 0 (- k)).
  - assert (k = 0) by lia. subst k. change (- 0) with 0. change (2 ^ 0) with 1 in *.
    change (Z.to_pos 1) with 1%positive. rewrite Pos.mul_1_r.
    assert (m = p) by lia. subst m. change (Z.to_nat 0) with O. cbn [repeat].
    by rewrite app_nil_r.
  - rewrite Z.opp_involutive.
    assert (Hpos : (m * Z.to_pos (5 ^ k) = p * Z.to_pos (10 ^ Z.of_nat (Z.to_nat k)))%positive).
    { apply Pos2Z.inj. rewrite !Pos2Z.inj_mul, Z2Nat.id by lia.
      assert (0 < 5 ^ k) by (apply Z.pow_pos_nonneg; lia).
      assert (0 < 10 ^ k) by (apply Z.pow_pos_nonneg; lia).
      rewrite !Z2Pos.id by done. rewrite Hm.
      replace 10 with (2 * 5) by done. rewrite Z.pow_mul_l. ring. }
    rewrite Hpos, digits_of_tenfold. f_equal. f_equal.
    rewrite length_app, repeat_length. lia.
Qed.

Lemma zeros_repeat (j : nat) : ftoa.zeros (Z.of_nat j) = ftoa.digit_string (repeat 0 j).
Proof. unfold ftoa.zeros. by rewrite Nat2Z.id. Qed.

(** [%v] of an integer below one million held in a float64: its
    numeral. *)
Lemma FormatFloat_g_integer neg m k p :
  0 <= k <= 52 -> Z.pos m = Z.pos p * 2 ^ k -> Z.pos p < 10 ^ 6 ->
  ftoa.FormatFloat_g (S754_finite neg m (- k))
  = append (if neg then "-" else "") (of_pos p).
Proof.
  intros Hk Hm Hp. cbn [ftoa.FormatFloat_g].
  destruct (trim_digits p (Z.to_nat k) (Z.of_nat (length (ftoa.digits_of p))))
    as (t & j & Hsplit & Hne & Htrim).
  pose proof (proj2 (digits_of_length p 6) Hp) as Hlen.
  assert (HL : length (ftoa.digits_of p) = (length t + j)%nat)
    by (rewrite Hsplit at 1; by rewrite length_app, repeat_length).
  assert (Ht : (1 <= length t)%nat) by (destruct t; [done|cbn; lia]).
  unfold ftoa.roundShortest. rewrite (exact_integer m k p (proj1 Hk) Hm), Htrim.
  unfold ftoa.nd. cbn [ftoa.d ftoa.dp].
  destruct (Z.gtb_spec (- k + 52) (-1022)); [|lia].
  destruct (Z.geb_spec (332 * (Z.of_nat (length (ftoa.digits_of p)) - Z.of_nat (length t)))
              (100 * (- k + 52 - 52))); [|lia].
  cbn [andb]. unfold ftoa.formatDigits_g, ftoa.nd. cbn [ftoa.d ftoa.dp].
  destruct (Z.ltb_spec (Z.of_nat (length (ftoa.digits_of p)) - 1) (-4)); [lia|].
  destruct (Z.geb_spec (Z.of_nat (length (ftoa.digits_of p)) - 1) 6); [lia|].
  cbn [orb]. unfold ftoa.fmtF, ftoa.nd. cbn [ftoa.d ftoa.dp].
  destruct (Z.gtb_spec (Z.of_nat (length (ftoa.digits_of p))) 0); [|lia].
  rewrite Z.max_r by lia. change (0 >? 0) with false. cbv iota.
  rewrite Z.min_l by lia. rewrite Nat2Z.id, firstn_all.
  replace (Z.of_nat (length (ftoa.digits_of p)) - Z.of_nat (length t))
    with (Z.of_nat j) by lia.
  rewrite zeros_repeat, <- digit_string_app, <- Hsplit, append_nil_r. done.
Qed.

Lemma all_digits_app a b :
  text.all_digits (append a b) = text.all_digits a && text.all_digits b.
Proof.
  induction a as [|c a IH]; [done|]. rewrite append_cons. cbn [text.all_digits].
  by rewrite IH, andb_assoc.
Qed.

(** A text with an exponent is no plain decimal string. *)
Lemma exponent_not_plain (neg : bool) c more rest :
  text.plain_decimal
    (append (if neg then "-" else "") (String c (append more (append "e" rest))))
  = false.
Proof.
  assert (HR : text.all_digits (append more (append "e" rest)) = false).
  { rewrite all_digits_app. change (append "e" rest) with (String "e" rest).
    cbn [text.all_digits]. change (is_digit "e") with false. by rewrite andb_false_r. }
  destruct neg.
  - change (append "-" ?x) with (String "-" x). cbn [text.plain_decimal].
    change ((("-" =? "+")%char || ("-" =? "-")%char)) with true. cbv iota.
    cbn [text.all_digits]. by rewrite HR, !andb_false_r.
  - rewrite append_nil_l. cbn [text.plain_decimal text.all_digits]. rewrite HR.
    destruct ((c =? "+")%char || (c =? "-")%char); by rewrite !andb_false_r.
Qed.

(** [%v] of an integer of seven digits or more held in a float64 has an
    exponent. *)
Lemma FormatFloat_g_integer_big neg m k p :
  0 <= k <= 52 -> Z.pos m = Z.pos p * 2 ^ k -> 10 ^ 6 <= Z.pos p ->
  text.plain_decimal (ftoa.FormatFloat_g (S754_finite neg m (- k))) = false.
Proof.
  intros Hk Hm Hp. cbn [ftoa.FormatFloat_g].
  destruct (trim_digits p (Z.to_nat k) (Z.of_nat (length (ftoa.digits_of p))))
    as (t & j & Hsplit & Hne & Htrim).
  assert (Hlen : (7 <= length (ftoa.digits_of p))%nat).
  { destruct (Nat.le_gt_cases 7 (length (ftoa.digits_of p))) as [|Hlt]; [done|].
    exfalso. assert (H6 : (length (ftoa.digits_of p) <= 6)%nat) by lia.
    apply digits_of_length in H6. lia. }
  assert (HL : length (ftoa.digits_of p) = (length t + j)%nat)
    by (rewrite Hsplit at 1; by rewrite length_app, repeat_length).
  unfold ftoa.roundShortest. rewrite (exact_integer m k p (proj1 Hk) Hm), Htrim.
  unfold ftoa.nd. cbn [ftoa.d ftoa.dp].
  destruct (Z.gtb_spec (- k + 52) (-1022)); [|lia].
  destruct (Z.geb_spec (332 * (Z.of_nat (length (ftoa.digits_of p)) - Z.of_nat (length t)))
              (100 * (- k + 52 - 52))); [|lia].
  cbn [andb]. unfold ftoa.formatDigits_g, ftoa.nd. cbn [ftoa.d ftoa.dp].
  destruct (Z.geb_spec (Z.of_nat (length (ftoa.digits_of p)) - 1) 6); [|lia].
  rewrite orb_true_r. unfold ftoa.fmtE. cbv zeta. apply exponent_not_plain.
Qed.

End FormatInteger.

Section NumeralAsFloat.

Import numeral.

(** The numeral of an integer below 2^53 reads as the float64 of the
    integer, and JSON decodes it so. *)
Lemma ParseFloat_numeral n :
  Z.abs n < 2 ^ 53 -> atof.ParseFloat (of_Z n) = (f64.of_Z n, None).
Proof.
  intros Hn. destruct n as [|p|p]; [by vm_compute| |].
  - destruct (of_Z_exact p Hn) as (m & k & Hk & Hm & Hf).
    destruct (Hf false) as [HZ HD]. cbn [of_Z]. rewrite HZ, <- HD.
    destruct (of_pos_digits p) as [Hd Hv].
    pose (l := {| text.lit_sign := text.NoSign; text.lit_int := of_pos p;
                  text.lit_frac := None; text.lit_exp := None |}).
    assert (Hr : text.render l = of_pos p).
    { unfold text.render, l. cbn [text.lit_sign text.lit_int text.lit_frac text.lit_exp
        text.sign_text]. by rewrite append_nil_l, !append_nil_r. }
    assert (Hs : text.significand l = Z.pos p).
    { unfold text.significand, text.frac_digits, l. cbn [text.lit_int text.lit_frac].
      by rewrite append_nil_r. }
    rewrite <- Hr, <- Hs. apply ParseFloat_FloatText.
    apply (text.FloatText_decimal l).
    + unfold text.well_formed, text.frac_digits, l.
      cbn [text.lit_int text.lit_frac text.lit_exp]. repeat split; try done; try apply Hd.
      unfold of_pos. rewrite digit_string_length. cbn [String.length].
      assert (Z.pos p < 10 ^ Z.of_nat 16) by (change (10 ^ Z.of_nat 16) with (10 ^ 16); lia).
      apply digits_of_length in H. lia.
    + rewrite Hs. change (text.is_minus (text.lit_sign l)) with false.
      change (text.exponent10 l) with 0. by rewrite HD.
  - destruct (of_Z_exact p Hn) as (m & k & Hk & Hm & Hf).
    destruct (Hf true) as [HZ HD]. cbn [of_Z]. rewrite HZ, <- HD.
    destruct (of_pos_digits p) as [Hd Hv].
    pose (l := {| text.lit_sign := text.Minus; text.lit_int := of_pos p;
                  text.lit_frac := None; text.lit_exp := None |}).
    assert (Hr : text.render l = String "-" (of_pos p)).
    { unfold text.render, l. cbn [text.lit_sign text.lit_int text.lit_frac text.lit_exp
        text.sign_text]. rewrite !append_nil_r. reflexivity. }
    assert (Hs : text.significand l = Z.pos p).
    { unfold text.significand, text.frac_digits, l. cbn [text.lit_int text.lit_frac].
      by rewrite append_nil_r. }
    rewrite <- Hr, <- Hs. apply ParseFloat_FloatText.
    apply (text.FloatText_decimal l).
    + unfold text.well_formed, text.frac_digits, l.
      cbn [text.lit_int text.lit_frac text.lit_exp]. repeat split; try done; try apply Hd.
      unfold of_pos. rewrite digit_string_length. cbn [String.length].
      assert (Z.pos p < 10 ^ Z.of_nat 16) by (change (10 ^ Z.of_nat 16) with (10 ^ 16); lia).
      apply digits_of_length in H. lia.
    + rewrite Hs. change (text.is_minus (text.lit_sign l)) with true.
      change (text.exponent10 l) with 0. by rewrite HD.
Qed.

(** [%v] of the float64 of an integer: its numeral below one million, a
    text with an exponent from there on. *)
Lemma FormatFloat_g_of_Z n :
  Z.abs n < 2 ^ 53 ->
  (Z.abs n < 10 ^ 6 -> ftoa.FormatFloat_g (f64.of_Z n) = of_Z n)
  /\ (10 ^ 6 <= Z.abs n -> text.plain_decimal (ftoa.FormatFloat_g (f64.of_Z n)) = false).
Proof.
  intros Hn. destruct n as [|p|p].
  - split; [by vm_compute|]. change (Z.abs 0) with 0. lia.
  - destruct (of_Z_exact p Hn) as (m & k & Hk & Hm & Hf).
    destruct (Hf false) as [-> _]. cbn [Z.abs of_Z]. split; intros Hp.
    + by rewrite (FormatFloat_g_integer false m k p Hk Hm Hp), append_nil_l.
    + by apply (FormatFloat_g_integer_big false m k p).
  - destruct (of_Z_exact p Hn) as (m & k & Hk & Hm & Hf).
    destruct (Hf true) as [-> _]. cbn [Z.abs of_Z]. split; intros Hp.
    + by rewrite (FormatFloat_g_integer true m k p Hk Hm Hp).
    + by apply (FormatFloat_g_integer_big true m k p).
Qed.

End NumeralAsFloat.

Section IntegerSettings.

Import rcm numeral.

(** What [GetInt] and [GetFloat] make of the [%v] text of the float64 of
    an integer. *)
Lemma Atoi_of_float_text n :
  Z.abs n < 2 ^ 53 ->
  if Z.abs n <? 10 ^ 6
  then strconv.Atoi (ftoa.FormatFloat_g (f64.of_Z n)) = (n, None)
       /\ atof.ParseFloat (ftoa.FormatFloat_g (f64.of_Z n)) = (f64.of_Z n, None)
  else is_ParseError (snd (strconv.Atoi (ftoa.FormatFloat_g (f64.of_Z n)))) = true.
Proof.
  intros Hn. destruct (FormatFloat_g_of_Z n Hn) as [Hsmall Hbig].
  destruct (Z.ltb_spec (Z.abs n) (10 ^ 6)) as [Hlt|Hge].
  - rewrite (Hsmall Hlt). split; [apply Atoi_numeral; lia|by apply ParseFloat_numeral].
  - specialize (Hbig Hge).
    destruct (strconv.Atoi (ftoa.FormatFloat_g (f64.of_Z n))) as [v [e|]] eqn:HA.
    + apply (Atoi_error (ftoa.FormatFloat_g (f64.of_Z n))). by rewrite HA.
    + apply Atoi_ok, IntText_plain in HA. congruence.
Qed.

(** X11. An integer of a payload is read back by [GetInt] exactly when
    it is below one million in absolute value. JSON decodes the numeral
    of an integer [n] below 2^53 as [float64(n)]; after a successful
    [LoadConfig] of a payload whose member is this number, the snapshot
    holds the numeral of [n] and [GetInt] returns [n] when [|n| < 10^6],
    and [GetInt] fails with a ParseError, [GetIntWithDefault] returning
    the default, from one million on. *)
Theorem GetInt_reads_integers_below_a_million r now rcm raw m key n :
  r (serviceName rcm) = (raw, None) ->
  json.Unmarshal raw = (m, None) ->
  m !! key = Some (AFloat64 (f64.of_Z n)) ->
  Z.abs n < 2 ^ 53 ->
  json.convertNumber (of_Z n) = (AFloat64 (f64.of_Z n), None)
  /\ if Z.abs n <? 10 ^ 6
     then config (fst (LoadConfig r now rcm)) !! key = Some (of_Z n)
          /\ GetInt (fst (LoadConfig r now rcm)) key = (n, None)
          /\ GetFloat (fst (LoadConfig r now rcm)) key = (f64.of_Z n, None)
     else is_ParseError (snd (GetInt (fst (LoadConfig r now rcm)) key)) = true
          /\ forall d, GetIntWithDefault (fst (LoadConfig r now rcm)) key d = d.
Proof.
  intros Hr Hm Hk Hn. split.
  { unfold json.convertNumber. by rewrite (ParseFloat_numeral n Hn). }
  rewrite (LoadConfig_success r now rcm raw m Hr Hm). cbn [fst].
  assert (Hcfg : ((fmt.Sprintf_v <$> m) ∪ config rcm) !! key
                 = Some (ftoa.FormatFloat_g (f64.of_Z n))).
  { apply lookup_union_Some_l. by rewrite lookup_fmap, Hk. }
  unfold GetIntWithDefault, GetInt, GetFloat. cbn [config]. rewrite Hcfg.
  pose proof (Atoi_of_float_text n Hn) as HA.
  destruct (FormatFloat_g_of_Z n Hn) as [Hsmall _].
  destruct (Z.ltb_spec (Z.abs n) (10 ^ 6)) as [Hlt|Hge].
  - by rewrite <- (Hsmall Hlt).
  - split; [done|]. intros d.
    destruct (strconv.Atoi (ftoa.FormatFloat_g (f64.of_Z n))) as [v [e|]]; done.
Qed.

Lemma GetInt_reads_integers_below_a_million_witness :
  json.convertNumber (of_Z 42) = (AFloat64 (f64.of_Z 42), None)
  /\ if Z.abs 42 <? 10 ^ 6
     then config (fst (LoadConfig (example.serving "svc" example.payload) 10
                         (NewRedisConfigManager "svc"))) !! "int_key" = Some (of_Z 42)
          /\ GetInt (fst (LoadConfig (example.serving "svc" example.payload) 10
                            (NewRedisConfigManager "svc"))) "int_key" = (42, None)
          /\ GetFloat (fst (LoadConfig (example.serving "svc" example.payload) 10
                              (NewRedisConfigManager "svc"))) "int_key"
             = (f64.of_Z 42, None)
     else is_ParseError
            (snd (GetInt (fst (LoadConfig (example.serving "svc" example.payload) 10
                                 (NewRedisConfigManager "svc"))) "int_key")) = true
          /\ forall d,
               GetIntWithDefault
                 (fst (LoadConfig (example.serving "svc" example.payload) 10
                         (NewRedisConfigManager "svc"))) "int_key" d = d.
Proof.
  apply (GetInt_reads_integers_below_a_million
           (example.serving "svc" example.payload) 10 (NewRedisConfigManager "svc")
           example.payload (fst (json.Unmarshal example.payload)) "int_key" 42);
    vm_compute; (reflexivity || congruence).
Defined.

End IntegerSettings.

(** * Payloads of plain settings decode to their members *)

Section PayloadFacts.

Import json payloads.

Lemma string_of_list_ascii_app l1 l2 :
  string_of_list_ascii (l1 ++ l2)
  = append (string_of_list_ascii l1) (string_of_list_ascii l2).
Proof. induction l1 as [|c l1 IH]; [done|]. cbn. by rewrite IH. Qed.

Lemma text_of_cons c acc : text_of (c :: acc) = append (text_of acc) (String c "").
Proof. unfold text_of. cbn [rev]. by rewrite string_of_list_ascii_app. Qed.

Lemma plain_byte_facts c :
  plain_byte c = true ->
  (byte_val c =? 34) = false /\ (byte_val c =? 92) = false
  /\ (byte_val c <? 32) = false /\ (byte_val c <? 128) = true.
Proof.
  unfold plain_byte. cbv zeta. intros H.
  apply andb_true_iff in H as [H H92]. apply andb_true_iff in H as [H H34].
  apply andb_true_iff in H as [H32 H128].
  apply negb_true_iff in H92, H34. apply Z.leb_le in H32.
  repeat split; try done. apply Z.ltb_ge. lia.
Qed.

(** Inside a string, plain bytes are kept up to the closing quote. *)
Lemma lex_plain s : forall acc rest,
  plain s = true ->
  lex (append s (String example.dq rest)) (LStr acc NoEsc)
  = option_map (cons (TString (append (text_of acc) s))) (lex rest LIdle).
Proof.
  induction s as [|c s IH]; intros acc rest Hs.
  - rewrite append_nil_l, append_nil_r. cbn [lex].
    change (lex_step (LStr acc NoEsc) example.dq)
      with (Some (LIdle, [TString (text_of acc)])).
    cbv beta iota. by destruct (lex rest LIdle).
  - cbn [plain] in Hs. apply andb_true_iff in Hs as [Hc Hs].
    destruct (plain_byte_facts c Hc) as (H34 & H92 & H32 & _).
    rewrite append_cons. cbn [lex lex_step]. cbv zeta. rewrite H34, H92, H32.
    rewrite (IH (c :: acc) rest Hs), text_of_cons, append_assoc.
    rewrite append_cons, append_nil_l. cbv beta iota. by destruct (lex rest LIdle).
Qed.

Lemma lex_quoted s rest :
  plain s = true ->
  lex (append (example.quoted s) rest) LIdle
  = option_map (cons (TString s)) (lex rest LIdle).
Proof.
  intros Hs. unfold example.quoted. rewrite append_cons, append_assoc, append_cons, append_nil_l.
  cbn [lex]. change (lex_step LIdle example.dq) with (Some (LStr [] NoEsc, @nil token)).
  cbv beta iota. rewrite (lex_plain s [] rest Hs). change (text_of []) with EmptyString.
  rewrite append_nil_l. cbv beta iota. by destruct (lex rest LIdle).
Qed.

Lemma unquote_plain s : plain s = true -> unquote s = Some s.
Proof.
  induction s as [|c s IH]; [done|]. cbn [plain]. intros Hs.
  apply andb_true_iff in Hs as [Hc Hs].
  destruct (plain_byte_facts c Hc) as (H34 & H92 & H32 & H128).
  cbn [unquote]. cbv zeta. rewrite H92, H34, H32, H128. cbn [orb]. by rewrite (IH Hs).
Qed.

Lemma lex_delimiter c t rest :
  delimiter c t ->
  lex (String c rest) LIdle = option_map (cons t) (lex rest LIdle).
Proof.
  intros [[-> ->]|[-> ->]]; cbn [lex]; [change (lex_step LIdle ",") with (Some (LIdle, [TComma]))
    |change (lex_step LIdle "}") with (Some (LIdle, [TRBrace]))];
    cbv beta iota; by destruct (lex rest LIdle).
Qed.

Lemma lex_colon rest :
  lex (String ":" rest) LIdle = option_map (cons TColon) (lex rest LIdle).
Proof.
  cbn [lex]. change (lex_step LIdle ":") with (Some (LIdle, [TColon])).
  cbv beta iota. by destruct (lex rest LIdle).
Qed.

Lemma is_digit_bytes c : is_digit c = true -> 48 <= byte_val c <= 57.
Proof. unfold is_digit. intros H. apply andb_true_iff in H as [H1 H2]. lia. Qed.

Lemma lex_idle_number c :
  is_digit c = true \/ c = "-"%char -> lex_idle c = Some (LNum [c], []).
Proof.
  intros [Hc| ->]; [|done]. pose proof (is_digit_bytes c Hc) as Hb.
  unfold lex_idle, is_space. cbv zeta. rewrite Hc.
  repeat match goal with
         | |- context [?a =? ?b] => destruct (Z.eqb_spec a b); [lia|]
         end.
  by rewrite orb_true_r.
Qed.

(** Inside a number, digits are kept up to the delimiter; the number
    must then be well formed. *)
Lemma lex_digits s : forall acc c t rest,
  text.all_digits s = true -> delimiter c t ->
  lex (append s (String c rest)) (LNum acc)
  = if valid_number (append (text_of acc) s)
    then option_map (fun r => TNumber (append (text_of acc) s) :: t :: r) (lex rest LIdle)
    else None.
Proof.
  induction s as [|d s IH]; intros acc c t rest Hs Hc.
  - rewrite append_nil_l, append_nil_r. cbn [lex lex_step]. cbv zeta.
    assert (Hnb : is_number_byte c = false) by (by destruct Hc as [[-> _]|[-> _]]).
    rewrite Hnb. destruct (valid_number (text_of acc)); [|done].
    assert (Hi : lex_idle c = Some (LIdle, [t])) by (by destruct Hc as [[-> ->]|[-> ->]]).
    rewrite Hi. cbv beta iota. by destruct (lex rest LIdle).
  - cbn [text.all_digits] in Hs. apply andb_true_iff in Hs as [Hd Hs].
    rewrite append_cons. cbn [lex lex_step]. cbv zeta.
    assert (Hnb : is_number_byte d = true) by (unfold is_number_byte; cbv zeta; by rewrite Hd).
    rewrite Hnb. cbv beta iota.
    rewrite (IH (d :: acc) c t rest Hs Hc), text_of_cons, append_assoc.
    rewrite append_cons, append_nil_l.
    destruct (valid_number (append (text_of acc) (String d s))); [|done].
    by destruct (lex rest LIdle).
Qed.

Lemma num_run_digits s : text.all_digits s = true -> num_run N1 s = Some N1.
Proof.
  induction s as [|c s IH]; [done|]. cbn [text.all_digits num_run num_step].
  intros H. apply andb_true_iff in H as [Hc Hs]. cbv zeta. rewrite Hc. by apply IH.
Qed.

(** A numeral is a JSON number, and a digit or a minus sign followed by
    digits. *)
Lemma numeral_shape n :
  exists c s,
    numeral.of_Z n = String c s
    /\ (is_digit c = true \/ c = "-"%char)
    /\ text.all_digits s = true
    /\ valid_number (numeral.of_Z n) = true.
Proof.
  assert (Hpos : forall p, exists c s,
            numeral.of_pos p = String c s /\ is_digit c = true
            /\ text.all_digits s = true
            /\ num_step NBegin c = Some N1 /\ num_step NNeg c = Some N1).
  { intros p. destruct (digits_of_head p) as (x & l & Hp & Hx).
    pose proof (digits_of_dec p) as Hd. rewrite Hp in Hd.
    apply Forall_cons in Hd as [_ Hl].
    exists (ftoa.digit_char x), (ftoa.digit_string l).
    unfold numeral.of_pos. rewrite Hp. split; [done|].
    split; [apply digit_char_facts; unfold numeral.is_dec; lia|].
    split; [by apply digit_string_digits|].
    assert (Hc : x = 1 \/ x = 2 \/ x = 3 \/ x = 4 \/ x = 5 \/ x = 6 \/ x = 7
                 \/ x = 8 \/ x = 9) by lia.
    by destruct Hc as [->|[->|[->|[->|[->|[->|[->|[->| ->]]]]]]]]. }
  destruct n as [|p|p]; cbn [numeral.of_Z].
  - exists "0"%char, EmptyString. repeat split; try done. by left.
  - destruct (Hpos p) as (c & s & -> & Hc & Hs & H1 & _). exists c, s.
    repeat split; try done; [by left|].
    unfold valid_number. cbn [num_run]. by rewrite H1, (num_run_digits s Hs).
  - destruct (Hpos p) as (c & s & -> & Hc & Hs & _ & H2). exists "-"%char, (String c s).
    repeat split; try done; [by right|by cbn [text.all_digits]; rewrite Hc|].
    unfold valid_number. cbn [num_run]. change (num_step NBegin "-") with (Some NNeg).
    cbv beta iota. by rewrite H2, (num_run_digits s Hs).
Qed.

Lemma lex_numeral n c t rest :
  delimiter c t ->
  lex (append (numeral.of_Z n) (String c rest)) LIdle
  = option_map (fun r => TNumber (numeral.of_Z n) :: t :: r) (lex rest LIdle).
Proof.
  intros Hc. destruct (numeral_shape n) as (c0 & s & Hn & Hc0 & Hs & Hv).
  rewrite Hn in *. rewrite append_cons. cbn [lex]. change (lex_step LIdle c0) with (lex_idle c0).
  rewrite (lex_idle_number c0 Hc0). cbv beta iota.
  rewrite (lex_digits s [c0] c t rest Hs Hc).
  change (append (text_of [c0]) s) with (String c0 s). rewrite Hv.
  by destruct (lex rest LIdle).
Qed.

Lemma lex_literals rest :
  lex (append "true" rest) LIdle = option_map (cons TTrue) (lex rest LIdle)
  /\ lex (append "false" rest) LIdle = option_map (cons TFalse) (lex rest LIdle)
  /\ lex (append "null" rest) LIdle = option_map (cons TNull) (lex rest LIdle).
Proof.
  repeat split.
  - change (append "true" rest) with (String "t" (String "r" (String "u" (String "e" rest)))).
    cbn -[lex_idle]. change (lex_idle "t") with (Some (LLit "rue" TTrue, @nil token)). cbn.
    by destruct (lex rest LIdle).
  - change (append "false" rest)
      with (String "f" (String "a" (String "l" (String "s" (String "e" rest))))).
    cbn -[lex_idle]. change (lex_idle "f") with (Some (LLit "alse" TFalse, @nil token)). cbn.
    by destruct (lex rest LIdle).
  - change (append "null" rest) with (String "n" (String "u" (String "l" (String "l" rest)))).
    cbn -[lex_idle]. change (lex_idle "n") with (Some (LLit "ull" TNull, @nil token)). cbn.
    by destruct (lex rest LIdle).
Qed.

(** A value and the delimiter after it. *)
Lemma lex_value k v c t rest :
  valid (k, v) -> delimiter c t ->
  lex (append (value_text v) (String c rest)) LIdle
  = option_map (fun r => value_token v :: t :: r) (lex rest LIdle).
Proof.
  intros [_ Hv] Hc. cbn [snd] in Hv.
  destruct (lex_literals (String c rest)) as (Ht & Hf & Hn).
  destruct v as [s|[]| |n]; cbn [value_text value_token];
    rewrite ?(lex_quoted s _ Hv), ?Ht, ?Hf, ?Hn, ?(lex_delimiter c t rest Hc);
    try (by destruct (lex rest LIdle)).
  by apply lex_numeral.
Qed.

Lemma delimiter_comma : delimiter "," TComma.
Proof. by left. Qed.

Lemma delimiter_brace : delimiter "}" TRBrace.
Proof. by right. Qed.

(** The members of an object and its closing brace. *)
Lemma lex_members l : forall rest,
  Forall valid l -> l <> [] ->
  lex (append (example.members (map (fun kv => (fst kv, value_text (snd kv))) l))
         (String "}" rest)) LIdle
  = option_map (fun r => member_tokens l ++ TRBrace :: r) (lex rest LIdle).
Proof.
  induction l as [|[k v] l IH]; intros rest Hl Hne; [done|].
  apply Forall_cons in Hl as [Hkv Hl]. pose proof Hkv as [Hk _]. cbn [fst] in Hk.
  destruct l as [|kv' l'].
  - cbn [map example.members member_tokens fst snd].
    rewrite !append_assoc, (lex_quoted k _ Hk).
    change (append ":" ?x) with (String ":" x). rewrite lex_colon.
    rewrite (lex_value k v "}" TRBrace rest Hkv delimiter_brace).
    by destruct (lex rest LIdle).
  - specialize (IH rest Hl ltac:(done)).
    change (example.members (map (fun kv => (fst kv, value_text (snd kv))) ((k, v) :: kv' :: l')))
      with (append (example.quoted k)
              (append ":" (append (value_text v)
                 (append ","
                    (example.members
                       (map (fun kv => (fst kv, value_text (snd kv))) (kv' :: l'))))))).
    change (member_tokens ((k, v) :: kv' :: l'))
      with (TString k :: TColon :: value_token v :: TComma :: member_tokens (kv' :: l')).
    rewrite !append_assoc, (lex_quoted k _ Hk).
    change (append ":" ?x) with (String ":" x). rewrite lex_colon.
    change (append "," ?x) with (String "," x).
    rewrite (lex_value k v "," TComma _ Hkv delimiter_comma), IH.
    by destruct (lex rest LIdle).
Qed.

Lemma lex_text l :
  Forall valid l -> lex (text l) LIdle = Some (TLBrace :: member_tokens l ++ [TRBrace]).
Proof.
  intros Hl. destruct l as [|kv l]; [done|].
  unfold text, example.object. change (append "{" ?x) with (String "{" x).
  change (append ?x "}") with (append x (String "}" "")).
  cbn [lex]. change (lex_step LIdle "{") with (Some (LIdle, [TLBrace])). cbv beta iota.
  by rewrite (lex_members (kv :: l) "" Hl).
Qed.

Lemma convertNumber_numeral n :
  Z.abs n < 2 ^ 53 -> convertNumber (numeral.of_Z n) = (AFloat64 (f64.of_Z n), None).
Proof. intros Hn. unfold convertNumber. by rewrite (ParseFloat_numeral n Hn). Qed.

(** One member is stored in the object that is open. *)
Lemma decode_member k v m e top0 toks :
  valid (k, v) -> e = BeginStringOrEmpty \/ e = BeginString ->
  decode (TString k :: TColon :: value_token v :: toks)
    {| stack := [FObject m None]; expect := e; top := top0; savedError := None |}
  = decode toks
      {| stack := [FObject (<[k := decoded v]> m) None]; expect := EndValue;
         top := top0; savedError := None |}.
Proof.
  intros [Hk Hv] He. cbn [fst snd] in Hk, Hv.
  destruct He as [->| ->]; cbn [decode decode_step]; rewrite (unquote_plain k Hk);
    cbn [top savedError decode decode_step expect stack];
    destruct v as [s|[]| |n];
    cbn [value_token decoded decode_step expect stack begins_value];
    rewrite ?(unquote_plain s Hv), ?(convertNumber_numeral n Hv); reflexivity.
Qed.

Lemma decode_members l : forall m e top0 toks,
  Forall valid l -> l <> [] -> e = BeginStringOrEmpty \/ e = BeginString ->
  decode (member_tokens l ++ TRBrace :: toks)
    {| stack := [FObject m None]; expect := e; top := top0; savedError := None |}
  = decode toks
      {| stack := []; expect := EndTop; top := AMap (store_members l m);
         savedError := None |}.
Proof.
  induction l as [|[k v] l IH]; intros m e top0 toks Hl Hne He; [done|].
  apply Forall_cons in Hl as [Hkv Hl]. destruct l as [|kv' l'].
  - change (member_tokens [(k, v)] ++ TRBrace :: toks)
      with (TString k :: TColon :: value_token v :: TRBrace :: toks).
    by rewrite (decode_member k v m e top0 _ Hkv He).
  - change (member_tokens ((k, v) :: kv' :: l') ++ TRBrace :: toks)
      with (TString k :: TColon :: value_token v :: TComma
              :: (member_tokens (kv' :: l') ++ TRBrace :: toks)).
    rewrite (decode_member k v m e top0 _ Hkv He).
    cbn [decode decode_step expect stack top savedError].
    rewrite (IH (<[k := decoded v]> m) BeginString top0 toks Hl); [done|done|by right].
Qed.

(** [json.Unmarshal] of the text of plain settings: their map. *)
Lemma Unmarshal_text l :
  Forall valid l -> Unmarshal (text l) = (store_members l ∅, None).
Proof.
  intros Hl. unfold Unmarshal. rewrite (lex_text l Hl).
  destruct l as [|kv l]; [reflexivity|].
  unfold decode_all. cbn [decode decode_step start expect begins_value push stack length
                          top savedError].
  change (push start (FObject ∅ None) BeginStringOrEmpty)
    with (Some {| stack := [FObject ∅ None]; expect := BeginStringOrEmpty;
                  top := ANil; savedError := None |}).
  cbv iota.
  rewrite (decode_members (kv :: l) ∅ BeginStringOrEmpty ANil [] Hl); [|done|by left].
  reflexivity.
Qed.

End PayloadFacts.

Section PayloadEndToEnd.

Import rcm payloads.

Lemma store_members_other l : forall m k,
  ~ In k (map fst l) -> store_members l m !! k = m !! k.
Proof.
  induction l as [|[k' v'] l IH]; intros m k Hk; [done|].
  cbn [map fst In] in Hk. unfold store_members. cbn [fold_left fst snd].
  fold (store_members l (<[k' := decoded v']> m)).
  rewrite IH by tauto. apply lookup_insert_ne. tauto.
Qed.

(** The last member of a name is the one the map holds. *)
Lemma store_members_last l1 k v l2 m :
  ~ In k (map fst l2) ->
  store_members (l1 ++ (k, v) :: l2) m !! k = Some (decoded v).
Proof.
  intros Hk. unfold store_members. rewrite fold_left_app. cbn [fold_left fst snd].
  fold (store_members l1 m).
  fold (store_members l2 (<[k := decoded v]> (store_members l1 m))).
  rewrite store_members_other by done. by rewrite lookup_insert_eq.
Qed.

(** X12. Plain settings load as they are written. For a payload that is
    the JSON text of a flat object of strings without escapes, booleans,
    nulls and integers below 2^53, [json.Unmarshal] returns the map of its
    members, [LoadConfig] succeeds, and for the last member of a name:
    [GetString] returns a string member as written, [GetBool] a boolean,
    [GetInt] and [GetFloat] an integer below one million (from one million
    on [GetInt] fails with a ParseError), and a null member reads as the
    text <nil>; keys that the payload does not name keep their entries. *)
Theorem plain_settings_end_to_end r now rcm l1 k v l2 :
  r (serviceName rcm) = (text (l1 ++ (k, v) :: l2), None) ->
  Forall valid (l1 ++ (k, v) :: l2) ->
  ~ In k (map fst l2) ->
  json.Unmarshal (text (l1 ++ (k, v) :: l2))
  = (store_members (l1 ++ (k, v) :: l2) ∅, None)
  /\ snd (LoadConfig r now rcm) = None
  /\ updatedAt (fst (LoadConfig r now rcm)) = now
  /\ match v with
     | SString s => GetString (fst (LoadConfig r now rcm)) k = (s, None)
     | SBool b => GetBool (fst (LoadConfig r now rcm)) k = (b, None)
     | SNull => GetString (fst (LoadConfig r now rcm)) k = ("<nil>"%string, None)
     | SInt n =>
         if Z.abs n <? 10 ^ 6
         then GetInt (fst (LoadConfig r now rcm)) k = (n, None)
              /\ GetFloat (fst (LoadConfig r now rcm)) k = (f64.of_Z n, None)
         else is_ParseError (snd (GetInt (fst (LoadConfig r now rcm)) k)) = true
     end
  /\ forall k',
       ~ In k' (map fst (l1 ++ (k, v) :: l2)) ->
       config (fst (LoadConfig r now rcm)) !! k' = config rcm !! k'.
Proof.
  intros Hr Hl Hk. pose proof (Unmarshal_text _ Hl) as HU. split; [done|].
  rewrite (LoadConfig_success r now rcm _ _ Hr HU). cbn [fst snd updatedAt].
  split; [done|]. split; [done|].
  assert (Hcfg : ((fmt.Sprintf_v <$> store_members (l1 ++ (k, v) :: l2) ∅) ∪ config rcm) !! k
                 = Some (fmt.Sprintf_v (decoded v))).
  { apply lookup_union_Some_l. by rewrite lookup_fmap, (store_members_last l1 k v l2 ∅ Hk). }
  split.
  - unfold GetString, GetBool, GetInt, GetFloat. cbn [config]. rewrite Hcfg.
    destruct v as [s|[]| |n]; cbn [decoded fmt.Sprintf_v]; try done.
    apply Atoi_of_float_text.
    apply Forall_app in Hl as [_ Hl]. apply Forall_cons in Hl as [[_ Hn] _]. exact Hn.
  - intros k' Hk'. cbn [config]. rewrite lookup_union_r; [done|].
    by rewrite lookup_fmap, (store_members_other _ ∅ k' Hk').
Qed.

Lemma plain_settings_end_to_end_witness :
  json.Unmarshal
    (text ([("name", SString "api"); ("debug", SBool true)]
           ++ ("workers", SInt 8) :: [("region", SNull)]))
  = (store_members ([("name", SString "api"); ("debug", SBool true)]
                    ++ ("workers", SInt 8) :: [("region", SNull)]) ∅, None)
  /\ snd (LoadConfig
            (example.serving "svc"
               (text ([("name", SString "api"); ("debug", SBool true)]
                      ++ ("workers", SInt 8) :: [("region", SNull)])))
            7 example.stale_store) = None
  /\ updatedAt
       (fst (LoadConfig
               (example.serving "svc"
                  (text ([("name", SString "api"); ("debug", SBool true)]
                         ++ ("workers", SInt 8) :: [("region", SNull)])))
               7 example.stale_store)) = 7
  /\ (if Z.abs 8 <? 10 ^ 6
      then GetInt
             (fst (LoadConfig
                     (example.serving "svc"
                        (text ([("name", SString "api"); ("debug", SBool true)]
                               ++ ("workers", SInt 8) :: [("region", SNull)])))
                     7 example.stale_store)) "workers" = (8, None)
           /\ GetFloat
                (fst (LoadConfig
                        (example.serving "svc"
                           (text ([("name", SString "api"); ("debug", SBool true)]
                                  ++ ("workers", SInt 8) :: [("region", SNull)])))
                        7 example.stale_store)) "workers" = (f64.of_Z 8, None)
      else is_ParseError
             (snd (GetInt
                     (fst (LoadConfig
                             (example.serving "svc"
                                (text ([("name", SString "api"); ("debug", SBool true)]
                                       ++ ("workers", SInt 8) :: [("region", SNull)])))
                             7 example.stale_store)) "workers")) = true)
  /\ forall k',
       ~ In k' (map fst ([("name", SString "api"); ("debug", SBool true)]
                         ++ ("workers", SInt 8) :: [("region", SNull)])) ->
       config
         (fst (LoadConfig
                 (example.serving "svc"
                    (text ([("name", SString "api"); ("debug", SBool true)]
                           ++ ("workers", SInt 8) :: [("region", SNull)])))
                 7 example.stale_store)) !! k'
       = config example.stale_store !! k'.
Proof.
  apply (plain_settings_end_to_end
           (example.serving "svc"
              (text ([("name", SString "api"); ("debug", SBool true)]
                     ++ ("workers", SInt 8) :: [("region", SNull)])))
           7 example.stale_store
           [("name", SString "api"); ("debug", SBool true)] "workers" (SInt 8)
           [("region", SNull)]).
  - vm_compute. reflexivity.
  - repeat constructor; try (vm_compute; congruence).
  - cbn. intros [H|[]]. discriminate H.
Defined.

End PayloadEndToEnd.

(** * White space around a payload is ignored *)

Section BlankFacts.

Import rcm json blanks.

Lemma lex_leading ws data : blank ws = true -> lex (append ws data) LIdle = lex data LIdle.
Proof.
  induction ws as [|c ws IH]; [done|]. cbn [blank]. intros H.
  apply andb_true_iff in H as [Hc Hws]. rewrite append_cons. cbn [lex lex_step].
  unfold lex_idle. cbv zeta. rewrite Hc. rewrite (IH Hws). by destruct (lex data LIdle).
Qed.

Lemma lex_blank ws : blank ws = true -> lex ws LIdle = Some [].
Proof. intros H. rewrite <- (append_nil_r ws). by rewrite lex_leading. Qed.

Lemma space_bytes c :
  is_space c = true ->
  is_number_byte c = false /\ is_hex c = false
  /\ (byte_val c = 32 \/ byte_val c = 9 \/ byte_val c = 13 \/ byte_val c = 10).
Proof.
  unfold is_space. cbv zeta. intros H.
  assert (Hb : byte_val c = 32 \/ byte_val c = 9 \/ byte_val c = 13 \/ byte_val c = 10).
  { repeat (apply orb_true_iff in H as [H|H]); apply Z.eqb_eq in H; tauto. }
  assert (Hc : c = byte_of (byte_val c)).
  { unfold byte_of, byte_val. by rewrite N2Z.id, ascii_N_embedding. }
  split; [|split; [|done]]; rewrite Hc;
    destruct Hb as [->|[->|[->| ->]]]; reflexivity.
Qed.

(** Inside a string, white space does not end the text. *)
Lemma lex_blank_in_string ws : forall acc esc,
  blank ws = true -> lex ws (LStr acc esc) = None.
Proof.
  induction ws as [|c ws IH]; intros acc esc; [done|]. cbn [blank]. intros H.
  apply andb_true_iff in H as [Hc Hws].
  destruct (space_bytes c Hc) as (_ & Hhex & Hb).
  cbn [lex lex_step]. cbv zeta. destruct esc as [| |n].
  - destruct Hb as [Hb|[Hb|[Hb|Hb]]]; rewrite Hb; cbn; by rewrite ?(IH _ _ Hws).
  - by destruct Hb as [Hb|[Hb|[Hb|Hb]]]; rewrite Hb.
  - by rewrite Hhex.
Qed.

Lemma lex_step_settled st c st' toks :
  settled st = true -> lex_step st c = Some (st', toks) -> settled st' = true.
Proof.
  assert (Hidle : forall st' toks, lex_idle c = Some (st', toks) -> settled st' = true).
  { intros st1 toks1. unfold lex_idle. cbv zeta.
    repeat match goal with
           | |- context [if ?b then _ else _] => destruct b
           end; by intros [= <- <-]. }
  destruct st as [|acc esc|acc|rest tok]; cbn [lex_step settled]; cbv zeta.
  - intros _. apply Hidle.
  - intros _. destruct esc as [| |[|[|n]]];
      repeat match goal with
             | |- context [if ?b then _ else _] => destruct b
             end; (discriminate || by intros [= <- <-]).
  - intros _. destruct (is_number_byte c); [by intros [= <- <-]|].
    destruct (valid_number (text_of acc)); [|discriminate].
    destruct (lex_idle c) as [[st1 toks1]|] eqn:Hi; [|discriminate].
    intros [= <- <-]. by apply (Hidle st1 toks1).
  - destruct rest as [|e rest']; [discriminate|]. cbn [no_space].
    intros H. apply andb_true_iff in H as [_ Hrest].
    destruct (Ascii.eqb c e); [|discriminate].
    destruct rest'; by intros [= <- <-].
Qed.

(** White space after a text adds no token and hides no error. *)
Lemma lex_trailing ws data : forall st,
  blank ws = true -> settled st = true -> lex (append data ws) st = lex data st.
Proof.
  intros st Hws. revert st. induction data as [|c data IH]; intros st Hst.
  - rewrite append_nil_l. cbn [lex]. destruct st as [|acc esc|acc|rest tok].
    + by apply lex_blank.
    + by apply lex_blank_in_string.
    + destruct ws as [|c ws]; [done|]. cbn [blank] in Hws.
      apply andb_true_iff in Hws as [Hc Hws]. destruct (space_bytes c Hc) as (Hnb & _ & _).
      cbn [lex lex_step]. cbv zeta. rewrite Hnb.
      destruct (valid_number (text_of acc)); [|done].
      unfold lex_idle. cbv zeta. rewrite Hc. by rewrite (lex_blank ws Hws).
    + destruct ws as [|c ws]; [done|]. cbn [blank] in Hws.
      apply andb_true_iff in Hws as [Hc Hws]. cbn [lex lex_step]. cbv zeta.
      destruct rest as [|e rest']; [done|]. cbn [settled no_space] in Hst.
      apply andb_true_iff in Hst as [He _].
      destruct (Ascii.eqb_spec c e) as [->|_]; [|done]. by rewrite Hc in He.
  - rewrite append_cons. cbn [lex].
    destruct (lex_step st c) as [[st' toks]|] eqn:Hstep; [|done].
    by rewrite (IH st' (lex_step_settled _ _ _ _ Hst Hstep)).
Qed.

Lemma Unmarshal_blanks ws1 data ws2 :
  blank ws1 = true -> blank ws2 = true ->
  Unmarshal (append ws1 (append data ws2)) = Unmarshal data.
Proof.
  intros H1 H2. unfold Unmarshal. by rewrite (lex_leading ws1 _ H1), (lex_trailing ws2 data LIdle H2).
Qed.

(** X13. White space around the payload is ignored: a payload with
    spaces, tabs, carriage returns or line feeds before and after it
    decodes as the payload alone does, so that [LoadConfig] returns the
    same manager for both and fails for one exactly when it fails for the
    other. *)
Theorem LoadConfig_ignores_surrounding_blanks r r' now rcm ws1 data ws2 :
  blank ws1 = true -> blank ws2 = true ->
  r (serviceName rcm) = (append ws1 (append data ws2), None) ->
  r' (serviceName rcm) = (data, None) ->
  json.Unmarshal (append ws1 (append data ws2)) = json.Unmarshal data
  /\ LoadConfig r now rcm = LoadConfig r' now rcm.
Proof.
  intros H1 H2 Hr Hr'. pose proof (Unmarshal_blanks ws1 data ws2 H1 H2) as HU.
  split; [done|]. unfold LoadConfig. by rewrite Hr, Hr', HU.
Qed.

Lemma LoadConfig_ignores_surrounding_blanks_witness :
  json.Unmarshal
    (append " " (append example.payload (String (ascii_of_nat 10) EmptyString)))
  = json.Unmarshal example.payload
  /\ LoadConfig
       (example.serving "svc"
          (append " " (append example.payload (String (ascii_of_nat 10) EmptyString))))
       4 example.stale_store
     = LoadConfig (example.serving "svc" example.payload) 4 example.stale_store.
Proof.
  apply (LoadConfig_ignores_surrounding_blanks
           (example.serving "svc"
              (append " " (append example.payload (String (ascii_of_nat 10) EmptyString))))
           (example.serving "svc" example.payload) 4 example.stale_store
           " " example.payload (String (ascii_of_nat 10) EmptyString));
    vm_compute; reflexivity.
Defined.

End BlankFacts.
